(** * A shallow embedding of the CHIP-8 interpreter core (cpu.c)

    The interpreter state [struct machine_t] becomes a record, every opcode
    handler [nibble_0] ... [nibble_F] becomes a function on that record, and
    [step_machine] / [update_time] are the two entry points.  C arrays are
    lists read and written through [aget] / [aset]; an index outside the
    array is undefined behaviour in C and is the error [None] here, so every
    handler lives in the option monad. *)

From Stdlib Require Import ZArith Lia List Bool.
From stdpp Require Import base option list list_numbers.

Open Scope Z_scope.

(** ** Machine integers *)

(** [byte] is an unsigned 8-bit cell, [word] an unsigned 16-bit one: an
    assignment keeps the low bits. *)
Definition to_byte (z : Z) : Z := z mod 256.
Definition to_word (z : Z) : Z := z mod 65536.

(** [int] is a signed 32-bit value.  [to_int] keeps a result to 32 bits in
    two's complement, which is what the arithmetic of the usual build does
    where a sum leaves the range (the C standard leaves that case
    undefined); on a value within the range it changes nothing. *)
Definition is_int (z : Z) : Prop := -2147483648 <= z <= 2147483647.
Definition to_int (z : Z) : Z := (z + 2147483648) mod 4294967296 - 2147483648.

(** A C comparison or [!= 0] test yields the int 0 or 1. *)
Definition b2i (b : bool) : Z := if b then 1 else 0.

(** ** Arrays *)

Definition aget (a : list Z) (n : Z) : option Z :=
  if 0 <=? n then a !! Z.to_nat n else None.

Definition aset (a : list Z) (n x : Z) : option (list Z) :=
  if (0 <=? n) && (n <? Z.of_nat (length a))
  then Some (<[Z.to_nat n := x]> a) else None.

(** [for (int k = 0; k < n; k++) body], threading the loop state and
    stopping at the first undefined access. *)
Fixpoint for_each {S : Type} (ks : list Z) (body : Z -> S -> option S) (s : S)
  : option S :=
  match ks with
  | [] => Some s
  | k :: ks' => s' ← body k s; for_each ks' body s'
  end.

(** ** Opcode fields (the OPCODE_* macros) *)

Definition OPCODE_NNN (opcode : Z) : Z := Z.land opcode 0xFFF.
Definition OPCODE_KK (opcode : Z) : Z := Z.land opcode 0xFF.
Definition OPCODE_N (opcode : Z) : Z := Z.land opcode 0xF.
Definition OPCODE_X (opcode : Z) : Z := Z.land (Z.shiftr opcode 8) 0xF.
Definition OPCODE_Y (opcode : Z) : Z := Z.land (Z.shiftr opcode 4) 0xF.
Definition OPCODE_P (opcode : Z) : Z := Z.shiftr opcode 12.

(** ** Machine state *)

(** Modelled from the spec: [struct machine_t] and the integer types [byte]
    and [word] are declared in cpu.h, which is not among the sources.  The
    fields are the ones cpu.c uses, with the sizes of the data model: 4096
    memory bytes, a 16-entry call stack, 16 byte registers, a 16-bit address
    register, 2048 screen cells.  [keydown] is the key-poll function pointer
    ([None] when null); [speaker] records whether the speaker pointer is
    non-null, its calls being logged by [update_time]. *)
Record machine_t : Type := Machine {
  mem : list Z;
  pc : Z;
  stack : list Z;
  sp : Z;
  v : list Z;
  i : Z;
  dt : Z;
  st : Z;
  screen : list Z;
  wait_key : Z;
  keydown : option (Z -> Z);
  speaker : bool
}.

Definition set_mem (cpu : machine_t) (x : list Z) : machine_t :=
  Machine x (pc cpu) (stack cpu) (sp cpu) (v cpu) (i cpu) (dt cpu) (st cpu)
          (screen cpu) (wait_key cpu) (keydown cpu) (speaker cpu).
Definition set_pc (cpu : machine_t) (x : Z) : machine_t :=
  Machine (mem cpu) x (stack cpu) (sp cpu) (v cpu) (i cpu) (dt cpu) (st cpu)
          (screen cpu) (wait_key cpu) (keydown cpu) (speaker cpu).
Definition set_stack (cpu : machine_t) (x : list Z) : machine_t :=
  Machine (mem cpu) (pc cpu) x (sp cpu) (v cpu) (i cpu) (dt cpu) (st cpu)
          (screen cpu) (wait_key cpu) (keydown cpu) (speaker cpu).
Definition set_sp (cpu : machine_t) (x : Z) : machine_t :=
  Machine (mem cpu) (pc cpu) (stack cpu) x (v cpu) (i cpu) (dt cpu) (st cpu)
          (screen cpu) (wait_key cpu) (keydown cpu) (speaker cpu).
Definition set_v (cpu : machine_t) (x : list Z) : machine_t :=
  Machine (mem cpu) (pc cpu) (stack cpu) (sp cpu) x (i cpu) (dt cpu) (st cpu)
          (screen cpu) (wait_key cpu) (keydown cpu) (speaker cpu).
Definition set_i (cpu : machine_t) (x : Z) : machine_t :=
  Machine (mem cpu) (pc cpu) (stack cpu) (sp cpu) (v cpu) x (dt cpu) (st cpu)
          (screen cpu) (wait_key cpu) (keydown cpu) (speaker cpu).
Definition set_dt (cpu : machine_t) (x : Z) : machine_t :=
  Machine (mem cpu) (pc cpu) (stack cpu) (sp cpu) (v cpu) (i cpu) x (st cpu)
          (screen cpu) (wait_key cpu) (keydown cpu) (speaker cpu).
Definition set_st (cpu : machine_t) (x : Z) : machine_t :=
  Machine (mem cpu) (pc cpu) (stack cpu) (sp cpu) (v cpu) (i cpu) (dt cpu) x
          (screen cpu) (wait_key cpu) (keydown cpu) (speaker cpu).
Definition set_screen (cpu : machine_t) (x : list Z) : machine_t :=
  Machine (mem cpu) (pc cpu) (stack cpu) (sp cpu) (v cpu) (i cpu) (dt cpu)
          (st cpu) x (wait_key cpu) (keydown cpu) (speaker cpu).
Definition set_wait_key (cpu : machine_t) (x : Z) : machine_t :=
  Machine (mem cpu) (pc cpu) (stack cpu) (sp cpu) (v cpu) (i cpu) (dt cpu)
          (st cpu) (screen cpu) x (keydown cpu) (speaker cpu).

(** [cpu->v[n] = x] with the truncation to a byte. *)
Definition write_v (cpu : machine_t) (n x : Z) : option machine_t :=
  v' ← aset (v cpu) n (to_byte x); Some (set_v cpu v').

(** [cpu->pc = (cpu->pc + 2) & 0xfff] *)
Definition skip (cpu : machine_t) : machine_t :=
  set_pc cpu (Z.land (pc cpu + 2) 0xFFF).

(** ** Opcode handlers *)

Definition nibble_0 (cpu : machine_t) (opcode : Z) : option machine_t :=
  if opcode =? 0x00E0 then
    (* 00E0: CLS *)
    Some (set_screen cpu (replicate 2048 0))
  else if opcode =? 0x00EE then
    (* 00EE: RET *)
    if sp cpu >? 0 then
      let sp' := sp cpu - 1 in
      ret ← aget (stack cpu) sp';
      Some (set_pc (set_sp cpu sp') ret)
    else Some cpu
  else Some cpu.

Definition nibble_1 (cpu : machine_t) (opcode : Z) : option machine_t :=
  Some (set_pc cpu (OPCODE_NNN opcode)).

Definition nibble_2 (cpu : machine_t) (opcode : Z) : option machine_t :=
  if sp cpu <? 16 then
    stack' ← aset (stack cpu) (sp cpu) (pc cpu);
    Some (set_pc (set_sp (set_stack cpu stack') (sp cpu + 1))
                 (OPCODE_NNN opcode))
  else Some cpu.

Definition nibble_3 (cpu : machine_t) (opcode : Z) : option machine_t :=
  vx ← aget (v cpu) (OPCODE_X opcode);
  if vx =? OPCODE_KK opcode then Some (skip cpu) else Some cpu.

Definition nibble_4 (cpu : machine_t) (opcode : Z) : option machine_t :=
  vx ← aget (v cpu) (OPCODE_X opcode);
  if negb (vx =? OPCODE_KK opcode) then Some (skip cpu) else Some cpu.

Definition nibble_5 (cpu : machine_t) (opcode : Z) : option machine_t :=
  vx ← aget (v cpu) (OPCODE_X opcode);
  vy ← aget (v cpu) (OPCODE_Y opcode);
  if vx =? vy then Some (skip cpu) else Some cpu.

Definition nibble_6 (cpu : machine_t) (opcode : Z) : option machine_t :=
  write_v cpu (OPCODE_X opcode) (OPCODE_KK opcode).

Definition nibble_7 (cpu : machine_t) (opcode : Z) : option machine_t :=
  vx ← aget (v cpu) (OPCODE_X opcode);
  write_v cpu (OPCODE_X opcode) (vx + OPCODE_KK opcode).

(** 8XYN: the register-register ALU family.  Every statement of the C
    switch is kept in its order: the flag write to [v[0xf]] comes first and
    the second statement reads the registers again. *)
Definition nibble_8 (cpu : machine_t) (opcode : Z) : option machine_t :=
  let x := OPCODE_X opcode in
  let y := OPCODE_Y opcode in
  let n := OPCODE_N opcode in
  if n =? 0 then
    vy ← aget (v cpu) y; write_v cpu x vy
  else if n =? 1 then
    vx ← aget (v cpu) x; vy ← aget (v cpu) y; write_v cpu x (Z.lor vx vy)
  else if n =? 2 then
    vx ← aget (v cpu) x; vy ← aget (v cpu) y; write_v cpu x (Z.land vx vy)
  else if n =? 3 then
    vx ← aget (v cpu) x; vy ← aget (v cpu) y; write_v cpu x (Z.lxor vx vy)
  else if n =? 4 then
    vx ← aget (v cpu) x; vy ← aget (v cpu) y;
    cpu1 ← write_v cpu 0xF (b2i (vx >? Z.land (vx + vy) 0xFF));
    vx1 ← aget (v cpu1) x; vy1 ← aget (v cpu1) y;
    write_v cpu1 x (vx1 + vy1)
  else if n =? 5 then
    vx ← aget (v cpu) x; vy ← aget (v cpu) y;
    cpu1 ← write_v cpu 0xF (b2i (vx >? vy));
    vx1 ← aget (v cpu1) x; vy1 ← aget (v cpu1) y;
    write_v cpu1 x (vx1 - vy1)
  else if n =? 6 then
    vx ← aget (v cpu) x;
    cpu1 ← write_v cpu 0xF (Z.land vx 1);
    vx1 ← aget (v cpu1) x;
    write_v cpu1 x (Z.shiftr vx1 1)
  else if n =? 7 then
    vx ← aget (v cpu) x; vy ← aget (v cpu) y;
    cpu1 ← write_v cpu 0xF (b2i (vy >? vx));
    vx1 ← aget (v cpu1) x; vy1 ← aget (v cpu1) y;
    write_v cpu1 x (vy1 - vx1)
  else if n =? 0xE then
    vx ← aget (v cpu) x;
    cpu1 ← write_v cpu 0xF (b2i (negb (Z.land vx 0x80 =? 0)));
    vx1 ← aget (v cpu1) x;
    write_v cpu1 x (Z.shiftl vx1 1)
  else Some cpu.

Definition nibble_9 (cpu : machine_t) (opcode : Z) : option machine_t :=
  vx ← aget (v cpu) (OPCODE_X opcode);
  vy ← aget (v cpu) (OPCODE_Y opcode);
  if negb (vx =? vy) then Some (skip cpu) else Some cpu.

Definition nibble_A (cpu : machine_t) (opcode : Z) : option machine_t :=
  Some (set_i cpu (OPCODE_NNN opcode)).

Definition nibble_B (cpu : machine_t) (opcode : Z) : option machine_t :=
  v0 ← aget (v cpu) 0;
  Some (set_pc cpu (Z.land (v0 + OPCODE_NNN opcode) 0xFFF)).

(** CXKK: [rnd] is the value [rand()] returns at this call. *)
Definition nibble_C (rnd : Z) (cpu : machine_t) (opcode : Z)
  : option machine_t :=
  write_v cpu (OPCODE_X opcode) (Z.land rnd (OPCODE_KK opcode)).

(** The body of the inner loop of DXYN, for row [row] and column [col].
    The coordinate registers are read again for every pixel.  A screen cell
    is only ever XORed with 0 or 1 (or cleared), which keeps it within a
    [char], so its write needs no truncation. *)
Definition draw_pixel (x y sprite row col : Z) (cpu : machine_t)
  : option machine_t :=
  vx ← aget (v cpu) x;
  vy ← aget (v cpu) y;
  let px := Z.land (vx + col) 63 in
  let py := Z.land (vy + row) 31 in
  let pos := 64 * py + px in
  let pixel := b2i (negb (Z.land sprite (Z.shiftl 1 (7 - col)) =? 0)) in
  vf ← aget (v cpu) 15;
  cell ← aget (screen cpu) pos;
  cpu1 ← write_v cpu 15 (Z.lor vf (Z.land cell pixel));
  cell1 ← aget (screen cpu1) pos;
  screen' ← aset (screen cpu1) pos (Z.lxor cell1 pixel);
  Some (set_screen cpu1 screen').

Definition draw_row (x y row : Z) (cpu : machine_t) : option machine_t :=
  sprite ← aget (mem cpu) (i cpu + row);
  for_each (seqZ 0 8) (draw_pixel x y sprite row) cpu.

Definition nibble_D (cpu : machine_t) (opcode : Z) : option machine_t :=
  let x := OPCODE_X opcode in
  let y := OPCODE_Y opcode in
  cpu0 ← write_v cpu 15 0;
  for_each (seqZ 0 (OPCODE_N opcode)) (draw_row x y) cpu0.

(** EX9E / EXA1: [key & 0xF] is the low nibble of the register whatever the
    signedness of [char]. *)
Definition nibble_E (cpu : machine_t) (opcode : Z) : option machine_t :=
  key ← aget (v cpu) (OPCODE_X opcode);
  if OPCODE_KK opcode =? 0x9E then
    match keydown cpu with
    | Some poll =>
        if negb (poll (Z.land key 0xF) =? 0) then Some (skip cpu)
        else Some cpu
    | None => Some cpu
    end
  else if OPCODE_KK opcode =? 0xA1 then
    match keydown cpu with
    | Some poll =>
        if poll (Z.land key 0xF) =? 0 then Some (skip cpu) else Some cpu
    | None => Some cpu
    end
  else Some cpu.

(** [cpu->mem[n] = x] *)
Definition write_mem (cpu : machine_t) (n x : Z) : option machine_t :=
  mem' ← aset (mem cpu) n (to_byte x); Some (set_mem cpu mem').

Definition store_reg (reg : Z) (cpu : machine_t) : option machine_t :=
  vr ← aget (v cpu) reg; write_mem cpu (i cpu + reg) vr.

Definition load_reg (reg : Z) (cpu : machine_t) : option machine_t :=
  b ← aget (mem cpu) (i cpu + reg); write_v cpu reg b.

Definition nibble_F (cpu : machine_t) (opcode : Z) : option machine_t :=
  let x := OPCODE_X opcode in
  let kk := OPCODE_KK opcode in
  if kk =? 0x07 then write_v cpu x (dt cpu)
  else if kk =? 0x0A then Some (set_wait_key cpu x)
  else if kk =? 0x15 then vx ← aget (v cpu) x; Some (set_dt cpu vx)
  else if kk =? 0x18 then vx ← aget (v cpu) x; Some (set_st cpu vx)
  else if kk =? 0x1E then
    vx ← aget (v cpu) x; Some (set_i cpu (to_word (i cpu + vx)))
  else if kk =? 0x29 then
    vx ← aget (v cpu) x; Some (set_i cpu (0x50 + Z.land vx 0xF * 5))
  else if kk =? 0x33 then
    vx ← aget (v cpu) x;
    cpu1 ← write_mem cpu (i cpu + 2) (vx mod 10);
    vx1 ← aget (v cpu1) x;
    cpu2 ← write_mem cpu1 (i cpu1 + 1) ((vx1 / 10) mod 10);
    vx2 ← aget (v cpu2) x;
    write_mem cpu2 (i cpu2) (vx2 / 100)
  else if kk =? 0x55 then for_each (seqZ 0 (x + 1)) store_reg cpu
  else if kk =? 0x65 then for_each (seqZ 0 (x + 1)) load_reg cpu
  else Some cpu.

(** The handler table, indexed by the top nibble of the opcode. *)
Definition nibbles (rnd : Z) : list (machine_t -> Z -> option machine_t) :=
  [ nibble_0; nibble_1; nibble_2; nibble_3;
    nibble_4; nibble_5; nibble_6; nibble_7;
    nibble_8; nibble_9; nibble_A; nibble_B;
    nibble_C rnd; nibble_D; nibble_E; nibble_F ].

(** ** The step loop *)

(** The polling loop of [step_machine]: keys in the order given, stopping
    ([break]) at the first one reported down. *)
Fixpoint poll_keys (poll : Z -> Z) (keys : list Z) (cpu : machine_t)
  : option machine_t :=
  match keys with
  | [] => Some cpu
  | k :: keys' =>
      if negb (poll k =? 0) then
        cpu1 ← write_v cpu (wait_key cpu) k;
        Some (set_wait_key cpu1 (-1))
      else poll_keys poll keys' cpu
  end.

(** Fetch, advance the program counter, dispatch. *)
Definition fetch (cpu : machine_t) : option Z :=
  hi ← aget (mem cpu) (pc cpu);
  lo ← aget (mem cpu) (pc cpu + 1);
  Some (to_word (Z.lor (Z.shiftl hi 8) lo)).

Definition fetch_execute (rnd : Z) (cpu : machine_t) : option machine_t :=
  opcode ← fetch cpu;
  let cpu1 := set_pc cpu (Z.land (pc cpu + 2) 0xFFF) in
  handler ← nibbles rnd !! Z.to_nat (OPCODE_P opcode);
  handler cpu1 opcode.

Definition step_machine (rnd : Z) (cpu : machine_t) : option machine_t :=
  if negb (wait_key cpu =? -1) then
    match keydown cpu with
    | Some poll =>
        cpu1 ← poll_keys poll (seqZ 0 16) cpu;
        if negb (wait_key cpu1 =? -1) then Some cpu1
        else fetch_execute rnd cpu1
    | None => fetch_execute rnd cpu
    end
  else fetch_execute rnd cpu.

(** ** The timer subsystem *)

(** One pass through the body of the [while] loop of [update_time], after
    the accumulator has been reduced: the timers count down and the speaker
    handler, when present, is called with 0 or 1.  The calls are returned. *)
Definition tick (cpu : machine_t) : machine_t * list Z :=
  let cpu1 := if dt cpu >? 0 then set_dt cpu (dt cpu - 1) else cpu in
  if st cpu1 >? 0 then
    let cpu2 := set_st cpu1 (st cpu1 - 1) in
    if (st cpu2 =? 0) && speaker cpu2 then (cpu2, [0])
    else if speaker cpu2 then (cpu2, [1])
    else (cpu2, [])
  else (cpu1, []).

(** [while (global_delta > (1000 / 60)) { global_delta -= (1000 / 60); ... }]
    with a bound on the number of iterations; [None] means the bound was
    reached with the loop condition still true.  [global_delta] is the [int]
    value [update_time] hands over; the loop only ever subtracts 16 from a
    value above 16, which stays an [int]. *)
Fixpoint time_loop (fuel : nat) (cpu : machine_t) (global_delta : Z)
  (calls : list Z) : option (machine_t * Z * list Z) :=
  if global_delta >? 1000 / 60 then
    match fuel with
    | O => None
    | S fuel' =>
        let '(cpu', out) := tick cpu in
        time_loop fuel' cpu' (global_delta - 1000 / 60) (calls ++ out)
    end
  else Some (cpu, global_delta, calls).

(** [update_time]: the static accumulator [global_delta] is passed in and
    returned together with the machine and the speaker calls made.
    [global_delta += delta] is an addition of two [int]s: the sum is kept to
    32 bits by [to_int].  The loop subtracts 16 from a value above 16 each
    time, so as many iterations as the accumulator holds milliseconds always
    suffice ([time_loop_total] below); the fallback branch is never taken. *)
Definition update_time (cpu : machine_t) (global_delta delta : Z)
  : machine_t * Z * list Z :=
  let g := to_int (global_delta + delta) in
  match time_loop (Z.to_nat g) cpu g [] with
  | Some r => r
  | None => (cpu, g, [])
  end.

(** ** Initialisation *)

Definition hexcodes : list Z :=
  [ 0xF0; 0x90; 0x90; 0x90; 0xF0;
    0x20; 0x60; 0x20; 0x20; 0x70;
    0xF0; 0x10; 0xF0; 0x80; 0xF0;
    0xF0; 0x10; 0xF0; 0x10; 0xF0;
    0x90; 0x90; 0xF0; 0x10; 0x10;
    0xF0; 0x80; 0xF0; 0x10; 0xF0;
    0xF0; 0x80; 0xF0; 0x90; 0xF0;
    0xF0; 0x10; 0x20; 0x40; 0x40;
    0xF0; 0x90; 0xF0; 0x90; 0xF0;
    0xF0; 0x90; 0xF0; 0x10; 0xF0;
    0xF0; 0x90; 0xF0; 0x90; 0x90;
    0xE0; 0x90; 0xE0; 0x90; 0xE0;
    0xF0; 0x80; 0x80; 0x80; 0xF0;
    0xE0; 0x90; 0x90; 0x90; 0xE0;
    0xF0; 0x80; 0xF0; 0x80; 0xF0;
    0xF0; 0x80; 0xF0; 0x80; 0x80 ].

(** [init_machine]: everything zero (both function pointers null), the font
    at 0x50, [pc = 0x200], not waiting; the second component is
    [global_delta = 0]. *)
Definition init_machine : machine_t * Z :=
  (Machine (replicate 0x50 0 ++ hexcodes ++ replicate (4096 - 0x50 - 80) 0)
           0x200 (replicate 16 0) 0 (replicate 16 0) 0 0 0
           (replicate 2048 0) (-1) None false,
   0).

(** The machine with the program image [rom] (at most 3584 bytes) placed at
    0x200, where the ROM loader of the host puts it. *)
Definition with_program (rom : list Z) (cpu : machine_t) : machine_t :=
  set_mem cpu (take 0x200 (mem cpu) ++ rom
               ++ drop (0x200 + length rom) (mem cpu)).

(** The size constraints the C array types impose on the lists. *)
Definition wf_machine (cpu : machine_t) : Prop :=
  length (mem cpu) = 4096%nat /\ length (stack cpu) = 16%nat /\
  length (v cpu) = 16%nat /\ length (screen cpu) = 2048%nat.

Definition wf_machineb (cpu : machine_t) : bool :=
  Nat.eqb (length (mem cpu)) 4096 && Nat.eqb (length (stack cpu)) 16 &&
  Nat.eqb (length (v cpu)) 16 && Nat.eqb (length (screen cpu)) 2048.


(** ** Vocabulary of the properties *)

(** The value of register [n] (0 for an index that names no register). *)
Definition reg (cpu : machine_t) (n : Z) : Z := default 0 (aget (v cpu) n).

(** The condition under which a skip opcode of family 3, 4, 5 or 9 skips:
    register equal / not equal to the byte operand, two registers equal /
    not equal. *)
Definition skip_condition (cpu : machine_t) (opcode : Z) : bool :=
  let vx := reg cpu (OPCODE_X opcode) in
  let vy := reg cpu (OPCODE_Y opcode) in
  if OPCODE_P opcode =? 3 then vx =? OPCODE_KK opcode
  else if OPCODE_P opcode =? 4 then negb (vx =? OPCODE_KK opcode)
  else if OPCODE_P opcode =? 5 then vx =? vy
  else negb (vx =? vy).

Definition is_skip_family (opcode : Z) : bool :=
  (OPCODE_P opcode =? 3) || (OPCODE_P opcode =? 4) ||
  (OPCODE_P opcode =? 5) || (OPCODE_P opcode =? 9).

(** Machines used as concrete inputs: a freshly initialised machine with a
    program at 0x200, and the same with chosen register contents. *)
Definition boot (rom : list Z) : machine_t := with_program rom (fst init_machine).

Definition with_regs (regs : list Z) (cpu : machine_t) : machine_t :=
  set_v cpu (regs ++ drop (length regs) (v cpu)).

(** [n] timer ticks in a row, with the speaker calls they make. *)
Fixpoint ticks (n : nat) (cpu : machine_t) : machine_t * list Z :=
  match n with
  | O => (cpu, [])
  | S n' =>
      let '(cpu1, out1) := tick cpu in
      let '(cpu2, out2) := ticks n' cpu1 in
      (cpu2, out1 ++ out2)
  end.

Definition set_keydown (cpu : machine_t) (poll : option (Z -> Z)) : machine_t :=
  Machine (mem cpu) (pc cpu) (stack cpu) (sp cpu) (v cpu) (i cpu) (dt cpu)
          (st cpu) (screen cpu) (wait_key cpu) poll (speaker cpu).

(** A keyboard on which exactly key [k] is held down. *)
Definition only_key (k : Z) : Z -> Z := fun n => b2i (n =? k).

(** FX0A, the one opcode that enters the key-wait state. *)
Definition is_FX0A (opcode : Z) : bool :=
  (OPCODE_P opcode =? 0xF) && (OPCODE_KK opcode =? 0x0A).

(** The control part of the state: program counter, stack pointer, call
    stack and address register. *)
Definition ctl (cpu : machine_t) : Z * Z * list Z * Z :=
  (pc cpu, sp cpu, stack cpu, i cpu).

(** The state invariant of the data model: program counter within the
    address space, at most 16 active frames, every active frame a saved
    program counter within the address space. *)
Definition ctl_inv (cpu : machine_t) : Prop :=
  0 <= pc cpu <= 0xFFF /\ 0 <= sp cpu <= 16 /\
  forall k ret, 0 <= k < sp cpu -> aget (stack cpu) k = Some ret ->
                0 <= ret <= 0xFFF.

(** FX1E, the one opcode that adds to the address register. *)
Definition is_FX1E (opcode : Z) : bool :=
  (OPCODE_P opcode =? 0xF) && (OPCODE_KK opcode =? 0x1E).

(** ANNN and FX29, the two opcodes that assign the address register. *)
Definition is_ANNN (opcode : Z) : bool := OPCODE_P opcode =? 0xA.
Definition is_FX29 (opcode : Z) : bool :=
  (OPCODE_P opcode =? 0xF) && (OPCODE_KK opcode =? 0x29).

(** ** Memory indices computed from the address register *)

(** An index that references one of the 4096 memory bytes. *)
Definition in_memory (n : Z) : Prop := 0 <= n <= 0xFFF.

(** [cpu->i + j] for [j < N], the sprite fetch of DXYN. *)
Definition sprite_indices (cpu : machine_t) (opcode : Z) : list Z :=
  map (fun row => i cpu + row) (seqZ 0 (OPCODE_N opcode)).

(** [cpu->i + 2], [cpu->i + 1], [cpu->i], the BCD store of FX33. *)
Definition bcd_indices (cpu : machine_t) : list Z :=
  [i cpu + 2; i cpu + 1; i cpu].

(** [cpu->i + reg] for [reg <= X], the bulk transfers FX55 and FX65. *)
Definition bulk_indices (cpu : machine_t) (opcode : Z) : list Z :=
  map (fun reg => i cpu + reg) (seqZ 0 (OPCODE_X opcode + 1)).

(** What the draw loops keep fixed: array sizes, memory, address
    register. *)
Definition draw_inv (cpu0 cpu : machine_t) : Prop :=
  length (v cpu) = 16%nat /\ length (screen cpu) = 2048%nat /\
  mem cpu = mem cpu0 /\ i cpu = i cpu0.

(** The same machine with a different entry in the wait state. *)
Definition waiting_for (w : Z) (cpu : machine_t) : machine_t :=
  set_wait_key cpu w.

(** What the bulk transfers keep fixed. *)
Definition store_inv (cpu0 cpu : machine_t) : Prop :=
  length (v cpu) = 16%nat /\ length (mem cpu) = 4096%nat /\ i cpu = i cpu0.

Definition load_inv (cpu0 cpu : machine_t) : Prop :=
  length (v cpu) = 16%nat /\ mem cpu = mem cpu0 /\ i cpu = i cpu0.

(** ** The sprite draw as a list of pixel updates *)

(** Screen position and sprite bit of row [row], column [col], as DXYN
    computes them from the coordinate values [vx], [vy] and a sprite byte. *)
Definition pixel_pos (vx vy row col : Z) : Z :=
  64 * Z.land (vy + row) 31 + Z.land (vx + col) 63.

Definition pixel_bit (sprite col : Z) : Z :=
  b2i (negb (Z.land sprite (Z.shiftl 1 (7 - col)) =? 0)).

(** The memory byte at [a] and the screen cell at [p] (0 outside the
    array). *)
Definition memb (cpu : machine_t) (a : Z) : Z := default 0 (aget (mem cpu) a).
Definition cell (scr : list Z) (p : Z) : Z := default 0 (aget scr p).

(** The (position, bit) pairs of a DXYN draw, in the order of the two
    loops. *)
Definition sprite_pixels (cpu : machine_t) (opcode : Z) : list (Z * Z) :=
  row ← seqZ 0 (OPCODE_N opcode);
  (fun col => (pixel_pos (reg cpu (OPCODE_X opcode)) (reg cpu (OPCODE_Y opcode))
                         row col,
               pixel_bit (memb cpu (i cpu + row)) col)) <$> seqZ 0 8.

(** One pixel update on the pair (collision flag, screen): the statements
    [v[15] |= screen[pos] & pixel; screen[pos] ^= pixel]. *)
Definition plot1 (pb : Z * Z) (st : Z * list Z) : Z * list Z :=
  let c := cell (snd st) (fst pb) in
  (to_byte (Z.lor (fst st) (Z.land c (snd pb))),
   <[Z.to_nat (fst pb) := Z.lxor c (snd pb)]> (snd st)).

Fixpoint plot (ps : list (Z * Z)) (st : Z * list Z) : Z * list Z :=
  match ps with
  | [] => st
  | pb :: ps' => plot ps' (plot1 pb st)
  end.

(** The machine [cpu0] with collision flag and screen replaced. *)
Definition drawn (cpu0 : machine_t) (st : Z * list Z) : machine_t :=
  set_screen (set_v cpu0 (<[15%nat := fst st]> (v cpu0))) (snd st).

Definition natpos (pb : Z * Z) : nat := Z.to_nat (fst pb).

(** A pixel update that meets a lit screen cell. *)
Definition hits (scr : list Z) (pb : Z * Z) : bool :=
  negb (Z.land (cell scr (fst pb)) (snd pb) =? 0).

(** * The host side (chip8.c) *)

(** ** Characters *)

(** A value stored into a plain [char]: the conversion depends on whether
    the platform's [char] is signed, which the functions below take as the
    parameter [signed]. *)
Definition to_char (signed : bool) (z : Z) : Z :=
  if signed then (z + 128) mod 256 - 128 else z mod 256.

(** [hex_to_bin]: the value of a hexadecimal digit, or the char -1.  The
    literals are the ASCII codes of '0', '9', 'A' and 'F'. *)
Definition hex_to_bin (signed : bool) (hex : Z) : Z :=
  if (hex >=? 48) && (hex <=? 57) then to_char signed (hex - 48)
  else
    let hex := to_char signed (Z.land hex 0xDF) in
    if (hex >=? 65) && (hex <=? 70) then to_char signed (10 + (hex - 65))
    else to_char signed (-1).

(** ** Loaders *)

(** The loop of [load_hex] over the characters of the file, two at a time
    (a last odd character is never looked at).  The result is the return
    status, 1 for an invalid character and 0 otherwise, with the machine as
    the loop leaves it. *)
Fixpoint load_hex_loop (signed : bool) (hexfile : list Z) (mempos : Z)
  (machine : machine_t) : option (Z * machine_t) :=
  match hexfile with
  | hi :: lo :: rest =>
      let hi_b := hex_to_bin signed hi in
      let lo_b := hex_to_bin signed lo in
      if (hi_b =? -1) || (lo_b =? -1) then Some (1, machine)
      else
        machine' ← write_mem machine mempos (Z.lor (Z.shiftl hi_b 4) lo_b);
        let mempos' := mempos + 1 in
        if mempos' >? 0xFFF then Some (0, machine')
        else load_hex_loop signed rest mempos' machine'
  | _ => Some (0, machine)
  end.

(** [load_hex] on the content of a file that could be opened and read. *)
Definition load_hex (signed : bool) (hexfile : list Z) (machine : machine_t)
  : option (Z * machine_t) :=
  load_hex_loop signed hexfile 0x200 machine.

(** [load_rom] on the content of a file that could be opened: status 1 and
    an untouched machine for more than 3584 bytes, otherwise the bytes are
    read to [mem + 0x200]. *)
Definition load_rom (file : list Z) (machine : machine_t) : Z * machine_t :=
  if Z.of_nat (length file) >? 3584 then (1, machine)
  else (0, with_program file machine).

(** ** Runs *)

(** What the host does to a machine between two frames: Step calls, each
    with the value its [rand()] would return, and Timer-tick calls, each with
    its elapsed milliseconds. *)
Inductive event : Type :=
  | Step (rnd : Z)
  | Tick (delta : Z).

Definition run_event (e : event) (s : machine_t * Z)
  : option (machine_t * Z) :=
  match e with
  | Step rnd => cpu' ← step_machine rnd (fst s); Some (cpu', snd s)
  | Tick delta =>
      let '(cpu', g', _) := update_time (fst s) (snd s) delta in
      Some (cpu', g')
  end.

Fixpoint run (es : list event) (s : machine_t * Z) : option (machine_t * Z) :=
  match es with
  | [] => Some s
  | e :: es' => s' ← run_event e s; run es' s'
  end.

(** ** More vocabulary *)

(** A byte value. *)
Definition is_byte (z : Z) : Prop := 0 <= z <= 255.

(** A well-formed machine whose registers hold bytes. *)
Definition byte_regs (cpu : machine_t) : Prop :=
  Forall is_byte (v cpu).

(** A framebuffer cell value. *)
Definition is_bit (c : Z) : Prop := c = 0 \/ c = 1.

(** The ranges of the C field types, and what the code keeps of them: the
    arrays have their declared sizes, memory cells, registers and timers are
    bytes, the address register is a 16-bit value, every framebuffer cell is
    0 or 1, and the wait state is -1 or names a register. *)
Definition data_inv (cpu : machine_t) : Prop :=
  wf_machine cpu /\
  Forall is_byte (mem cpu) /\ Forall is_byte (v cpu) /\
  is_byte (dt cpu) /\ is_byte (st cpu) /\
  0 <= i cpu <= 0xFFFF /\
  Forall is_bit (screen cpu) /\
  -1 <= wait_key cpu <= 15.

(** The opcodes of families 0, 8, E and F that select no operation. *)
Definition is_undefined (opcode : Z) : bool :=
  let p := OPCODE_P opcode in
  let n := OPCODE_N opcode in
  let kk := OPCODE_KK opcode in
  ((p =? 0) && negb (opcode =? 0x00E0) && negb (opcode =? 0x00EE)) ||
  ((p =? 8) && (7 <? n) && negb (n =? 0xE)) ||
  ((p =? 0xE) && negb (kk =? 0x9E) && negb (kk =? 0xA1)) ||
  ((p =? 0xF) &&
   negb (existsb (Z.eqb kk) [0x07; 0x0A; 0x15; 0x18; 0x1E; 0x29; 0x33; 0x55; 0x65])).

(** The value of the character code [hex] read as a hexadecimal digit, in
    either case, and -1 for any other character. *)
Definition hex_value (hex : Z) : Z :=
  if (48 <=? hex) && (hex <=? 57) then hex - 48
  else if (65 <=? hex) && (hex <=? 70) then hex - 55
  else if (97 <=? hex) && (hex <=? 102) then hex - 87
  else -1.

(** The character pairs a hex file is read as, and the byte a pair of
    digits denotes. *)
Fixpoint hex_pairs (hexfile : list Z) : list (Z * Z) :=
  match hexfile with
  | hi :: lo :: rest => (hi, lo) :: hex_pairs rest
  | _ => []
  end.

Definition pair_valid (p : Z * Z) : Prop :=
  hex_value (fst p) <> -1 /\ hex_value (snd p) <> -1.

Definition pair_byte (p : Z * Z) : Z :=
  16 * hex_value (fst p) + hex_value (snd p).

Definition hex_bytes (hexfile : list Z) : list Z :=
  pair_byte <$> hex_pairs hexfile.

(** A value a [char] can hold, signed or not. *)
Definition is_char (c : Z) : Prop := -128 <= c <= 255.

(** The font table is where [init_machine] put it. *)
Definition font_intact (cpu : machine_t) : Prop :=
  forall k, 0 <= k < 80 ->
    aget (mem cpu) (0x50 + k) = hexcodes !! Z.to_nat k.

(** The number of ticks a Timer-tick call performs when the accumulator,
    elapsed time included, holds [g] milliseconds. *)
Definition tick_count (g : Z) : nat := Z.to_nat ((g - 1) / (1000 / 60)).

(** The host's set-up after [init_machine]: the key-poll and speaker
    function pointers are filled in. *)
Definition install (poll : option (Z -> Z)) (spk : bool) (cpu : machine_t)
  : machine_t :=
  Machine (mem cpu) (pc cpu) (stack cpu) (sp cpu) (v cpu) (i cpu) (dt cpu)
          (st cpu) (screen cpu) (wait_key cpu) poll spk.

(** The machine as [main] has it when the emulation loop starts:
    initialised, the two function pointers filled in, the program image
    read in at 0x200. *)
Definition power_on (rom : list Z) (poll : option (Z -> Z)) (spk : bool)
  : machine_t :=
  with_program rom (install poll spk (fst init_machine)).
(** * Properties *)

Example init_wf : wf_machineb (fst init_machine) = true.
Proof. vm_compute. reflexivity. Qed.

Example end_to_end :
  let cpu := boot [0x60; 0x05; 0x61; 0x03; 0x80; 0x14; 0x00; 0xEE] in
  option_map (fun c => (aget (v c) 0, aget (v c) 0xF, pc c))
    (for_each [0; 0; 0; 0] step_machine cpu)
  = Some (Some 8, Some 0, 0x208).
Proof. vm_compute. reflexivity. Qed.

(** ** Arrays and opcode fields *)

Lemma aget_Some_range (a : list Z) (n x : Z) :
  aget a n = Some x -> 0 <= n < Z.of_nat (length a).
Proof.
  unfold aget. destruct (Z.leb_spec 0 n) as [Hn|Hn]; [|discriminate].
  intros H. apply lookup_lt_Some in H. lia.
Qed.

Lemma aget_in_range (a : list Z) (n : Z) :
  0 <= n < Z.of_nat (length a) -> exists x, aget a n = Some x.
Proof.
  intros [H0 H1]. unfold aget.
  destruct (Z.leb_spec 0 n); [|lia].
  destruct (lookup_lt_is_Some_2 a (Z.to_nat n)) as [x Hx]; [lia|eauto].
Qed.

Lemma aget_None_iff (a : list Z) (n : Z) :
  aget a n = None <-> ~ (0 <= n < Z.of_nat (length a)).
Proof.
  split.
  - intros H Hr. destruct (aget_in_range a n Hr) as [x Hx]. congruence.
  - intros H. destruct (aget a n) as [x|] eqn:E; [|reflexivity].
    apply aget_Some_range in E. contradiction.
Qed.

Lemma aset_in_range (a : list Z) (n x : Z) :
  0 <= n < Z.of_nat (length a) -> aset a n x = Some (<[Z.to_nat n := x]> a).
Proof.
  intros [H0 H1]. unfold aset.
  destruct (Z.leb_spec 0 n); [|lia].
  destruct (Z.ltb_spec n (Z.of_nat (length a))); [reflexivity|lia].
Qed.

Lemma aset_Some_inv (a a' : list Z) (n x : Z) :
  aset a n x = Some a' ->
  0 <= n < Z.of_nat (length a) /\ a' = <[Z.to_nat n := x]> a.
Proof.
  unfold aset.
  destruct (Z.leb_spec 0 n) as [H0|H0];
    destruct (Z.ltb_spec n (Z.of_nat (length a))) as [H1|H1];
    simpl; intros E; inversion E; subst; split; try lia; reflexivity.
Qed.

Lemma aset_None_iff (a : list Z) (n x : Z) :
  aset a n x = None <-> ~ (0 <= n < Z.of_nat (length a)).
Proof.
  split.
  - intros H Hr. rewrite aset_in_range in H by exact Hr. discriminate.
  - intros H. destruct (aset a n x) as [a'|] eqn:E; [|reflexivity].
    apply aset_Some_inv in E. tauto.
Qed.

Lemma aset_length (a a' : list Z) (n x : Z) :
  aset a n x = Some a' -> length a' = length a.
Proof.
  intros H. apply aset_Some_inv in H as [_ ->]. apply length_insert.
Qed.

Lemma aget_aset_eq (a a' : list Z) (n x : Z) :
  aset a n x = Some a' -> aget a' n = Some x.
Proof.
  intros H. apply aset_Some_inv in H as [[H0 H1] ->]. unfold aget.
  destruct (Z.leb_spec 0 n); [|lia].
  apply list_lookup_insert_eq. lia.
Qed.

Lemma aget_aset_ne (a a' : list Z) (n m x : Z) :
  aset a n x = Some a' -> n <> m -> aget a' m = aget a m.
Proof.
  intros H Hne. apply aset_Some_inv in H as [[H0 H1] ->]. unfold aget.
  destruct (Z.leb_spec 0 m); [|reflexivity].
  apply list_lookup_insert_ne. lia.
Qed.

Lemma land_0xF (a : Z) : Z.land a 0xF = a mod 16.
Proof. change 0xF with (Z.ones 4). rewrite Z.land_ones by lia. reflexivity. Qed.

Lemma land_0xFF (a : Z) : Z.land a 0xFF = a mod 256.
Proof. change 0xFF with (Z.ones 8). rewrite Z.land_ones by lia. reflexivity. Qed.

Lemma land_0xFFF (a : Z) : Z.land a 0xFFF = a mod 4096.
Proof. change 0xFFF with (Z.ones 12). rewrite Z.land_ones by lia. reflexivity. Qed.

Lemma OPCODE_X_range (opcode : Z) : 0 <= OPCODE_X opcode <= 15.
Proof.
  unfold OPCODE_X. rewrite land_0xF.
  pose proof (Z.mod_pos_bound (Z.shiftr opcode 8) 16). lia.
Qed.

Lemma OPCODE_Y_range (opcode : Z) : 0 <= OPCODE_Y opcode <= 15.
Proof.
  unfold OPCODE_Y. rewrite land_0xF.
  pose proof (Z.mod_pos_bound (Z.shiftr opcode 4) 16). lia.
Qed.

Lemma OPCODE_N_range (opcode : Z) : 0 <= OPCODE_N opcode <= 15.
Proof.
  unfold OPCODE_N. rewrite land_0xF.
  pose proof (Z.mod_pos_bound opcode 16). lia.
Qed.

Lemma OPCODE_NNN_range (opcode : Z) : 0 <= OPCODE_NNN opcode <= 0xFFF.
Proof.
  unfold OPCODE_NNN. rewrite land_0xFFF.
  pose proof (Z.mod_pos_bound opcode 4096). lia.
Qed.

(** A register index taken from an opcode always names one of the 16
    registers. *)
Lemma reg_read (cpu : machine_t) (n : Z) :
  length (v cpu) = 16%nat -> 0 <= n <= 15 -> exists x, aget (v cpu) n = Some x.
Proof. intros Hl Hn. apply aget_in_range. lia. Qed.

Lemma write_v_in_range (cpu : machine_t) (n x : Z) :
  length (v cpu) = 16%nat -> 0 <= n <= 15 ->
  write_v cpu n x = Some (set_v cpu (<[Z.to_nat n := to_byte x]> (v cpu))).
Proof.
  intros Hl Hn. unfold write_v. rewrite aset_in_range by lia. reflexivity.
Qed.

(** ** Call-stack overflow and underflow *)

(** C7: the CALL handler run with [sp = 16] and the RET handler run with
    [sp = 0] return the machine exactly as it was: program counter, stack,
    stack pointer, registers, memory and framebuffer are all unchanged. *)
Theorem call_full_ret_empty_noop (cpu : machine_t) (opcode : Z) :
  (sp cpu = 16 -> nibble_2 cpu opcode = Some cpu) /\
  (sp cpu = 0 -> nibble_0 cpu 0x00EE = Some cpu).
Proof.
  split; intros Hsp.
  - unfold nibble_2. rewrite Hsp. reflexivity.
  - unfold nibble_0. rewrite Hsp. reflexivity.
Qed.

Lemma call_full_ret_empty_noop_witness :
  nibble_2 (set_sp (boot []) 16) 0x2ABC = Some (set_sp (boot []) 16) /\
  nibble_0 (boot []) 0x00EE = Some (boot []).
Proof.
  split.
  - apply (proj1 (call_full_ret_empty_noop (set_sp (boot []) 16) 0x2ABC)).
    reflexivity.
  - apply (proj2 (call_full_ret_empty_noop (boot []) 0)). reflexivity.
Defined.

(** ** Skip instructions *)

Lemma skip_twice (p : Z) :
  Z.land (Z.land (p + 2) 0xFFF + 2) 0xFFF = (p + 4) mod 0x1000.
Proof.
  rewrite !land_0xFFF. rewrite Zplus_mod_idemp_l. f_equal. lia.
Qed.

Lemma dispatch_skip_family (rnd : Z) (opcode : Z) :
  is_skip_family opcode = true ->
  exists h, nibbles rnd !! Z.to_nat (OPCODE_P opcode) = Some h /\
    forall cpu, length (v cpu) = 16%nat ->
      h cpu opcode = Some (if skip_condition cpu opcode then skip cpu else cpu).
Proof.
  unfold is_skip_family, skip_condition. intros H.
  assert (Hreg : forall cpu n, length (v cpu) = 16%nat -> 0 <= n <= 15 ->
            aget (v cpu) n = Some (reg cpu n)).
  { intros cpu n Hl Hn. unfold reg.
    destruct (reg_read cpu n Hl Hn) as [x ->]. reflexivity. }
  pose proof (OPCODE_X_range opcode) as HX.
  pose proof (OPCODE_Y_range opcode) as HY.
  destruct (Z.eqb_spec (OPCODE_P opcode) 3) as [E|N3].
  { rewrite E. eexists. split; [reflexivity|]. intros cpu Hl.
    unfold nibble_3. rewrite (Hreg cpu _ Hl HX). simpl.
    destruct (reg cpu _ =? _); reflexivity. }
  destruct (Z.eqb_spec (OPCODE_P opcode) 4) as [E|N4].
  { rewrite E. eexists. split; [reflexivity|]. intros cpu Hl.
    unfold nibble_4. rewrite (Hreg cpu _ Hl HX). simpl.
    destruct (reg cpu _ =? _); reflexivity. }
  destruct (Z.eqb_spec (OPCODE_P opcode) 5) as [E|N5].
  { rewrite E. eexists. split; [reflexivity|]. intros cpu Hl.
    unfold nibble_5. rewrite (Hreg cpu _ Hl HX), (Hreg cpu _ Hl HY). simpl.
    destruct (reg cpu _ =? _); reflexivity. }
  destruct (Z.eqb_spec (OPCODE_P opcode) 9) as [E|N9]; [|discriminate].
  rewrite E. eexists. split; [reflexivity|]. intros cpu Hl.
  unfold nibble_9. rewrite (Hreg cpu _ Hl HX), (Hreg cpu _ Hl HY). simpl.
  destruct (reg cpu _ =? _); reflexivity.
Qed.

(** C6: in the Running state, a Step that fetches a skip opcode of family
    3, 4, 5 or 9 changes nothing but the program counter, which advances by
    4 (modulo 0x1000) when the skip condition holds and by 2 (modulo 0x1000)
    when it does not. *)
Theorem skip_advances_pc (rnd : Z) (cpu : machine_t) (opcode : Z) :
  wf_machine cpu ->
  wait_key cpu = -1 ->
  fetch cpu = Some opcode ->
  is_skip_family opcode = true ->
  step_machine rnd cpu =
    Some (set_pc cpu ((pc cpu + (if skip_condition cpu opcode then 4 else 2))
                      mod 0x1000)).
Proof.
  intros (_ & _ & Hv & _) Hw Hf Hs.
  unfold step_machine. rewrite Hw. simpl.
  unfold fetch_execute. rewrite Hf. simpl.
  destruct (dispatch_skip_family rnd opcode Hs) as (h & -> & Hh). simpl.
  rewrite Hh by exact Hv.
  assert (Hc : skip_condition (set_pc cpu (Z.land (pc cpu + 2) 0xFFF)) opcode
               = skip_condition cpu opcode) by reflexivity.
  rewrite Hc. destruct (skip_condition cpu opcode).
  - unfold skip, set_pc. simpl. rewrite skip_twice. reflexivity.
  - rewrite land_0xFFF. reflexivity.
Qed.

Lemma skip_advances_pc_witness :
  step_machine 0 (boot [0x30; 0x00]) = Some (set_pc (boot [0x30; 0x00]) 0x204)
  /\ step_machine 0 (boot [0x40; 0x00])
     = Some (set_pc (boot [0x40; 0x00]) 0x202).
Proof.
  split.
  - apply (skip_advances_pc 0 (boot [0x30; 0x00]) 0x3000).
    + repeat split.
    + reflexivity.
    + reflexivity.
    + reflexivity.
  - apply (skip_advances_pc 0 (boot [0x40; 0x00]) 0x4000).
    + repeat split.
    + reflexivity.
    + reflexivity.
    + reflexivity.
Defined.

(** ** 8XY4: addition with carry *)

Lemma carry_test (a b : Z) :
  0 <= a < 256 -> 0 <= b < 256 ->
  (a >? Z.land (a + b) 0xFF) = (a + b >? 255).
Proof.
  intros Ha Hb. rewrite land_0xFF.
  destruct (Z.gtb_spec (a + b) 255) as [H|H].
  - replace ((a + b) mod 256) with (a + b - 256).
    + destruct (Z.gtb_spec a (a + b - 256)); [reflexivity|lia].
    + apply Z.mod_unique with (q := 1); lia.
  - rewrite Z.mod_small by lia.
    destruct (Z.gtb_spec a (a + b)); [lia|reflexivity].
Qed.

Lemma to_byte_b2i (c : bool) : to_byte (b2i c) = b2i c.
Proof. destruct c; reflexivity. Qed.

Lemma set_v_v (cpu : machine_t) (l : list Z) : v (set_v cpu l) = l.
Proof. reflexivity. Qed.

Lemma write_v_read_eq (cpu cpu' : machine_t) (n x : Z) :
  write_v cpu n x = Some cpu' -> aget (v cpu') n = Some (to_byte x).
Proof.
  unfold write_v. destruct (aset (v cpu) n (to_byte x)) as [l|] eqn:E;
    simpl; intros H; inversion H; subst.
  rewrite set_v_v. eapply aget_aset_eq; eauto.
Qed.

Lemma write_v_read_ne (cpu cpu' : machine_t) (n m x : Z) :
  write_v cpu n x = Some cpu' -> n <> m -> aget (v cpu') m = aget (v cpu) m.
Proof.
  unfold write_v. destruct (aset (v cpu) n (to_byte x)) as [l|] eqn:E;
    simpl; intros H Hne; inversion H; subst.
  rewrite set_v_v. eapply aget_aset_ne; eauto.
Qed.

Lemma write_v_length (cpu cpu' : machine_t) (n x : Z) :
  write_v cpu n x = Some cpu' -> length (v cpu') = length (v cpu).
Proof.
  unfold write_v. destruct (aset (v cpu) n (to_byte x)) as [l|] eqn:E;
    simpl; intros H; inversion H; subst.
  rewrite set_v_v. eapply aset_length; eauto.
Qed.

Lemma write_v_defined (cpu : machine_t) (n x : Z) :
  length (v cpu) = 16%nat -> 0 <= n <= 15 ->
  exists cpu', write_v cpu n x = Some cpu'.
Proof. intros Hl Hn. rewrite write_v_in_range by assumption. eauto. Qed.

(** C2, as the code has it: for a destination register X other than 0xF,
    8XY4 leaves in register 0xF the carry of the pre-addition operands
    (1 when a+b > 255, 0 otherwise) whatever Y is, and, when Y is not 0xF
    either (X = Y allowed), leaves (a+b) mod 256 in register X. *)
Theorem add_sets_carry_and_sum (cpu : machine_t) (opcode a b : Z) :
  length (v cpu) = 16%nat ->
  OPCODE_N opcode = 4 ->
  aget (v cpu) (OPCODE_X opcode) = Some a ->
  aget (v cpu) (OPCODE_Y opcode) = Some b ->
  0 <= a < 256 -> 0 <= b < 256 ->
  OPCODE_X opcode <> 0xF ->
  exists cpu',
    nibble_8 cpu opcode = Some cpu' /\
    aget (v cpu') 0xF = Some (b2i (a + b >? 255)) /\
    (OPCODE_Y opcode <> 0xF ->
     aget (v cpu') (OPCODE_X opcode) = Some ((a + b) mod 256)).
Proof.
  intros Hl HN Hx Hy Ha Hb HXF.
  pose proof (OPCODE_X_range opcode) as HX.
  unfold nibble_8. rewrite HN. simpl. rewrite Hx, Hy. simpl.
  rewrite carry_test by assumption.
  destruct (write_v_defined cpu 0xF (b2i (a + b >? 255)) Hl ltac:(lia))
    as [cpu1 H1].
  rewrite H1. simpl.
  assert (Hx1 : aget (v cpu1) (OPCODE_X opcode) = Some a).
  { rewrite (write_v_read_ne _ _ _ _ _ H1) by congruence. exact Hx. }
  assert (Hl1 : length (v cpu1) = 16%nat).
  { rewrite (write_v_length _ _ _ _ H1). exact Hl. }
  rewrite Hx1. simpl.
  destruct (reg_read cpu1 (OPCODE_Y opcode) Hl1 (OPCODE_Y_range opcode))
    as [b1 Hy1].
  rewrite Hy1. simpl.
  destruct (write_v_defined cpu1 (OPCODE_X opcode) (a + b1) Hl1 HX)
    as [cpu2 H2].
  exists cpu2. split; [exact H2|]. split.
  - rewrite (write_v_read_ne _ _ _ _ _ H2) by congruence.
    rewrite (write_v_read_eq _ _ _ _ H1), to_byte_b2i. reflexivity.
  - intros HYF.
    rewrite (write_v_read_ne _ _ _ _ _ H1) in Hy1 by congruence.
    assert (b1 = b) by congruence. subst b1.
    rewrite (write_v_read_eq _ _ _ _ H2). reflexivity.
Qed.

Lemma add_sets_carry_and_sum_witness :
  exists cpu',
    nibble_8 (with_regs [200; 100] (boot [])) 0x8014 = Some cpu' /\
    aget (v cpu') 0xF = Some 1 /\ aget (v cpu') 0 = Some 44.
Proof.
  destruct (add_sets_carry_and_sum (with_regs [200; 100] (boot [])) 0x8014
              200 100 eq_refl eq_refl eq_refl eq_refl
              ltac:(lia) ltac:(lia) ltac:(discriminate))
    as (cpu' & H1 & H2 & H3).
  exists cpu'. split; [exact H1|]. split; [exact H2|].
  apply H3. discriminate.
Defined.

(** C2 as stated fails when X is the flag register itself: with
    registers[0xF] = 3 and registers[0] = 4, opcode 8F04 leaves 4 in
    register 0xF, which is not (3+4) mod 256 = 7. *)
Lemma add_into_flag_register_counterexample :
  let cpu := with_regs [4; 0; 0; 0; 0; 0; 0; 0; 0; 0; 0; 0; 0; 0; 0; 3]
                       (boot []) in
  aget (v cpu) (OPCODE_X 0x8F04) = Some 3 /\
  aget (v cpu) (OPCODE_Y 0x8F04) = Some 4 /\
  exists cpu', nibble_8 cpu 0x8F04 = Some cpu' /\
    aget (v cpu') (OPCODE_X 0x8F04) = Some 4 /\
    aget (v cpu') (OPCODE_X 0x8F04) <> Some ((3 + 4) mod 256).
Proof.
  simpl. split; [reflexivity|]. split; [reflexivity|].
  eexists. split; [vm_compute; reflexivity|].
  split; [reflexivity|discriminate].
Qed.

(** The same opcode with the flag register as second operand adds the
    freshly written carry instead of the operand: 1 + 5 gives 1. *)
Example add_flag_operand :
  let cpu := with_regs [1; 0; 0; 0; 0; 0; 0; 0; 0; 0; 0; 0; 0; 0; 0; 5]
                       (boot []) in
  option_map (fun c => (aget (v c) 0, aget (v c) 0xF)) (nibble_8 cpu 0x80F4)
  = Some (Some 1, Some 0).
Proof. vm_compute. reflexivity. Qed.

(** ** The timer subsystem *)

Lemma period_is_16 : 1000 / 60 = 16.
Proof. reflexivity. Qed.

(** The loop ends: the bound chosen by [update_time] is never reached. *)
Lemma time_loop_total (fuel : nat) :
  forall cpu g calls, g <= Z.of_nat fuel ->
    exists r, time_loop fuel cpu g calls = Some r.
Proof.
  induction fuel as [|fuel IH]; intros cpu g calls Hg; simpl;
    rewrite period_is_16.
  - destruct (Z.gtb_spec g 16); [lia|eauto].
  - destruct (Z.gtb_spec g 16); [|eauto].
    destruct (tick cpu) as [cpu1 out]. apply IH. lia.
Qed.

(** A run of exactly [n] iterations. *)
Lemma time_loop_ticks (n : nat) :
  forall fuel cpu g calls,
    (n <= fuel)%nat ->
    g <= 16 * Z.of_nat n + 16 -> (n = 0%nat \/ 16 * Z.of_nat n < g) ->
    time_loop fuel cpu g calls =
      Some (fst (ticks n cpu), g - 16 * Z.of_nat n, calls ++ snd (ticks n cpu)).
Proof.
  induction n as [|n IH]; intros fuel cpu g calls Hf Hhi Hlo.
  - destruct fuel; simpl; rewrite period_is_16;
      (destruct (Z.gtb_spec g 16); [lia|]);
      rewrite app_nil_r; do 3 f_equal; lia.
  - destruct fuel as [|fuel]; [lia|].
    simpl. rewrite period_is_16.
    destruct (Z.gtb_spec g 16); [|lia].
    destruct (tick cpu) as [cpu1 out1] eqn:Et.
    rewrite (IH fuel cpu1 (g - 16) (calls ++ out1)) by lia.
    destruct (ticks n cpu1) as [cpu2 out2]. simpl.
    rewrite <- app_assoc. do 3 f_equal. lia.
Qed.

Lemma to_int_id (z : Z) : is_int z -> to_int z = z.
Proof.
  unfold is_int, to_int. intros Hz.
  rewrite Z.mod_small by lia. lia.
Qed.

Lemma to_int_range (z : Z) : is_int (to_int z).
Proof.
  unfold is_int, to_int.
  pose proof (Z.mod_pos_bound (z + 2147483648) 4294967296 ltac:(lia)). lia.
Qed.

(** The loop of [update_time], on the accumulator as the addition left
    it. *)
Lemma update_time_loop (n : nat) (cpu : machine_t) (global_delta delta : Z) :
  to_int (global_delta + delta) <= 16 * Z.of_nat n + 16 ->
  (n = 0%nat \/ 16 * Z.of_nat n < to_int (global_delta + delta)) ->
  update_time cpu global_delta delta =
    (fst (ticks n cpu), to_int (global_delta + delta) - 16 * Z.of_nat n,
     snd (ticks n cpu)).
Proof.
  intros Hhi Hlo. unfold update_time.
  rewrite (time_loop_ticks n) by lia. reflexivity.
Qed.

Lemma update_time_ticks (n : nat) (cpu : machine_t) (global_delta delta : Z) :
  is_int (global_delta + delta) ->
  global_delta + delta <= 16 * Z.of_nat n + 16 ->
  (n = 0%nat \/ 16 * Z.of_nat n < global_delta + delta) ->
  update_time cpu global_delta delta =
    (fst (ticks n cpu), global_delta + delta - 16 * Z.of_nat n,
     snd (ticks n cpu)).
Proof.
  intros Hint Hhi Hlo. rewrite <- (to_int_id _ Hint) in Hhi, Hlo |- * at 1.
  rewrite (update_time_loop n) by assumption.
  rewrite (to_int_id _ Hint). reflexivity.
Qed.

Lemma tick_timers (cpu : machine_t) :
  0 <= dt cpu -> 0 <= st cpu ->
  dt (fst (tick cpu)) = Z.max 0 (dt cpu - 1) /\
  st (fst (tick cpu)) = Z.max 0 (st cpu - 1).
Proof.
  intros Hd Hs. unfold tick.
  destruct (Z.gtb_spec (dt cpu) 0) as [D|D]; simpl;
    destruct (Z.gtb_spec (st cpu) 0) as [S|S]; simpl;
    repeat match goal with
           | |- context [if ?c then _ else _] => destruct c; simpl
           end; lia.
Qed.

Lemma ticks_timers (n : nat) :
  forall cpu, 0 <= dt cpu -> 0 <= st cpu ->
    dt (fst (ticks n cpu)) = Z.max 0 (dt cpu - Z.of_nat n) /\
    st (fst (ticks n cpu)) = Z.max 0 (st cpu - Z.of_nat n).
Proof.
  induction n as [|n IH]; intros cpu Hd Hs.
  - simpl. lia.
  - cbn [ticks]. pose proof (tick_timers cpu Hd Hs) as [Td Ts].
    destruct (tick cpu) as [cpu1 out1]. simpl in Td, Ts.
    specialize (IH cpu1 ltac:(lia) ltac:(lia)).
    destruct (ticks n cpu1) as [cpu2 out2]. simpl in *. lia.
Qed.

(** C3: at the input the claim names the code performs 62 ticks, not 60.
    The period it compares and subtracts is the C integer 1000/60 = 16 ms:
    from both timers at 100 and a zero accumulator, one Timer-tick call
    with 1000 ms is 62 ticks, leaves both timers at 38 where 60 ticks
    would leave 40, and keeps 8 ms in the accumulator.  The loop test is
    strict as well: an accumulator holding exactly one period performs no
    tick. *)
Theorem timer_1000ms_performs_62_ticks :
  let cpu := set_st (set_dt (boot []) 100) 100 in
  update_time cpu 0 1000 = (set_st (set_dt cpu 38) 38, 8, []) /\
  fst (fst (update_time cpu 0 1000)) = fst (ticks 62 cpu) /\
  dt (fst (fst (update_time cpu 0 1000))) <> dt cpu - 60 /\
  st (fst (fst (update_time cpu 0 1000))) <> st cpu - 60 /\
  update_time cpu 0 (1000 / 60) = (cpu, 16, []).
Proof.
  cbv zeta. split; [vm_compute; reflexivity|].
  split; [vm_compute; reflexivity|].
  split; [vm_compute; discriminate|].
  split; [vm_compute; discriminate|].
  vm_compute. reflexivity.
Qed.

(** ** The key-wait protocol *)

Lemma poll_keys_none (poll : Z -> Z) (keys : list Z) (cpu : machine_t) :
  (forall k, k ∈ keys -> poll k = 0) -> poll_keys poll keys cpu = Some cpu.
Proof.
  induction keys as [|k keys IH]; intros H; simpl; [reflexivity|].
  rewrite (H k) by (left; reflexivity). simpl.
  apply IH. intros j Hj. apply H. right. exact Hj.
Qed.

Lemma poll_keys_first (poll : Z -> Z) (pre post : list Z) (k : Z)
  (cpu : machine_t) :
  (forall j, j ∈ pre -> poll j = 0) -> poll k <> 0 ->
  poll_keys poll (pre ++ k :: post) cpu =
    (cpu1 ← write_v cpu (wait_key cpu) k; Some (set_wait_key cpu1 (-1))).
Proof.
  induction pre as [|j pre IH]; intros Hpre Hk; simpl.
  - destruct (Z.eqb_spec (poll k) 0); [contradiction|reflexivity].
  - rewrite (Hpre j) by (left; reflexivity). simpl.
    apply IH; [|exact Hk]. intros j' Hj'. apply Hpre. right. exact Hj'.
Qed.

Lemma keys_split (k : Z) :
  0 <= k <= 15 -> seqZ 0 16 = seqZ 0 k ++ k :: seqZ (k + 1) (15 - k).
Proof.
  intros Hk. replace 16 with (k + (16 - k)) at 1 by lia.
  rewrite seqZ_app by lia. f_equal.
  rewrite seqZ_cons by lia. f_equal. f_equal; lia.
Qed.

Lemma for_each_fixed {S : Type} (ks : list Z) (body : Z -> S -> option S)
  (s : S) :
  (forall k, body k s = Some s) -> for_each ks body s = Some s.
Proof.
  intros H. induction ks as [|k ks IH]; simpl; [reflexivity|].
  rewrite H. simpl. exact IH.
Qed.

Lemma fetch_execute_FX0A (rnd : Z) (cpu : machine_t) (opcode : Z) :
  fetch cpu = Some opcode -> is_FX0A opcode = true ->
  fetch_execute rnd cpu
  = Some (set_wait_key (set_pc cpu (Z.land (pc cpu + 2) 0xFFF))
                       (OPCODE_X opcode)).
Proof.
  intros Hf Hyes. unfold fetch_execute. rewrite Hf. cbn [mbind option_bind].
  unfold is_FX0A in Hyes. apply andb_true_iff in Hyes as [HP HK].
  apply Z.eqb_eq in HP. apply Z.eqb_eq in HK.
  rewrite HP. change (nibbles rnd !! Z.to_nat 15) with (Some nibble_F).
  cbn [mbind option_bind]. unfold nibble_F. rewrite HK. reflexivity.
Qed.

(** C1, as the code has it, with the key-poll capability present.  A Step
    call of the Running machine that fetches FX0A leaves the machine waiting
    for register X (the handler records X whatever the state it is called
    in).  For the machine waiting for register R: as long as keys 0-15 are
    all reported up, any number of Step calls return the machine unchanged;
    a Step call during which some key is reported down writes the lowest
    such key into register R, leaves the wait state, and then goes on, in
    that same call, to fetch and execute the instruction at the program
    counter. *)
Theorem key_wait_protocol (rnd : Z) (cpu : machine_t) (poll : Z -> Z) :
  keydown cpu = Some poll ->
  (forall opcode, OPCODE_KK opcode = 0x0A ->
     nibble_F cpu opcode = Some (set_wait_key cpu (OPCODE_X opcode))) /\
  (wait_key cpu = -1 ->
   forall opcode, fetch cpu = Some opcode -> is_FX0A opcode = true ->
     exists waiting,
       step_machine rnd cpu = Some waiting /\
       waiting = set_wait_key (set_pc cpu (Z.land (pc cpu + 2) 0xFFF))
                              (OPCODE_X opcode) /\
       wait_key waiting = OPCODE_X opcode /\ wait_key waiting <> -1 /\
       keydown waiting = Some poll) /\
  (wait_key cpu <> -1 ->
   (forall k, 0 <= k <= 15 -> poll k = 0) ->
     forall rnds, for_each rnds step_machine cpu = Some cpu) /\
  (wait_key cpu <> -1 ->
   forall k, 0 <= k <= 15 -> poll k <> 0 ->
     (forall j, 0 <= j < k -> poll j = 0) ->
     step_machine rnd cpu =
       (cpu1 ← write_v cpu (wait_key cpu) k;
        fetch_execute rnd (set_wait_key cpu1 (-1)))).
Proof.
  intros Hkd. split; [|split; [|split]].
  - intros opcode Hkk. unfold nibble_F. rewrite Hkk. reflexivity.
  - intros Hw opcode Hf Hyes.
    exists (set_wait_key (set_pc cpu (Z.land (pc cpu + 2) 0xFFF))
                         (OPCODE_X opcode)).
    split.
    + unfold step_machine. rewrite Hw. cbn [Z.eqb Pos.eqb negb].
      apply fetch_execute_FX0A; assumption.
    + split; [reflexivity|]. cbn [wait_key set_wait_key keydown set_pc].
      split; [reflexivity|]. split; [|exact Hkd].
      pose proof (OPCODE_X_range opcode). lia.
  - intros Hw Hup rnds. apply for_each_fixed. intros r.
    unfold step_machine. rewrite Hkd.
    destruct (Z.eqb_spec (wait_key cpu) (-1)); [contradiction|]. cbn [negb].
    rewrite poll_keys_none.
    + simpl. destruct (Z.eqb_spec (wait_key cpu) (-1)); [contradiction|].
      reflexivity.
    + intros k Hk. apply elem_of_seqZ in Hk. apply Hup. lia.
  - intros Hw k Hk Hdown Hlow.
    unfold step_machine. rewrite Hkd.
    destruct (Z.eqb_spec (wait_key cpu) (-1)); [contradiction|]. cbn [negb].
    rewrite (keys_split k Hk), poll_keys_first.
    + destruct (write_v cpu (wait_key cpu) k) as [cpu1|]; reflexivity.
    + intros j Hj. apply elem_of_seqZ in Hj. apply Hlow. lia.
    + exact Hdown.
Qed.

Lemma key_wait_protocol_witness :
  let running := set_keydown (boot [0xF2; 0x0A; 0x6A; 0x07])
                             (Some (only_key 3)) in
  let cpu := set_wait_key (set_pc running 0x202) 2 in
  (exists waiting,
     step_machine 0 running = Some waiting /\
     waiting = cpu /\
     wait_key waiting = OPCODE_X 0xF20A /\ wait_key waiting <> -1 /\
     keydown waiting = Some (only_key 3)) /\
  step_machine 0 cpu =
    (cpu1 ← write_v cpu (wait_key cpu) 3;
     fetch_execute 0 (set_wait_key cpu1 (-1))) /\
  let idle := set_keydown cpu (Some (fun _ => 0)) in
  for_each [0; 0; 0] step_machine idle = Some idle.
Proof.
  intros running cpu. split; [|split].
  - apply (proj1 (proj2 (key_wait_protocol 0 running (only_key 3) eq_refl))
             eq_refl 0xF20A); reflexivity.
  - apply (proj2 (proj2 (proj2 (key_wait_protocol 0 cpu (only_key 3)
                                  eq_refl)))).
    + discriminate.
    + lia.
    + discriminate.
    + intros j Hj. unfold only_key.
      destruct (Z.eqb_spec j 3); [lia|reflexivity].
  - intro idle.
    apply (proj1 (proj2 (proj2 (key_wait_protocol 0 idle (fun _ => 0)
                                  eq_refl)))).
    + discriminate.
    + reflexivity.
Defined.

(** C1 as stated fails on its last clause: with program F20A 6A07 and key 3
    held down, the Step call that sees the key writes 3 into register 2 and
    also fetches and executes 6A07 in that same call: the program counter
    moves from 0x202 to 0x204 and register 0xA receives 7. *)
Lemma key_wait_same_call_fetch_counterexample :
  let cpu := set_keydown (boot [0xF2; 0x0A; 0x6A; 0x07]) (Some (only_key 3)) in
  exists waiting resumed,
    step_machine 0 cpu = Some waiting /\
    wait_key waiting = 2 /\ pc waiting = 0x202 /\
    step_machine 0 waiting = Some resumed /\
    aget (v resumed) 2 = Some 3 /\ wait_key resumed = -1 /\
    pc resumed = 0x204 /\ aget (v resumed) 0xA = Some 7 /\
    resumed <> set_wait_key (set_v waiting (<[2%nat := 3]> (v waiting))) (-1).
Proof.
  simpl. eexists. eexists.
  split; [vm_compute; reflexivity|].
  split; [reflexivity|]. split; [reflexivity|].
  split; [vm_compute; reflexivity|].
  split; [reflexivity|]. split; [reflexivity|].
  split; [reflexivity|]. split; [reflexivity|].
  intros H. apply (f_equal pc) in H. vm_compute in H. discriminate.
Qed.

(** ** Handlers and the wait state *)

Ltac fields :=
  unfold write_v, write_mem, skip, set_mem, set_pc, set_stack, set_sp, set_v,
    set_i, set_dt, set_st, set_screen, set_wait_key, set_keydown;
  cbn [mbind option_bind option_map mret option_ret
       mem pc stack sp v i dt st screen wait_key keydown speaker].

Ltac case_access :=
  match goal with
  | |- context [if ?c then _ else _] => destruct c; fields
  | |- context [aget ?a ?n] => destruct (aget a n); fields
  | |- context [aset ?a ?n ?x] => destruct (aset a n x); fields
  end.

(** A loop whose body commutes with a change [g] of the state commutes with
    it as a whole. *)
Lemma for_each_commute {S : Type} (g : S -> S) (body : Z -> S -> option S)
  (ks : list Z) :
  (forall k s, body k (g s) = option_map g (body k s)) ->
  forall s, for_each ks body (g s) = option_map g (for_each ks body s).
Proof.
  intros Hb. induction ks as [|k ks IH]; intros s; simpl; [reflexivity|].
  rewrite Hb. destruct (body k s) as [s'|]; simpl; [apply IH|reflexivity].
Qed.

Section WaitKeyFrame.
Variable w : Z.

Lemma write_v_wait (cpu : machine_t) (n x : Z) :
  write_v (waiting_for w cpu) n x
  = option_map (waiting_for w) (write_v cpu n x).
Proof.
  destruct cpu. unfold waiting_for. fields. repeat case_access; reflexivity.
Qed.

Lemma draw_pixel_wait (x y sprite row col : Z) (cpu : machine_t) :
  draw_pixel x y sprite row col (waiting_for w cpu)
  = option_map (waiting_for w) (draw_pixel x y sprite row col cpu).
Proof.
  destruct cpu. unfold waiting_for, draw_pixel. fields.
  repeat case_access; reflexivity.
Qed.

Lemma draw_row_wait (x y row : Z) (cpu : machine_t) :
  draw_row x y row (waiting_for w cpu)
  = option_map (waiting_for w) (draw_row x y row cpu).
Proof.
  unfold draw_row.
  change (mem (waiting_for w cpu)) with (mem cpu).
  change (i (waiting_for w cpu)) with (i cpu).
  destruct (aget (mem cpu) (i cpu + row)) as [sprite|]; [|reflexivity].
  apply for_each_commute. intros. apply draw_pixel_wait.
Qed.

Lemma nibble_D_wait (cpu : machine_t) (opcode : Z) :
  nibble_D (waiting_for w cpu) opcode
  = option_map (waiting_for w) (nibble_D cpu opcode).
Proof.
  unfold nibble_D. rewrite write_v_wait.
  destruct (write_v cpu 15 0) as [cpu0|]; [|reflexivity].
  apply for_each_commute. intros. apply draw_row_wait.
Qed.

Lemma store_reg_wait (reg : Z) (cpu : machine_t) :
  store_reg reg (waiting_for w cpu)
  = option_map (waiting_for w) (store_reg reg cpu).
Proof.
  destruct cpu. unfold waiting_for, store_reg. fields.
  repeat case_access; reflexivity.
Qed.

Lemma load_reg_wait (reg : Z) (cpu : machine_t) :
  load_reg reg (waiting_for w cpu)
  = option_map (waiting_for w) (load_reg reg cpu).
Proof.
  destruct cpu. unfold waiting_for, load_reg. fields.
  repeat case_access; reflexivity.
Qed.

Lemma nibble_F_wait (cpu : machine_t) (opcode : Z) :
  OPCODE_KK opcode <> 0x0A ->
  nibble_F (waiting_for w cpu) opcode
  = option_map (waiting_for w) (nibble_F cpu opcode).
Proof.
  intros Hkk. unfold nibble_F.
  destruct (Z.eqb_spec (OPCODE_KK opcode) 0x55) as [E55|N55].
  { rewrite E55. cbn [Z.eqb Pos.eqb].
    apply for_each_commute. intros. apply store_reg_wait. }
  destruct (Z.eqb_spec (OPCODE_KK opcode) 0x65) as [E65|N65].
  { rewrite E65. cbn [Z.eqb Pos.eqb].
    apply for_each_commute. intros. apply load_reg_wait. }
  destruct (Z.eqb_spec (OPCODE_KK opcode) 0x0A); [contradiction|].
  destruct cpu. unfold waiting_for. fields. repeat case_access; reflexivity.
Qed.

Lemma handlers_ignore_wait_key (rnd : Z) (n : nat)
  (h : machine_t -> Z -> option machine_t) (cpu : machine_t) (opcode : Z) :
  nibbles rnd !! n = Some h ->
  (n = 15%nat -> OPCODE_KK opcode <> 0x0A) ->
  h (waiting_for w cpu) opcode = option_map (waiting_for w) (h cpu opcode).
Proof.
  intros Hn HF.
  do 13 (destruct n as [|n];
         [inversion Hn; subst h; destruct cpu;
          unfold waiting_for, nibble_0, nibble_1, nibble_2, nibble_3, nibble_4,
            nibble_5, nibble_6, nibble_7, nibble_8, nibble_9, nibble_A,
            nibble_B, nibble_C;
          fields; repeat case_access; reflexivity|]).
  destruct n as [|n]; [inversion Hn; subst h; apply nibble_D_wait|].
  destruct n as [|n].
  { inversion Hn; subst h.
    destruct cpu as [m p s q r a d t c k [poll|] b]; unfold waiting_for, nibble_E;
      fields; repeat case_access; reflexivity. }
  destruct n as [|n]; [|discriminate].
  inversion Hn; subst h. apply nibble_F_wait. apply HF. reflexivity.
Qed.
End WaitKeyFrame.

Lemma fetch_execute_wait (rnd : Z) (cpu : machine_t) (opcode w : Z) :
  fetch cpu = Some opcode -> is_FX0A opcode = false ->
  fetch_execute rnd (set_wait_key cpu w)
  = option_map (fun c => set_wait_key c w) (fetch_execute rnd cpu).
Proof.
  intros Hf Hno. unfold fetch_execute.
  change (fetch (set_wait_key cpu w)) with (fetch cpu). rewrite Hf.
  cbn [mbind option_bind].
  destruct (nibbles rnd !! Z.to_nat (OPCODE_P opcode)) as [h|] eqn:Eh;
    [|reflexivity].
  cbn [mbind option_bind].
  change (set_pc (set_wait_key cpu w) (Z.land (pc (set_wait_key cpu w) + 2) 0xFFF))
    with (set_wait_key (set_pc cpu (Z.land (pc cpu + 2) 0xFFF)) w).
  apply (handlers_ignore_wait_key w rnd _ h _ _ Eh).
  intros HP. unfold is_FX0A in Hno.
  assert (OPCODE_P opcode = 15) as HP' by lia.
  rewrite HP' in Hno. cbn [Z.eqb Pos.eqb andb] in Hno.
  destruct (Z.eqb_spec (OPCODE_KK opcode) 0x0A); [discriminate|assumption].
Qed.

(** ** Step without a key-press capability *)

(** C10, as the code has it: with the key-press capability absent, a Step
    call made in Waiting(R) does not poll and is not suspended; it is exactly
    the fetch, program-counter advance and execution of the next
    instruction, with the same outcome as for the Running machine except
    that the wait state still records Waiting(R) afterwards, unless the
    instruction executed is itself FX0A, which records its own X instead. *)
Theorem step_without_key_capability (rnd : Z) (cpu : machine_t) :
  keydown cpu = None ->
  wait_key cpu <> -1 ->
  step_machine rnd cpu = fetch_execute rnd cpu /\
  forall opcode, fetch cpu = Some opcode ->
    step_machine rnd cpu =
      option_map
        (fun c => if is_FX0A opcode then c else set_wait_key c (wait_key cpu))
        (step_machine rnd (set_wait_key cpu (-1))).
Proof.
  intros Hkd Hw.
  assert (Hstep : step_machine rnd cpu = fetch_execute rnd cpu).
  { unfold step_machine. rewrite Hkd.
    destruct (Z.eqb_spec (wait_key cpu) (-1)); [contradiction|reflexivity]. }
  split; [exact Hstep|]. intros opcode Hf. rewrite Hstep.
  change (step_machine rnd (set_wait_key cpu (-1)))
    with (fetch_execute rnd (set_wait_key cpu (-1))).
  destruct (is_FX0A opcode) eqn:EF.
  - rewrite !(fetch_execute_FX0A rnd _ opcode) by assumption. reflexivity.
  - assert (Hcpu : cpu = set_wait_key (set_wait_key cpu (-1)) (wait_key cpu))
      by (destruct cpu; reflexivity).
    rewrite Hcpu at 1.
    apply (fetch_execute_wait rnd (set_wait_key cpu (-1)) opcode);
      assumption.
Qed.

Lemma step_without_key_capability_witness :
  let cpu := set_wait_key (boot [0x6A; 0x07]) 1 in
  step_machine 0 cpu = fetch_execute 0 cpu /\
  step_machine 0 cpu =
    option_map (fun c => if is_FX0A 0x6A07 then c
                         else set_wait_key c (wait_key cpu))
      (step_machine 0 (set_wait_key cpu (-1))).
Proof.
  intro cpu.
  destruct (step_without_key_capability 0 cpu eq_refl ltac:(discriminate))
    as [A B].
  split; [exact A|]. apply B. reflexivity.
Defined.

(** C10 as stated fails on its last clause: with no key-press capability and
    program F10A F20A, the second Step call runs in Waiting(1), executes
    F20A and leaves the wait state at Waiting(2). *)
Lemma step_without_key_capability_counterexample :
  let cpu := boot [0xF1; 0x0A; 0xF2; 0x0A] in
  keydown cpu = None /\
  exists waiting after,
    step_machine 0 cpu = Some waiting /\ wait_key waiting = 1 /\
    step_machine 0 waiting = Some after /\ pc after = 0x204 /\
    wait_key after = 2 /\ wait_key after <> wait_key waiting.
Proof.
  simpl. split; [reflexivity|]. eexists. eexists.
  split; [vm_compute; reflexivity|]. split; [reflexivity|].
  split; [vm_compute; reflexivity|]. split; [reflexivity|].
  split; [reflexivity|discriminate].
Qed.

(** ** What each handler does to the control state *)

Ltac case_access_eq :=
  match goal with
  | |- context [if ?c then _ else _] =>
      let E := fresh "E" in destruct c eqn:E; fields
  | |- context [aget ?a ?n] =>
      let E := fresh "E" in destruct (aget a n) eqn:E; fields
  | |- context [aset ?a ?n ?x] =>
      let E := fresh "E" in destruct (aset a n x) eqn:E; fields
  end.

(** Case analysis of [h cpu opcode = Some cpu' -> P]: every path through
    the handler, with the outcome substituted. *)
Ltac handler_paths :=
  repeat case_access_eq;
  let H := fresh "H" in
  intros H; inversion H; subst; clear H.

Lemma for_each_invariant {S : Type} (P : S -> Prop)
  (body : Z -> S -> option S) (ks : list Z) :
  (forall k s s', P s -> body k s = Some s' -> P s') ->
  forall s s', P s -> for_each ks body s = Some s' -> P s'.
Proof.
  intros Hb. induction ks as [|k ks IH]; intros s s' Hs; simpl.
  - intros H. inversion H. subst. exact Hs.
  - destruct (body k s) as [s1|] eqn:E1; simpl; [|discriminate].
    apply IH. eapply Hb; eauto.
Qed.

Lemma write_v_ctl (cpu cpu' : machine_t) (n x : Z) :
  write_v cpu n x = Some cpu' -> ctl cpu' = ctl cpu.
Proof. destruct cpu. fields. handler_paths. reflexivity. Qed.

Lemma draw_pixel_ctl (x y sprite row col : Z) (cpu cpu' : machine_t) :
  draw_pixel x y sprite row col cpu = Some cpu' -> ctl cpu' = ctl cpu.
Proof.
  destruct cpu. unfold draw_pixel. fields. handler_paths. reflexivity.
Qed.

Lemma draw_row_ctl (x y row : Z) (cpu cpu' : machine_t) :
  draw_row x y row cpu = Some cpu' -> ctl cpu' = ctl cpu.
Proof.
  unfold draw_row.
  destruct (aget (mem cpu) (i cpu + row)) as [sprite|]; [|discriminate].
  cbn [mbind option_bind].
  apply (for_each_invariant (fun c => ctl c = ctl cpu)); [|reflexivity].
  intros k s s' Hs H. rewrite <- Hs. eapply draw_pixel_ctl; eauto.
Qed.

Lemma nibble_D_ctl (cpu cpu' : machine_t) (opcode : Z) :
  nibble_D cpu opcode = Some cpu' -> ctl cpu' = ctl cpu.
Proof.
  unfold nibble_D.
  destruct (write_v cpu 15 0) as [cpu0|] eqn:E0; [|discriminate].
  cbn [mbind option_bind]. apply write_v_ctl in E0.
  apply (for_each_invariant (fun c => ctl c = ctl cpu)); [|exact E0].
  intros k s s' Hs H. rewrite <- Hs. eapply draw_row_ctl; eauto.
Qed.

Lemma store_reg_ctl (reg : Z) (cpu cpu' : machine_t) :
  store_reg reg cpu = Some cpu' -> ctl cpu' = ctl cpu.
Proof.
  destruct cpu. unfold store_reg. fields. handler_paths. reflexivity.
Qed.

Lemma load_reg_ctl (reg : Z) (cpu cpu' : machine_t) :
  load_reg reg cpu = Some cpu' -> ctl cpu' = ctl cpu.
Proof.
  destruct cpu. unfold load_reg. fields. handler_paths. reflexivity.
Qed.

Lemma bulk_store_ctl (ks : list Z) (cpu cpu' : machine_t) :
  for_each ks store_reg cpu = Some cpu' -> ctl cpu' = ctl cpu.
Proof.
  apply (for_each_invariant (fun c => ctl c = ctl cpu)); [|reflexivity].
  intros k s s' Hs H. rewrite <- Hs. eapply store_reg_ctl; eauto.
Qed.

Lemma bulk_load_ctl (ks : list Z) (cpu cpu' : machine_t) :
  for_each ks load_reg cpu = Some cpu' -> ctl cpu' = ctl cpu.
Proof.
  apply (for_each_invariant (fun c => ctl c = ctl cpu)); [|reflexivity].
  intros k s s' Hs H. rewrite <- Hs. eapply load_reg_ctl; eauto.
Qed.

Lemma ctl_inv_same (cpu cpu' : machine_t) :
  ctl cpu' = ctl cpu -> ctl_inv cpu -> ctl_inv cpu'.
Proof.
  unfold ctl, ctl_inv. intros H. inversion H as [[Hpc Hsp Hst Hi]].
  rewrite Hpc, Hsp, Hst. tauto.
Qed.

Lemma pc_wrap_range (p : Z) : 0 <= Z.land p 0xFFF <= 0xFFF.
Proof. rewrite land_0xFFF. pose proof (Z.mod_pos_bound p 4096). lia. Qed.

(** ** The state invariant *)

Ltac inv_close Hinv :=
  unfold ctl_inv in *; cbn [pc sp stack] in *;
  destruct Hinv as (Hpc & Hsp & Hst);
  (split; [|split]);
  first [ assumption | apply pc_wrap_range | apply OPCODE_NNN_range | idtac ].

Lemma nibble_0_inv (cpu cpu' : machine_t) (opcode : Z) :
  ctl_inv cpu -> nibble_0 cpu opcode = Some cpu' -> ctl_inv cpu'.
Proof.
  intros Hinv. destruct cpu as [m p s q r a d t c w kd b].
  unfold nibble_0. fields. handler_paths; inv_close Hinv.
  - apply Z.gtb_lt in E1. apply (Hst (q - 1)); [lia|assumption].
  - apply Z.gtb_lt in E1. lia.
  - intros k ret Hk. apply Hst. lia.
Qed.

Lemma nibble_2_inv (cpu cpu' : machine_t) (opcode : Z) :
  ctl_inv cpu -> nibble_2 cpu opcode = Some cpu' -> ctl_inv cpu'.
Proof.
  intros Hinv. destruct cpu as [m p s q r a d t c w kd b].
  unfold nibble_2. fields. handler_paths; inv_close Hinv.
  - apply Z.ltb_lt in E. lia.
  - intros k ret Hk Hget. destruct (Z.eq_dec k q) as [->|Hne].
    + rewrite (aget_aset_eq _ _ _ _ E0) in Hget. inversion Hget. subst. lia.
    + rewrite (aget_aset_ne _ _ _ _ _ E0) in Hget by congruence.
      apply (Hst k); [lia|assumption].
Qed.

Lemma nibble_F_inv (cpu cpu' : machine_t) (opcode : Z) :
  ctl_inv cpu -> nibble_F cpu opcode = Some cpu' -> ctl_inv cpu'.
Proof.
  intros Hinv. unfold nibble_F.
  destruct (Z.eqb_spec (OPCODE_KK opcode) 0x55) as [E55|N55].
  { rewrite E55. cbn [Z.eqb Pos.eqb]. intros H.
    apply bulk_store_ctl in H. eapply ctl_inv_same; eauto. }
  destruct (Z.eqb_spec (OPCODE_KK opcode) 0x65) as [E65|N65].
  { rewrite E65. cbn [Z.eqb Pos.eqb]. intros H.
    apply bulk_load_ctl in H. eapply ctl_inv_same; eauto. }
  destruct cpu. fields. handler_paths; inv_close Hinv.
Qed.

Lemma handler_preserves_ctl_inv (rnd : Z) (n : nat)
  (h : machine_t -> Z -> option machine_t) (cpu cpu' : machine_t)
  (opcode : Z) :
  nibbles rnd !! n = Some h ->
  ctl_inv cpu -> h cpu opcode = Some cpu' -> ctl_inv cpu'.
Proof.
  intros Hn Hinv.
  destruct n as [|n]; [inversion Hn; subst h; apply nibble_0_inv; exact Hinv|].
  destruct n as [|n].
  { inversion Hn; subst h. destruct cpu. unfold nibble_1. fields.
    handler_paths; inv_close Hinv. }
  destruct n as [|n]; [inversion Hn; subst h; apply nibble_2_inv; exact Hinv|].
  do 10 (destruct n as [|n];
         [inversion Hn; subst h; destruct cpu;
          unfold nibble_3, nibble_4, nibble_5, nibble_6, nibble_7, nibble_8,
            nibble_9, nibble_A, nibble_B, nibble_C;
          fields; handler_paths; inv_close Hinv|]).
  destruct n as [|n].
  { inversion Hn; subst h. intros H. apply nibble_D_ctl in H.
    eapply ctl_inv_same; eauto. }
  destruct n as [|n].
  { inversion Hn; subst h.
    destruct cpu as [m p s q r a d t c k [poll|] b]; unfold nibble_E;
      fields; handler_paths; inv_close Hinv. }
  destruct n as [|n]; [|discriminate].
  inversion Hn; subst h. apply nibble_F_inv. exact Hinv.
Qed.

Lemma poll_keys_ctl (poll : Z -> Z) (keys : list Z) (cpu cpu' : machine_t) :
  poll_keys poll keys cpu = Some cpu' -> ctl cpu' = ctl cpu.
Proof.
  induction keys as [|k keys IH]; simpl.
  - intros H. inversion H. reflexivity.
  - destruct (negb (poll k =? 0)); [|exact IH].
    destruct (write_v cpu (wait_key cpu) k) as [cpu1|] eqn:E1;
      simpl; intros H; inversion H; subst.
    apply write_v_ctl in E1. exact E1.
Qed.

Lemma fetch_execute_inv (rnd : Z) (cpu cpu' : machine_t) :
  ctl_inv cpu -> fetch_execute rnd cpu = Some cpu' -> ctl_inv cpu'.
Proof.
  intros Hinv. unfold fetch_execute.
  destruct (fetch cpu) as [opcode|]; [|discriminate]. cbn [mbind option_bind].
  destruct (nibbles rnd !! Z.to_nat (OPCODE_P opcode)) as [h|] eqn:Eh;
    [|discriminate].
  cbn [mbind option_bind].
  apply (handler_preserves_ctl_inv rnd _ h _ _ _ Eh).
  destruct Hinv as (Hpc & Hsp & Hst).
  split; [apply pc_wrap_range|split; assumption].
Qed.

Lemma tick_ctl (cpu : machine_t) : ctl (fst (tick cpu)) = ctl cpu.
Proof.
  unfold tick.
  repeat match goal with
         | |- context [if ?c then _ else _] => destruct c
         end; reflexivity.
Qed.

Lemma time_loop_ctl (fuel : nat) :
  forall cpu g calls r,
    time_loop fuel cpu g calls = Some r -> ctl (fst (fst r)) = ctl cpu.
Proof.
  induction fuel as [|fuel IH]; intros cpu g calls r; simpl;
    destruct (g >? 1000 / 60).
  - discriminate.
  - intros H. inversion H. reflexivity.
  - pose proof (tick_ctl cpu) as Ht. destruct (tick cpu) as [cpu1 out].
    intros H. apply IH in H. rewrite H. exact Ht.
  - intros H. inversion H. reflexivity.
Qed.

Lemma update_time_ctl (cpu : machine_t) (global_delta delta : Z) :
  ctl (fst (fst (update_time cpu global_delta delta))) = ctl cpu.
Proof.
  unfold update_time.
  destruct (time_loop _ cpu _ []) as [r|] eqn:E.
  - eapply time_loop_ctl; eauto.
  - reflexivity.
Qed.

(** C9, as the code has it: the invariant that is preserved is the one of
    the data model, with the call-stack clause.  If the starting state has
    its program counter in [0, 0xFFF], its stack pointer in [0, 16] and
    every active call-stack entry in [0, 0xFFF], then so has the state after
    any Step call, whatever opcode it executes, and the state after any
    Timer-tick call. *)
Theorem state_invariant_preserved (rnd : Z) (cpu : machine_t) :
  ctl_inv cpu ->
  (forall cpu', step_machine rnd cpu = Some cpu' -> ctl_inv cpu') /\
  (forall global_delta delta,
     ctl_inv (fst (fst (update_time cpu global_delta delta)))).
Proof.
  intros Hinv. split.
  - intros cpu'. unfold step_machine.
    destruct (negb (wait_key cpu =? -1));
      [|apply fetch_execute_inv; exact Hinv].
    destruct (keydown cpu) as [poll|];
      [|apply fetch_execute_inv; exact Hinv].
    destruct (poll_keys poll (seqZ 0 16) cpu) as [cpu1|] eqn:E1;
      [|discriminate].
    cbn [mbind option_bind].
    apply poll_keys_ctl in E1.
    assert (Hinv1 : ctl_inv cpu1) by (eapply ctl_inv_same; eauto).
    destruct (negb (wait_key cpu1 =? -1)).
    + intros H. inversion H. subst. exact Hinv1.
    + apply fetch_execute_inv. exact Hinv1.
  - intros global_delta delta.
    eapply ctl_inv_same; [apply update_time_ctl|exact Hinv].
Qed.

Lemma state_invariant_preserved_witness :
  let cpu := boot [0x22; 0x04; 0x00; 0x00; 0x00; 0xEE] in
  ctl_inv cpu /\
  (exists cpu', step_machine 0 cpu = Some cpu' /\ ctl_inv cpu') /\
  ctl_inv (fst (fst (update_time cpu 0 1000))).
Proof.
  intro cpu.
  assert (Hinv : ctl_inv cpu).
  { split; [|split].
    - vm_compute. split; intro; discriminate.
    - vm_compute. split; intro; discriminate.
    - intros k ret Hk. exfalso. change (sp cpu) with 0 in Hk. lia. }
  destruct (state_invariant_preserved 0 cpu Hinv) as [A B].
  split; [exact Hinv|]. split; [|apply B].
  destruct (step_machine 0 cpu) as [cpu'|] eqn:E; [|vm_compute in E; discriminate].
  exists cpu'. split; [reflexivity|]. apply A. reflexivity.
Defined.

(** C9 as stated fails: the two range conditions alone are not preserved.
    A state with pc = 0x200, sp = 1 and 0xFFFF in the active stack slot
    satisfies both, and the Step executing 00EE there leaves pc = 0xFFFF. *)
Lemma stale_stack_entry_counterexample :
  let cpu := set_sp (set_stack (boot [0x00; 0xEE])
                               (<[0%nat := 0xFFFF]> (replicate 16 0))) 1 in
  0 <= pc cpu <= 0xFFF /\ 0 <= sp cpu <= 16 /\
  exists cpu', step_machine 0 cpu = Some cpu' /\
    pc cpu' = 0xFFFF /\ ~ (0 <= pc cpu' <= 0xFFF).
Proof.
  simpl. split; [lia|]. split; [lia|].
  eexists. split; [vm_compute; reflexivity|].
  split; [reflexivity|]. cbn [pc set_pc set_sp]. lia.
Qed.

(** ** The address register *)

Lemma glyph_address_range (x : Z) : 0 <= 0x50 + Z.land x 0xF * 5 <= 0xFFF.
Proof. rewrite land_0xF. pose proof (Z.mod_pos_bound x 16). lia. Qed.

Ltac i_close :=
  cbn [i] in *;
  first [ assumption | apply OPCODE_NNN_range | apply glyph_address_range ].

Lemma handler_i_bound (rnd : Z) (n : nat)
  (h : machine_t -> Z -> option machine_t) (cpu cpu' : machine_t)
  (opcode : Z) :
  nibbles rnd !! n = Some h -> n <> 15%nat ->
  0 <= i cpu <= 0xFFF -> h cpu opcode = Some cpu' -> 0 <= i cpu' <= 0xFFF.
Proof.
  intros Hn Hne Hi.
  do 13 (destruct n as [|n];
         [inversion Hn; subst h; destruct cpu;
          unfold nibble_0, nibble_1, nibble_2, nibble_3, nibble_4, nibble_5,
            nibble_6, nibble_7, nibble_8, nibble_9, nibble_A, nibble_B,
            nibble_C;
          fields; handler_paths; i_close|]).
  destruct n as [|n].
  { inversion Hn; subst h. intros H. apply nibble_D_ctl in H.
    inversion H as [[Hpc Hsp Hst Hi']]. rewrite Hi'. exact Hi. }
  destruct n as [|n].
  { inversion Hn; subst h.
    destruct cpu as [m p s q r a d t c k [poll|] b]; unfold nibble_E;
      fields; handler_paths; i_close. }
  destruct n as [|n]; [contradiction|discriminate].
Qed.

Lemma nibble_F_i (cpu cpu' : machine_t) (opcode : Z) :
  0 <= i cpu <= 0xFFF -> nibble_F cpu opcode = Some cpu' ->
  (OPCODE_KK opcode <> 0x1E -> 0 <= i cpu' <= 0xFFF) /\
  (OPCODE_KK opcode = 0x1E ->
   i cpu' = to_word (i cpu + reg cpu (OPCODE_X opcode))).
Proof.
  intros Hi. unfold nibble_F.
  destruct (Z.eqb_spec (OPCODE_KK opcode) 0x55) as [E55|N55].
  { rewrite E55. cbn [Z.eqb Pos.eqb]. intros H. apply bulk_store_ctl in H.
    inversion H as [[Hpc Hsp Hst Hi']]. rewrite Hi'.
    split; [intros _; exact Hi|discriminate]. }
  destruct (Z.eqb_spec (OPCODE_KK opcode) 0x65) as [E65|N65].
  { rewrite E65. cbn [Z.eqb Pos.eqb]. intros H. apply bulk_load_ctl in H.
    inversion H as [[Hpc Hsp Hst Hi']]. rewrite Hi'.
    split; [intros _; exact Hi|discriminate]. }
  destruct (Z.eqb_spec (OPCODE_KK opcode) 0x1E) as [E1E|N1E].
  { rewrite E1E. cbn [Z.eqb Pos.eqb]. unfold reg.
    destruct (aget (v cpu) (OPCODE_X opcode)) as [vx|]; [|discriminate].
    cbn [mbind option_bind default]. intros H. inversion H.
    split; [contradiction|reflexivity]. }
  destruct cpu. fields. handler_paths;
    (split; [intros _; i_close|contradiction]).
Qed.

(** Outside families A and F no handler writes the address register. *)
Lemma handler_i_frame (rnd : Z) (n : nat)
  (h : machine_t -> Z -> option machine_t) (cpu cpu' : machine_t)
  (opcode : Z) :
  nibbles rnd !! n = Some h -> n <> 10%nat -> n <> 15%nat ->
  h cpu opcode = Some cpu' -> i cpu' = i cpu.
Proof.
  intros Hn HA HF.
  do 10 (destruct n as [|n];
         [inversion Hn; subst h; destruct cpu;
          unfold nibble_0, nibble_1, nibble_2, nibble_3, nibble_4, nibble_5,
            nibble_6, nibble_7, nibble_8, nibble_9;
          fields; handler_paths; reflexivity|]).
  destruct n as [|n]; [contradiction|].
  do 2 (destruct n as [|n];
        [inversion Hn; subst h; destruct cpu; unfold nibble_B, nibble_C;
         fields; handler_paths; reflexivity|]).
  destruct n as [|n].
  { inversion Hn; subst h. intros H. apply nibble_D_ctl in H.
    exact (f_equal snd H). }
  destruct n as [|n].
  { inversion Hn; subst h.
    destruct cpu as [m p s q r a d t c k [poll|] b]; unfold nibble_E;
      fields; handler_paths; reflexivity. }
  destruct n as [|n]; [contradiction|discriminate].
Qed.

(** What family F does to the address register. *)
Lemma nibble_F_i_exact (cpu cpu' : machine_t) (opcode : Z) :
  nibble_F cpu opcode = Some cpu' ->
  i cpu' = if OPCODE_KK opcode =? 0x1E
           then to_word (i cpu + reg cpu (OPCODE_X opcode))
           else if OPCODE_KK opcode =? 0x29
           then 0x50 + Z.land (reg cpu (OPCODE_X opcode)) 0xF * 5
           else i cpu.
Proof.
  unfold nibble_F.
  destruct (Z.eqb_spec (OPCODE_KK opcode) 0x55) as [E55|N55].
  { rewrite E55. cbn [Z.eqb Pos.eqb]. intros H. apply bulk_store_ctl in H.
    exact (f_equal snd H). }
  destruct (Z.eqb_spec (OPCODE_KK opcode) 0x65) as [E65|N65].
  { rewrite E65. cbn [Z.eqb Pos.eqb]. intros H. apply bulk_load_ctl in H.
    exact (f_equal snd H). }
  destruct (Z.eqb_spec (OPCODE_KK opcode) 0x1E) as [E1E|N1E].
  { rewrite E1E. cbn [Z.eqb Pos.eqb]. unfold reg.
    destruct (aget (v cpu) (OPCODE_X opcode)) as [vx|]; [|discriminate].
    cbn [mbind option_bind default]. intros [= <-]. reflexivity. }
  destruct (Z.eqb_spec (OPCODE_KK opcode) 0x29) as [E29|N29].
  { rewrite E29. cbn [Z.eqb Pos.eqb]. unfold reg.
    destruct (aget (v cpu) (OPCODE_X opcode)) as [vx|]; [|discriminate].
    cbn [mbind option_bind default]. intros [= <-]. reflexivity. }
  destruct cpu. fields. handler_paths; reflexivity.
Qed.

(** C4, as the code has it: executed from a state with I <= 0xFFF, every
    opcode other than FX1E leaves I <= 0xFFF: ANNN sets I to NNN, FX29 sets
    it to 0x50 + 5 * (registers[X] mod 16), and every other opcode leaves I
    as it was.  FX1E sets I to (I + registers[X]) mod 0x10000 with no
    further mask, which, the register holding a byte, is above 0xFFF
    exactly when the sum is. *)
Theorem address_register_bound (rnd : Z)
  (h : machine_t -> Z -> option machine_t) (cpu cpu' : machine_t)
  (opcode : Z) :
  nibbles rnd !! Z.to_nat (OPCODE_P opcode) = Some h ->
  0 <= i cpu <= 0xFFF ->
  h cpu opcode = Some cpu' ->
  (is_FX1E opcode = false -> 0 <= i cpu' <= 0xFFF) /\
  (is_ANNN opcode = true -> i cpu' = OPCODE_NNN opcode) /\
  (is_FX29 opcode = true ->
   i cpu' = 0x50 + 5 * (reg cpu (OPCODE_X opcode) mod 16)) /\
  (is_FX1E opcode = false -> is_ANNN opcode = false ->
   is_FX29 opcode = false -> i cpu' = i cpu) /\
  (is_FX1E opcode = true ->
   i cpu' = (i cpu + reg cpu (OPCODE_X opcode)) mod 0x10000 /\
   (0 <= reg cpu (OPCODE_X opcode) <= 255 ->
    (0xFFF < i cpu' <-> 0xFFF < i cpu + reg cpu (OPCODE_X opcode)))).
Proof.
  intros Hn Hi Hh. unfold is_FX1E, is_ANNN, is_FX29.
  pose proof (glyph_address_range (reg cpu (OPCODE_X opcode))) as Hg.
  pose proof (land_0xF (reg cpu (OPCODE_X opcode))) as Hl.
  pose proof (OPCODE_NNN_range opcode) as HN.
  destruct (Nat.eq_dec (Z.to_nat (OPCODE_P opcode)) 15%nat) as [E|N].
  - assert (HP : OPCODE_P opcode = 15) by lia.
    rewrite E in Hn. inversion Hn. subst h.
    rewrite HP. cbn [Z.eqb Pos.eqb andb].
    pose proof (nibble_F_i_exact cpu cpu' opcode Hh) as Hx. revert Hx.
    destruct (Z.eqb_spec (OPCODE_KK opcode) 0x1E) as [E1|N1].
    + rewrite E1. cbn [Z.eqb Pos.eqb]. unfold to_word. intros Hx.
      split; [discriminate|]. split; [discriminate|].
      split; [discriminate|]. split; [discriminate|].
      intros _. split; [exact Hx|]. intros Hr. rewrite Hx.
      rewrite Z.mod_small by lia. tauto.
    + destruct (Z.eqb_spec (OPCODE_KK opcode) 0x29) as [E2|N2]; intros Hx.
      * split; [intros _; lia|]. split; [discriminate|].
        split; [intros _; lia|]. split; discriminate.
      * split; [intros _; lia|]. split; [discriminate|].
        split; [discriminate|]. split; [intros _ _ _; exact Hx|].
        discriminate.
  - assert (HP : OPCODE_P opcode <> 15) by lia.
    destruct (Z.eqb_spec (OPCODE_P opcode) 0xF) as [E|_]; [contradiction|].
    cbn [andb].
    destruct (Z.eqb_spec (OPCODE_P opcode) 0xA) as [EA|NA].
    + rewrite EA in Hn. inversion Hn. subst h. unfold nibble_A in Hh.
      injection Hh as <-. cbn [i set_i].
      split; [intros _; exact HN|]. split; [reflexivity|].
      split; [discriminate|]. split; discriminate.
    + assert (Hfr : i cpu' = i cpu).
      { apply (handler_i_frame rnd _ h cpu cpu' opcode Hn); [lia|lia|].
        exact Hh. }
      split; [intros _; lia|]. split; [discriminate|].
      split; [discriminate|]. split; [intros _ _ _; exact Hfr|].
      discriminate.
Qed.

Lemma address_register_bound_witness :
  let cpu := set_i (with_regs [7] (boot [])) 0xFFC in
  0 <= i (set_i cpu 0x123) <= 0xFFF /\
  i (set_i cpu 0x123) = OPCODE_NNN 0xA123 /\
  i (set_i cpu 0x73) = 0x50 + 5 * (reg cpu (OPCODE_X 0xF029) mod 16) /\
  i (skip cpu) = i cpu /\
  i (set_i cpu 0x1003) = (i cpu + reg cpu (OPCODE_X 0xF01E)) mod 0x10000 /\
  0xFFF < i (set_i cpu 0x1003).
Proof.
  intro cpu.
  assert (Hi : 0 <= i cpu <= 0xFFF) by (change (i cpu) with 0xFFC; lia).
  pose proof (address_register_bound 0 nibble_A cpu (set_i cpu 0x123) 0xA123
                eq_refl Hi eq_refl) as (A1 & A2 & _).
  pose proof (address_register_bound 0 nibble_F cpu (set_i cpu 0x73) 0xF029
                eq_refl Hi eq_refl) as (_ & _ & B3 & _).
  pose proof (address_register_bound 0 nibble_3 cpu (skip cpu) 0x3007
                eq_refl Hi eq_refl) as (_ & _ & _ & C4 & _).
  pose proof (address_register_bound 0 nibble_F cpu (set_i cpu 0x1003) 0xF01E
                eq_refl Hi eq_refl) as (_ & _ & _ & _ & D5).
  destruct (D5 eq_refl) as [D6 D7].
  split; [apply A1; reflexivity|]. split; [apply A2; reflexivity|].
  split; [apply B3; reflexivity|].
  split; [apply C4; reflexivity|]. split; [exact D6|].
  apply D7; [vm_compute; split; discriminate|].
  vm_compute. reflexivity.
Defined.

(** C4 as stated fails: program AFFF 6001 F01E, run from reset, sets I to
    0xFFF, register 0 to 1, and then I to 0x1000. *)
Lemma address_register_overflow_counterexample :
  let cpu := boot [0xAF; 0xFF; 0x60; 0x01; 0xF0; 0x1E] in
  exists s2 s3,
    for_each [0; 0] step_machine cpu = Some s2 /\ i s2 = 0xFFF /\
    step_machine 0 s2 = Some s3 /\ i s3 = 0x1000 /\ ~ (i s3 <= 0xFFF).
Proof.
  cbv zeta. eexists. eexists.
  split; [vm_compute; reflexivity|]. split; [vm_compute; reflexivity|].
  split; [vm_compute; reflexivity|]. split; [vm_compute; reflexivity|].
  vm_compute. intros H. apply H. reflexivity.
Qed.

(** ** Memory accesses driven by the address register *)

(** When a loop body is defined exactly on the good indices, and keeps the
    invariant it needs, the loop is defined exactly when all its indices are
    good. *)
Lemma for_each_defined_iff {S : Type} (Inv : S -> Prop) (ok : Z -> Prop)
  (body : Z -> S -> option S) (ks : list Z) :
  (forall k s s', k ∈ ks -> Inv s -> body k s = Some s' -> Inv s') ->
  (forall k s, k ∈ ks -> Inv s -> (is_Some (body k s) <-> ok k)) ->
  forall s, Inv s -> (is_Some (for_each ks body s) <-> Forall ok ks).
Proof.
  induction ks as [|k ks IH]; intros Hinv Hok s Hs; simpl.
  - split; [constructor|eauto].
  - assert (Hk : k ∈ k :: ks) by (left; reflexivity).
    destruct (body k s) as [s1|] eqn:E1; simpl.
    + assert (ok k) by (apply (Hok k s Hk Hs); rewrite E1; eauto).
      rewrite IH.
      * split; [intros; constructor; assumption|].
        intros HF. inversion HF. assumption.
      * intros k' s0 s0' Hk'. apply Hinv. right. exact Hk'.
      * intros k' s0 Hk'. apply Hok. right. exact Hk'.
      * eapply Hinv; eauto.
    + split; [intros [? ?]; discriminate|].
      intros HF. inversion HF as [|? ? Hokk _]; subst.
      apply (Hok k s Hk Hs) in Hokk. rewrite E1 in Hokk.
      destruct Hokk. discriminate.
Qed.

Lemma pixel_pos_range (a b : Z) :
  0 <= 64 * Z.land b 31 + Z.land a 63 < 2048.
Proof.
  change 31 with (Z.ones 5). change 63 with (Z.ones 6).
  rewrite !Z.land_ones by lia.
  pose proof (Z.mod_pos_bound b (2 ^ 5) ltac:(lia)).
  pose proof (Z.mod_pos_bound a (2 ^ 6) ltac:(lia)).
  change (2 ^ 5) with 32 in *. change (2 ^ 6) with 64 in *. lia.
Qed.

Lemma draw_pixel_defined (x y sprite row col : Z) (cpu0 cpu : machine_t) :
  0 <= x <= 15 -> 0 <= y <= 15 -> draw_inv cpu0 cpu ->
  exists cpu', draw_pixel x y sprite row col cpu = Some cpu' /\
               draw_inv cpu0 cpu'.
Proof.
  intros Hx Hy (Hv & Hs & Hm & Hi). unfold draw_pixel.
  destruct (reg_read cpu x Hv Hx) as [vx ->].
  destruct (reg_read cpu y Hv Hy) as [vy ->].
  destruct (reg_read cpu 15 Hv ltac:(lia)) as [vf ->].
  cbn [mbind option_bind].
  pose proof (pixel_pos_range (vx + col) (vy + row)) as Hpos.
  set (pos := 64 * Z.land (vy + row) 31 + Z.land (vx + col) 63) in *.
  destruct (aget_in_range (screen cpu) pos ltac:(lia)) as [c Hc].
  rewrite Hc. cbn [mbind option_bind].
  rewrite write_v_in_range by (assumption || lia).
  cbn [mbind option_bind screen set_v]. rewrite Hc.
  cbn [mbind option_bind]. rewrite aset_in_range by lia.
  cbn [mbind option_bind]. eexists. split; [reflexivity|].
  unfold draw_inv. cbn [v screen mem i set_screen set_v].
  rewrite !length_insert. tauto.
Qed.

Lemma draw_pixel_inv (x y sprite row col : Z) (cpu0 cpu cpu' : machine_t) :
  0 <= x <= 15 -> 0 <= y <= 15 -> draw_inv cpu0 cpu ->
  draw_pixel x y sprite row col cpu = Some cpu' -> draw_inv cpu0 cpu'.
Proof.
  intros Hx Hy Hinv H.
  destruct (draw_pixel_defined x y sprite row col cpu0 cpu Hx Hy Hinv)
    as (c & Hc & Hinv').
  congruence.
Qed.

Lemma draw_cols_defined (x y sprite row : Z) (cpu0 cpu : machine_t) :
  0 <= x <= 15 -> 0 <= y <= 15 -> draw_inv cpu0 cpu ->
  exists cpu', for_each (seqZ 0 8) (draw_pixel x y sprite row) cpu = Some cpu'
               /\ draw_inv cpu0 cpu'.
Proof.
  intros Hx Hy Hinv.
  assert (Hsome : is_Some (for_each (seqZ 0 8) (draw_pixel x y sprite row) cpu)).
  { apply (for_each_defined_iff (draw_inv cpu0) (fun _ => True)).
    - intros k s s' _ Hs. apply draw_pixel_inv; assumption.
    - intros k s _ Hs. split; [trivial|]. intros _.
      destruct (draw_pixel_defined x y sprite row k cpu0 s Hx Hy Hs)
        as (c & -> & _). eauto.
    - exact Hinv.
    - apply Forall_forall. trivial. }
  destruct Hsome as [cpu' Hc]. exists cpu'. split; [exact Hc|].
  revert Hc. apply (for_each_invariant (draw_inv cpu0)); [|exact Hinv].
  intros k s s' Hs. apply draw_pixel_inv; assumption.
Qed.

Lemma draw_row_inv (x y row : Z) (cpu0 cpu cpu' : machine_t) :
  0 <= x <= 15 -> 0 <= y <= 15 -> draw_inv cpu0 cpu ->
  draw_row x y row cpu = Some cpu' -> draw_inv cpu0 cpu'.
Proof.
  intros Hx Hy Hinv. unfold draw_row.
  destruct (aget (mem cpu) (i cpu + row)) as [sprite|]; [|discriminate].
  cbn [mbind option_bind]. intros H.
  destruct (draw_cols_defined x y sprite row cpu0 cpu Hx Hy Hinv)
    as (c & Hc & Hinv').
  congruence.
Qed.

Lemma draw_row_defined_iff (x y row : Z) (cpu0 cpu : machine_t) :
  0 <= x <= 15 -> 0 <= y <= 15 -> length (mem cpu0) = 4096%nat ->
  draw_inv cpu0 cpu ->
  is_Some (draw_row x y row cpu) <-> in_memory (i cpu0 + row).
Proof.
  intros Hx Hy Hm Hinv. pose proof Hinv as (_ & _ & Hmem & Hi).
  unfold draw_row, in_memory. rewrite Hmem, Hi.
  destruct (aget (mem cpu0) (i cpu0 + row)) as [sprite|] eqn:E.
  - cbn [mbind option_bind]. apply aget_Some_range in E.
    destruct (draw_cols_defined x y sprite row cpu0 cpu Hx Hy Hinv)
      as (c & -> & _).
    split; [intros _; lia|eauto].
  - cbn [mbind option_bind]. apply aget_None_iff in E.
    split; [intros [? ?]; discriminate|intros; lia].
Qed.

Lemma nibble_D_defined_iff (cpu : machine_t) (opcode : Z) :
  wf_machine cpu ->
  is_Some (nibble_D cpu opcode) <->
  Forall in_memory (sprite_indices cpu opcode).
Proof.
  intros (Hm & _ & Hv & Hs). unfold nibble_D, sprite_indices.
  rewrite write_v_in_range by (assumption || lia).
  cbn [mbind option_bind]. rewrite Forall_map.
  set (cpu0 := set_v cpu _).
  apply (for_each_defined_iff (draw_inv cpu)
           (fun row => in_memory (i cpu + row))).
  - intros k s s' _ Hinv.
    apply draw_row_inv; [apply OPCODE_X_range|apply OPCODE_Y_range|exact Hinv].
  - intros k s _ Hinv.
    apply draw_row_defined_iff;
      [apply OPCODE_X_range|apply OPCODE_Y_range|exact Hm|exact Hinv].
  - unfold draw_inv, cpu0. cbn [v screen mem i set_v].
    rewrite length_insert. tauto.
Qed.

Lemma write_mem_cases (cpu : machine_t) (n x : Z) :
  length (mem cpu) = 4096%nat ->
  (in_memory n /\
   exists cpu', write_mem cpu n x = Some cpu' /\ v cpu' = v cpu /\
                i cpu' = i cpu /\ length (mem cpu') = 4096%nat) \/
  (~ in_memory n /\ write_mem cpu n x = None).
Proof.
  intros Hm. unfold write_mem, in_memory.
  destruct (Z_le_dec 0 n) as [H0|H0]; destruct (Z_le_dec n 0xFFF) as [H1|H1];
    try (right; split; [lia|];
         assert (E : aset (mem cpu) n (to_byte x) = None)
           by (apply aset_None_iff; lia);
         rewrite E; reflexivity).
  left. split; [lia|]. rewrite aset_in_range by lia.
  eexists. split; [reflexivity|]. cbn [v i mem set_mem].
  rewrite length_insert. tauto.
Qed.

Lemma bcd_defined_iff (cpu : machine_t) (opcode : Z) :
  wf_machine cpu -> OPCODE_KK opcode = 0x33 ->
  is_Some (nibble_F cpu opcode) <-> Forall in_memory (bcd_indices cpu).
Proof.
  intros (Hm & _ & Hv & _) Hkk. unfold nibble_F, bcd_indices.
  rewrite Hkk. cbn [Z.eqb Pos.eqb].
  destruct (reg_read cpu _ Hv (OPCODE_X_range opcode)) as [vx Hx].
  rewrite Hx. cbn [mbind option_bind].
  destruct (write_mem_cases cpu (i cpu + 2) (vx mod 10) Hm)
    as [[R2 (cpu1 & -> & Hv1 & Hi1 & Hm1)]|[R2 ->]]; cbn [mbind option_bind].
  2: { split; [intros [? ?]; discriminate|].
       intros HF. inversion HF. contradiction. }
  rewrite Hv1, Hx, Hi1. cbn [mbind option_bind].
  destruct (write_mem_cases cpu1 (i cpu + 1) ((vx / 10) mod 10) Hm1)
    as [[R1 (cpu2 & -> & Hv2 & Hi2 & Hm2)]|[R1 ->]]; cbn [mbind option_bind].
  2: { split; [intros [? ?]; discriminate|].
       intros HF. inversion HF as [|? ? _ HF1]. inversion HF1. contradiction. }
  rewrite Hv2, Hv1, Hx, Hi2, Hi1. cbn [mbind option_bind].
  destruct (write_mem_cases cpu2 (i cpu) (vx / 100) Hm2)
    as [[R0 (cpu3 & -> & _)]|[R0 ->]].
  - split; [intros _|eauto].
    apply List.Forall_cons; [exact R2|]. apply List.Forall_cons; [exact R1|].
    apply List.Forall_cons; [exact R0|]. apply List.Forall_nil.
  - split; [intros [? ?]; discriminate|].
    intros HF. inversion HF as [|? ? _ HF1]. inversion HF1 as [|? ? _ HF2].
    inversion HF2. contradiction.
Qed.

Lemma store_reg_step (cpu0 cpu : machine_t) (reg : Z) :
  0 <= reg <= 15 -> store_inv cpu0 cpu ->
  (is_Some (store_reg reg cpu) <-> in_memory (i cpu0 + reg)) /\
  (forall cpu', store_reg reg cpu = Some cpu' -> store_inv cpu0 cpu').
Proof.
  intros Hr (Hv & Hm & Hi). unfold store_reg.
  destruct (reg_read cpu reg Hv Hr) as [vr ->]. cbn [mbind option_bind].
  rewrite Hi.
  destruct (write_mem_cases cpu (i cpu0 + reg) vr Hm)
    as [[R (cpu1 & -> & Hv1 & Hi1 & Hm1)]|[R ->]].
  - split; [split; eauto|]. intros cpu' H. inversion H. subst.
    unfold store_inv. rewrite Hv1, Hi1. tauto.
  - split; [|discriminate].
    split; [intros [? ?]; discriminate|contradiction].
Qed.

Lemma load_reg_step (cpu0 cpu : machine_t) (reg : Z) :
  0 <= reg <= 15 -> length (mem cpu0) = 4096%nat -> load_inv cpu0 cpu ->
  (is_Some (load_reg reg cpu) <-> in_memory (i cpu0 + reg)) /\
  (forall cpu', load_reg reg cpu = Some cpu' -> load_inv cpu0 cpu').
Proof.
  intros Hr Hm0 (Hv & Hm & Hi). unfold load_reg, in_memory.
  rewrite Hm, Hi.
  destruct (aget (mem cpu0) (i cpu0 + reg)) as [b|] eqn:E;
    cbn [mbind option_bind].
  - apply aget_Some_range in E.
    rewrite write_v_in_range by assumption.
    split; [split; [intros _; lia|eauto]|].
    intros cpu' H. inversion H. subst.
    unfold load_inv. cbn [v mem i set_v]. rewrite length_insert. tauto.
  - apply aget_None_iff in E. split; [|discriminate].
    split; [intros [? ?]; discriminate|intros; lia].
Qed.

Lemma bulk_defined_iff (cpu : machine_t) (opcode : Z) :
  wf_machine cpu -> OPCODE_KK opcode = 0x55 \/ OPCODE_KK opcode = 0x65 ->
  is_Some (nibble_F cpu opcode) <-> Forall in_memory (bulk_indices cpu opcode).
Proof.
  intros (Hm & _ & Hv & _) Hkk. unfold nibble_F, bulk_indices.
  rewrite Forall_map.
  pose proof (OPCODE_X_range opcode) as HX.
  assert (Hreg : forall k, k ∈ seqZ 0 (OPCODE_X opcode + 1) -> 0 <= k <= 15).
  { intros k Hk. apply elem_of_seqZ in Hk. lia. }
  destruct Hkk as [-> | ->]; cbn [Z.eqb Pos.eqb].
  - apply (for_each_defined_iff (store_inv cpu)
             (fun reg => in_memory (i cpu + reg))).
    + intros k s s' Hk Hs. apply (store_reg_step cpu s k (Hreg k Hk) Hs).
    + intros k s Hk Hs. apply (store_reg_step cpu s k (Hreg k Hk) Hs).
    + unfold store_inv. tauto.
  - apply (for_each_defined_iff (load_inv cpu)
             (fun reg => in_memory (i cpu + reg))).
    + intros k s s' Hk Hs. apply (load_reg_step cpu s k (Hreg k Hk) Hm Hs).
    + intros k s Hk Hs. apply (load_reg_step cpu s k (Hreg k Hk) Hm Hs).
    + unfold load_inv. tauto.
Qed.

Lemma offsets_in_memory (a n : Z) :
  Forall in_memory (map (fun k => a + k) (seqZ 0 n)) <->
  n <= 0 \/ (0 <= a /\ a + n - 1 <= 0xFFF).
Proof.
  rewrite Forall_map, Forall_forall. unfold in_memory. split.
  - intros H. destruct (Z_le_dec n 0) as [Hn|Hn]; [left; exact Hn|right].
    assert (H0 : 0 ∈ seqZ 0 n) by (apply elem_of_seqZ; lia).
    assert (H1 : n - 1 ∈ seqZ 0 n) by (apply elem_of_seqZ; lia).
    apply H in H0. apply H in H1. lia.
  - intros H k Hk. apply elem_of_seqZ in Hk. lia.
Qed.

(** C5, as the code has it: the memory indices of the sprite fetch of DXYN
    (I..I+N-1), of the BCD store of FX33 (I+2, I+1, I) and of the bulk
    transfers FX55/FX65 (I..I+X) are the address register plus the offset,
    used with no mask and no bounds check.  The instruction stays within the
    4096 memory bytes exactly when all these indices lie in [0, 0xFFF], that
    is when N = 0 or I+N-1 <= 0xFFF for DXYN, when I+2 <= 0xFFF for FX33 and
    when I+X <= 0xFFF for FX55/FX65; otherwise it indexes memory out of
    bounds. *)
Theorem address_register_accesses (cpu : machine_t) (opcode : Z) :
  wf_machine cpu ->
  (is_Some (nibble_D cpu opcode) <->
   Forall in_memory (sprite_indices cpu opcode)) /\
  (OPCODE_KK opcode = 0x33 ->
   (is_Some (nibble_F cpu opcode) <-> Forall in_memory (bcd_indices cpu))) /\
  (OPCODE_KK opcode = 0x55 \/ OPCODE_KK opcode = 0x65 ->
   (is_Some (nibble_F cpu opcode) <->
    Forall in_memory (bulk_indices cpu opcode))) /\
  (Forall in_memory (sprite_indices cpu opcode) <->
   OPCODE_N opcode = 0 \/
   (0 <= i cpu /\ i cpu + OPCODE_N opcode - 1 <= 0xFFF)) /\
  (Forall in_memory (bcd_indices cpu) <-> 0 <= i cpu /\ i cpu + 2 <= 0xFFF) /\
  (Forall in_memory (bulk_indices cpu opcode) <->
   0 <= i cpu /\ i cpu + OPCODE_X opcode <= 0xFFF).
Proof.
  intros Hwf.
  pose proof (OPCODE_N_range opcode) as HN.
  pose proof (OPCODE_X_range opcode) as HX.
  split; [apply nibble_D_defined_iff; exact Hwf|].
  split; [apply bcd_defined_iff; exact Hwf|].
  split; [apply bulk_defined_iff; exact Hwf|].
  split; [|split].
  - unfold sprite_indices. rewrite offsets_in_memory. lia.
  - unfold bcd_indices, in_memory. split.
    + intros HF. inversion HF as [|? ? Ha HF1].
      inversion HF1 as [|? ? Hb HF2]. inversion HF2 as [|? ? Hc _]. lia.
    + intros H. apply List.Forall_cons; [lia|].
      apply List.Forall_cons; [lia|]. apply List.Forall_cons; [lia|].
      apply List.Forall_nil.
  - unfold bulk_indices. rewrite offsets_in_memory. lia.
Qed.

Lemma address_register_accesses_witness :
  let cpu := set_i (boot []) 0xFFD in
  (is_Some (nibble_D cpu 0xD013) <->
   Forall in_memory (sprite_indices cpu 0xD013)) /\
  (is_Some (nibble_F cpu 0xF033) <-> Forall in_memory (bcd_indices cpu)) /\
  (is_Some (nibble_F cpu 0xF355) <->
   Forall in_memory (bulk_indices cpu 0xF355)) /\
  (Forall in_memory (bulk_indices cpu 0xF355) <->
   0 <= i cpu /\ i cpu + OPCODE_X 0xF355 <= 0xFFF).
Proof.
  intro cpu.
  assert (Hwf : wf_machine cpu) by (repeat split).
  split; [apply (address_register_accesses cpu 0xD013 Hwf)|].
  split; [apply (address_register_accesses cpu 0xF033 Hwf); reflexivity|].
  split; [apply (address_register_accesses cpu 0xF355 Hwf); left; reflexivity|].
  apply (address_register_accesses cpu 0xF355 Hwf).
Defined.

(** C5 as stated fails: program AFFF F033, run from reset, sets I to 0xFFF
    and then computes the BCD indices 0x1001, 0x1000 and 0xFFF, the first two
    of which are not among the 4096 memory bytes; the store is out of
    bounds. *)
Lemma bcd_store_out_of_bounds_counterexample :
  let cpu := boot [0xAF; 0xFF; 0xF0; 0x33] in
  exists s1,
    step_machine 0 cpu = Some s1 /\ i s1 = 0xFFF /\
    fetch s1 = Some 0xF033 /\
    bcd_indices s1 = [0x1001; 0x1000; 0xFFF] /\
    ~ Forall in_memory (bcd_indices s1) /\
    step_machine 0 s1 = None.
Proof.
  simpl. eexists.
  split; [vm_compute; reflexivity|]. split; [reflexivity|].
  split; [vm_compute; reflexivity|]. split; [reflexivity|].
  split; [|vm_compute; reflexivity].
  intros HF. inversion HF as [|? ? H _]. unfold in_memory in H.
  cbn [i set_i set_pc] in H. vm_compute in H. destruct H as [_ H].
  apply H. reflexivity.
Qed.

(** ** Pixel updates on the screen *)

Lemma plot_app (ps qs : list (Z * Z)) (st : Z * list Z) :
  plot (ps ++ qs) st = plot qs (plot ps st).
Proof. revert st. induction ps as [|pb ps IH]; intros st; simpl; auto. Qed.

Lemma plot_length (ps : list (Z * Z)) :
  forall st, length (snd (plot ps st)) = length (snd st).
Proof.
  induction ps as [|pb ps IH]; intros st; simpl; [reflexivity|].
  rewrite IH. unfold plot1. simpl. apply length_insert.
Qed.

Lemma cell_lookup (scr : list Z) (p c : Z) :
  0 <= p -> scr !! Z.to_nat p = Some c -> cell scr p = c.
Proof.
  intros Hp H. unfold cell, aget.
  destruct (Z.leb_spec 0 p); [|lia]. rewrite H. reflexivity.
Qed.

Lemma cell_insert_ne (scr : list Z) (p q x : Z) :
  Z.to_nat q <> Z.to_nat p -> cell (<[Z.to_nat q := x]> scr) p = cell scr p.
Proof.
  intros Hne. unfold cell, aget. destruct (0 <=? p); [|reflexivity].
  rewrite list_lookup_insert_ne by exact Hne. reflexivity.
Qed.

(** Cells that no update addresses are left alone. *)
Lemma plot_lookup_other (ps : list (Z * Z)) (n : nat) :
  forall st, n ∉ natpos <$> ps -> snd (plot ps st) !! n = snd st !! n.
Proof.
  induction ps as [|pb ps IH]; intros st Hn; simpl; [reflexivity|].
  rewrite fmap_cons in Hn. apply not_elem_of_cons in Hn as [Hne Hn].
  rewrite IH by exact Hn. unfold plot1. simpl.
  apply list_lookup_insert_ne. unfold natpos in Hne. congruence.
Qed.

(** A cell addressed by exactly one update is XORed with its bit. *)
Lemma plot_lookup_hit (ps : list (Z * Z)) :
  forall st p b c,
    NoDup (natpos <$> ps) -> (p, b) ∈ ps -> 0 <= p ->
    snd st !! Z.to_nat p = Some c ->
    snd (plot ps st) !! Z.to_nat p = Some (Z.lxor c b).
Proof.
  induction ps as [|pb ps IH]; intros st p b c Hnd Hin Hp Hc.
  - inversion Hin.
  - rewrite fmap_cons in Hnd. apply NoDup_cons in Hnd as [Hfresh Hnd].
    simpl. apply elem_of_cons in Hin as [<-|Hin].
    + rewrite plot_lookup_other by exact Hfresh.
      unfold plot1. cbn [fst snd].
      rewrite (cell_lookup _ _ _ Hp Hc).
      apply list_lookup_insert_eq. apply lookup_lt_Some in Hc. exact Hc.
    + apply (IH _ p b c Hnd Hin Hp).
      unfold plot1. cbn [fst snd].
      rewrite list_lookup_insert_ne; [exact Hc|].
      intros Heq. apply Hfresh.
      change (natpos pb) with (Z.to_nat (fst pb)). rewrite Heq.
      change (Z.to_nat p) with (natpos (p, b)).
      apply list_elem_of_fmap_2. exact Hin.
Qed.

Lemma lxor_twice (c b : Z) : Z.lxor (Z.lxor c b) b = c.
Proof. rewrite Z.lxor_assoc, Z.lxor_nilpotent, Z.lxor_0_r. reflexivity. Qed.

(** Applying the same updates a second time restores the screen. *)
Lemma plot_twice_screen (ps : list (Z * Z)) (f f' : Z) (scr : list Z) :
  NoDup (natpos <$> ps) ->
  (forall pb, pb ∈ ps -> 0 <= fst pb < Z.of_nat (length scr)) ->
  snd (plot ps (f', snd (plot ps (f, scr)))) = scr.
Proof.
  intros Hnd Hrange. apply list_eq. intros n.
  destruct (decide (n ∈ natpos <$> ps)) as [Hin|Hout].
  - apply list_elem_of_fmap in Hin as ([p b] & -> & Hin).
    specialize (Hrange _ Hin). cbn [fst] in Hrange. unfold natpos. cbn [fst].
    destruct (lookup_lt_is_Some_2 scr (Z.to_nat p) ltac:(lia)) as [c Hc].
    rewrite (plot_lookup_hit ps _ p b (Z.lxor c b) Hnd Hin ltac:(lia)).
    + rewrite lxor_twice, Hc. reflexivity.
    + cbn [snd]. apply (plot_lookup_hit ps _ p b c Hnd Hin ltac:(lia)).
      exact Hc.
  - rewrite plot_lookup_other by exact Hout. cbn [snd].
    rewrite plot_lookup_other by exact Hout. reflexivity.
Qed.

(** ** The collision flag *)

Lemma land_1 (c : Z) : Z.land c 1 = c mod 2.
Proof. exact (Z.land_ones c 1 ltac:(lia)). Qed.

Lemma land_bit (c : Z) : Z.land c 1 = 0 \/ Z.land c 1 = 1.
Proof.
  rewrite land_1. pose proof (Z.mod_pos_bound c 2 ltac:(lia)). lia.
Qed.

Lemma plot1_flag (f c b : Z) :
  f = 0 \/ f = 1 -> b = 0 \/ b = 1 ->
  to_byte (Z.lor f (Z.land c b)) = b2i ((f =? 1) || negb (Z.land c b =? 0)).
Proof.
  intros [-> | ->] [-> | ->]; rewrite ?Z.land_0_r;
    try reflexivity; destruct (land_bit c) as [-> | ->]; reflexivity.
Qed.

Lemma existsb_agree {A : Type} (g h : A -> bool) (l : list A) :
  (forall x, x ∈ l -> g x = h x) -> existsb g l = existsb h l.
Proof.
  induction l as [|x l IH]; intros H; simpl; [reflexivity|].
  rewrite (H x) by (left; reflexivity). f_equal.
  apply IH. intros y Hy. apply H. right. exact Hy.
Qed.

(** With every cell addressed at most once, the flag after the updates
    tells whether one of them met a lit cell of the screen they started
    from. *)
Lemma plot_flag (ps : list (Z * Z)) :
  forall f scr,
    f = 0 \/ f = 1 ->
    (forall pb, pb ∈ ps -> snd pb = 0 \/ snd pb = 1) ->
    NoDup (natpos <$> ps) ->
    fst (plot ps (f, scr)) = b2i ((f =? 1) || existsb (hits scr) ps).
Proof.
  induction ps as [|pb ps IH]; intros f scr Hf Hb Hnd.
  - simpl. destruct Hf as [-> | ->]; reflexivity.
  - rewrite fmap_cons in Hnd. apply NoDup_cons in Hnd as [Hfresh Hnd].
    assert (Hpb : snd pb = 0 \/ snd pb = 1) by (apply Hb; left; reflexivity).
    cbn [plot]. unfold plot1 at 1. cbn [fst snd].
    rewrite plot1_flag by assumption.
    rewrite IH.
    + f_equal. cbn [existsb]. fold (hits scr pb).
      rewrite (existsb_agree (hits _) (hits scr)).
      * destruct (f =? 1), (hits scr pb), (existsb (hits scr) ps);
          reflexivity.
      * intros qb Hq. unfold hits. rewrite cell_insert_ne; [reflexivity|].
        intros Heq. apply Hfresh.
        change (natpos pb) with (Z.to_nat (fst pb)). rewrite Heq.
        apply (list_elem_of_fmap_2 natpos). exact Hq.
    + destruct ((f =? 1) || negb (Z.land (cell scr (fst pb)) (snd pb) =? 0));
        [right|left]; reflexivity.
    + intros qb Hq. apply Hb. right. exact Hq.
    + exact Hnd.
Qed.

(** A lit sprite bit meets a lit cell after the first draw exactly when the
    cell was not lit before it. *)
Lemma hits_after_xor (c b : Z) :
  b = 0 \/ b = 1 ->
  negb (Z.land (Z.lxor c b) b =? 0) = (b =? 1) && (Z.land c 1 =? 0).
Proof.
  intros [-> | ->].
  - rewrite Z.land_0_r. reflexivity.
  - rewrite !land_1, <- !Z.bit0_mod, Z.lxor_spec.
    destruct (Z.testbit c 0); reflexivity.
Qed.

(** ** The pixels of one sprite *)

Lemma pixel_pos_inj (vx vy r1 c1 r2 c2 : Z) :
  0 <= r1 < 16 -> 0 <= r2 < 16 -> 0 <= c1 < 8 -> 0 <= c2 < 8 ->
  Z.to_nat (pixel_pos vx vy r1 c1) = Z.to_nat (pixel_pos vx vy r2 c2) ->
  r1 = r2 /\ c1 = c2.
Proof.
  intros Hr1 Hr2 Hc1 Hc2. unfold pixel_pos.
  change 31 with (Z.ones 5). change 63 with (Z.ones 6).
  rewrite !Z.land_ones by lia.
  change (2 ^ 5) with 32. change (2 ^ 6) with 64.
  pose proof (Z.div_mod (vy + r1) 32 ltac:(lia)).
  pose proof (Z.div_mod (vy + r2) 32 ltac:(lia)).
  pose proof (Z.div_mod (vx + c1) 64 ltac:(lia)).
  pose proof (Z.div_mod (vx + c2) 64 ltac:(lia)).
  pose proof (Z.mod_pos_bound (vy + r1) 32 ltac:(lia)).
  pose proof (Z.mod_pos_bound (vy + r2) 32 ltac:(lia)).
  pose proof (Z.mod_pos_bound (vx + c1) 64 ltac:(lia)).
  pose proof (Z.mod_pos_bound (vx + c2) 64 ltac:(lia)).
  lia.
Qed.

Lemma sprite_pixels_elem (cpu : machine_t) (opcode : Z) (pb : Z * Z) :
  pb ∈ sprite_pixels cpu opcode <->
  exists row col,
    0 <= row < OPCODE_N opcode /\ 0 <= col < 8 /\
    pb = (pixel_pos (reg cpu (OPCODE_X opcode)) (reg cpu (OPCODE_Y opcode))
                    row col,
          pixel_bit (memb cpu (i cpu + row)) col).
Proof.
  unfold sprite_pixels. rewrite list_elem_of_bind. split.
  - intros (row & Hpb & Hrow). apply list_elem_of_fmap in Hpb as (col & -> & Hcol).
    apply elem_of_seqZ in Hrow, Hcol. exists row, col.
    split; [lia|]. split; [lia|reflexivity].
  - intros (row & col & Hrow & Hcol & ->). exists row. split.
    + apply list_elem_of_fmap. exists col. split; [reflexivity|].
      apply elem_of_seqZ. lia.
    + apply elem_of_seqZ. lia.
Qed.

Lemma sprite_pixels_bits (cpu : machine_t) (opcode : Z) (pb : Z * Z) :
  pb ∈ sprite_pixels cpu opcode -> snd pb = 0 \/ snd pb = 1.
Proof.
  intros H. apply sprite_pixels_elem in H as (row & col & _ & _ & ->).
  cbn [snd]. unfold pixel_bit, b2i. destruct (negb _); [right|left]; reflexivity.
Qed.

Lemma sprite_pixels_range (cpu : machine_t) (opcode : Z) (pb : Z * Z) :
  pb ∈ sprite_pixels cpu opcode -> 0 <= fst pb < 2048.
Proof.
  intros H. apply sprite_pixels_elem in H as (row & col & _ & _ & ->).
  cbn [fst]. apply pixel_pos_range.
Qed.

Lemma sprite_pixels_NoDup (cpu : machine_t) (opcode : Z) :
  NoDup (natpos <$> sprite_pixels cpu opcode).
Proof.
  pose proof (OPCODE_N_range opcode) as HN.
  apply NoDup_fmap_2_strong.
  - intros pb1 pb2 H1 H2 Heq.
    apply sprite_pixels_elem in H1 as (r1 & c1 & Hr1 & Hc1 & ->).
    apply sprite_pixels_elem in H2 as (r2 & c2 & Hr2 & Hc2 & ->).
    unfold natpos in Heq. cbn [fst] in Heq.
    apply pixel_pos_inj in Heq as [-> ->]; [reflexivity|lia..].
  - unfold sprite_pixels. apply NoDup_bind.
    + intros r1 r2 pb Hr1 Hr2 H1 H2.
      apply elem_of_seqZ in Hr1, Hr2.
      apply list_elem_of_fmap in H1 as (c1 & -> & Hc1).
      apply list_elem_of_fmap in H2 as (c2 & Heq & Hc2).
      apply elem_of_seqZ in Hc1, Hc2.
      apply (f_equal natpos) in Heq. unfold natpos in Heq. cbn [fst] in Heq.
      apply pixel_pos_inj in Heq as [-> _]; [reflexivity|lia..].
    + intros row Hrow. apply elem_of_seqZ in Hrow.
      apply NoDup_fmap_2_strong; [|apply NoDup_seqZ].
      intros c1 c2 Hc1 Hc2 Heq. apply elem_of_seqZ in Hc1, Hc2.
      apply (f_equal natpos) in Heq. unfold natpos in Heq. cbn [fst] in Heq.
      apply pixel_pos_inj in Heq as [_ ->]; [reflexivity|lia..].
    + apply NoDup_seqZ.
Qed.

(** ** DXYN as pixel updates *)

Lemma drawn_regs (cpu0 : machine_t) (st : Z * list Z) (n : Z) :
  length (v cpu0) = 16%nat -> n <> 15 ->
  aget (v (drawn cpu0 st)) n = aget (v cpu0) n.
Proof.
  intros Hl Hn. unfold drawn. cbn [v set_v set_screen].
  apply (aget_aset_ne (v cpu0) _ 15 n (fst st)); [|lia].
  rewrite aset_in_range by lia. reflexivity.
Qed.

Lemma drawn_flag (cpu0 : machine_t) (st : Z * list Z) :
  length (v cpu0) = 16%nat -> aget (v (drawn cpu0 st)) 15 = Some (fst st).
Proof.
  intros Hl. unfold drawn. cbn [v set_v set_screen].
  apply (aget_aset_eq (v cpu0)). rewrite aset_in_range by lia. reflexivity.
Qed.

Lemma reg_value (cpu : machine_t) (n : Z) :
  length (v cpu) = 16%nat -> 0 <= n <= 15 -> aget (v cpu) n = Some (reg cpu n).
Proof.
  intros Hl Hn. unfold reg. destruct (reg_read cpu n Hl Hn) as [x ->].
  reflexivity.
Qed.

Lemma draw_pixel_plot (cpu0 : machine_t) (x y sprite row col : Z)
  (st : Z * list Z) :
  length (v cpu0) = 16%nat -> length (snd st) = 2048%nat ->
  0 <= x < 15 -> 0 <= y < 15 ->
  draw_pixel x y sprite row col (drawn cpu0 st)
  = Some (drawn cpu0
            (plot1 (pixel_pos (reg cpu0 x) (reg cpu0 y) row col,
                    pixel_bit sprite col) st)).
Proof.
  intros Hv Hs Hx Hy. unfold draw_pixel.
  rewrite (drawn_regs cpu0 st x), (drawn_regs cpu0 st y)
    by (assumption || lia).
  rewrite (reg_value cpu0 x), (reg_value cpu0 y) by (assumption || lia).
  rewrite drawn_flag by assumption. cbn [mbind option_bind].
  fold (pixel_pos (reg cpu0 x) (reg cpu0 y) row col).
  fold (pixel_bit sprite col).
  set (pos := pixel_pos (reg cpu0 x) (reg cpu0 y) row col).
  set (bit := pixel_bit sprite col).
  pose proof (pixel_pos_range (reg cpu0 x + col) (reg cpu0 y + row)) as Hpos.
  fold (pixel_pos (reg cpu0 x) (reg cpu0 y) row col) in Hpos. fold pos in Hpos.
  assert (Hc : aget (snd st) pos = Some (cell (snd st) pos)).
  { unfold cell. destruct (aget_in_range (snd st) pos ltac:(lia)) as [c ->].
    reflexivity. }
  change (screen (drawn cpu0 st)) with (snd st). rewrite Hc.
  cbn [mbind option_bind].
  unfold write_v. change (v (drawn cpu0 st)) with (<[15%nat := fst st]> (v cpu0)).
  rewrite aset_in_range by (rewrite length_insert; lia).
  cbn [mbind option_bind screen set_v]. change (Z.to_nat 15) with 15%nat.
  rewrite list_insert_insert_eq.
  change (screen (drawn cpu0 st)) with (snd st). rewrite Hc.
  cbn [mbind option_bind]. rewrite aset_in_range by lia.
  reflexivity.
Qed.

Lemma for_each_plot (cpu0 : machine_t) (mk : Z -> list (Z * Z))
  (body : Z -> machine_t -> option machine_t) (ks : list Z) :
  (forall k st, k ∈ ks -> length (snd st) = 2048%nat ->
     body k (drawn cpu0 st) = Some (drawn cpu0 (plot (mk k) st))) ->
  forall st, length (snd st) = 2048%nat ->
    for_each ks body (drawn cpu0 st) = Some (drawn cpu0 (plot (ks ≫= mk) st)).
Proof.
  induction ks as [|k ks IH]; intros Hb st Hs; [reflexivity|].
  cbn [for_each]. rewrite Hb by (assumption || left; reflexivity).
  cbn [mbind option_bind]. rewrite bind_cons, plot_app.
  apply IH.
  - intros k' st' Hk'. apply Hb. right. exact Hk'.
  - rewrite plot_length. exact Hs.
Qed.

Lemma bind_singletons {A B : Type} (g : A -> B) (l : list A) :
  l ≫= (fun a => [g a]) = g <$> l.
Proof.
  induction l as [|a l IH]; [reflexivity|].
  rewrite bind_cons, IH. reflexivity.
Qed.

Lemma draw_row_plot (cpu0 : machine_t) (x y row : Z) (st : Z * list Z) :
  length (mem cpu0) = 4096%nat -> length (v cpu0) = 16%nat ->
  length (snd st) = 2048%nat -> 0 <= x < 15 -> 0 <= y < 15 ->
  in_memory (i cpu0 + row) ->
  draw_row x y row (drawn cpu0 st)
  = Some (drawn cpu0
            (plot ((fun col => (pixel_pos (reg cpu0 x) (reg cpu0 y) row col,
                                pixel_bit (memb cpu0 (i cpu0 + row)) col))
                   <$> seqZ 0 8) st)).
Proof.
  intros Hm Hv Hs Hx Hy Hin. unfold draw_row, in_memory in *.
  change (mem (drawn cpu0 st)) with (mem cpu0).
  change (i (drawn cpu0 st)) with (i cpu0).
  unfold memb.
  destruct (aget_in_range (mem cpu0) (i cpu0 + row) ltac:(lia)) as [sprite ->].
  cbn [mbind option_bind default].
  rewrite <- bind_singletons.
  apply for_each_plot; [|exact Hs].
  intros col st' _ Hs'. cbn [plot]. apply draw_pixel_plot; assumption.
Qed.

Lemma nibble_D_plot (cpu : machine_t) (opcode : Z) :
  wf_machine cpu ->
  OPCODE_X opcode <> 0xF -> OPCODE_Y opcode <> 0xF ->
  Forall in_memory (sprite_indices cpu opcode) ->
  nibble_D cpu opcode
  = Some (drawn cpu (plot (sprite_pixels cpu opcode) (0, screen cpu))).
Proof.
  intros (Hm & _ & Hv & Hs) HX HY Hin.
  pose proof (OPCODE_X_range opcode). pose proof (OPCODE_Y_range opcode).
  unfold nibble_D. rewrite write_v_in_range by (assumption || lia).
  cbn [mbind option_bind].
  change (set_v cpu (<[Z.to_nat 15:=to_byte 0]> (v cpu)))
    with (drawn cpu (0, screen cpu)).
  unfold sprite_pixels. apply for_each_plot; [|exact Hs].
  intros row st Hrow Hst. apply draw_row_plot; try assumption; try lia.
  unfold sprite_indices in Hin. rewrite Forall_map, Forall_forall in Hin.
  apply Hin. exact Hrow.
Qed.

Lemma drawn_wf (cpu : machine_t) (st : Z * list Z) :
  wf_machine cpu -> length (snd st) = 2048%nat -> wf_machine (drawn cpu st).
Proof.
  intros (Hm & Hst & Hv & Hs) Hl. unfold wf_machine, drawn.
  cbn [mem stack v screen set_v set_screen]. rewrite length_insert. tauto.
Qed.

Lemma drawn_sprite_pixels (cpu : machine_t) (st : Z * list Z) (opcode : Z) :
  length (v cpu) = 16%nat ->
  OPCODE_X opcode <> 0xF -> OPCODE_Y opcode <> 0xF ->
  sprite_pixels (drawn cpu st) opcode = sprite_pixels cpu opcode.
Proof.
  intros Hv HX HY. unfold sprite_pixels, memb, reg.
  change (mem (drawn cpu st)) with (mem cpu).
  change (i (drawn cpu st)) with (i cpu).
  rewrite !drawn_regs by assumption. reflexivity.
Qed.

Lemma drawn_drawn (cpu : machine_t) (fs fs' : Z * list Z) :
  drawn (drawn cpu fs) fs' = drawn cpu fs'.
Proof.
  unfold drawn, set_screen, set_v. simpl.
  rewrite list_insert_insert_eq. reflexivity.
Qed.

(** C8, as the code has it: for coordinate registers X and Y other than
    0xF and a sprite that lies within memory, executing DXYN twice in
    succession restores the framebuffer to its content before the first
    draw; the second draw sets registers[0xF] to 1 exactly when some set
    sprite bit lands on a cell whose pixel bit was clear before the first
    draw, and to 0 otherwise. *)
Theorem draw_twice_restores (cpu : machine_t) (opcode : Z) :
  wf_machine cpu ->
  OPCODE_X opcode <> 0xF -> OPCODE_Y opcode <> 0xF ->
  Forall in_memory (sprite_indices cpu opcode) ->
  exists cpu1 cpu2 (flag : bool),
    nibble_D cpu opcode = Some cpu1 /\
    nibble_D cpu1 opcode = Some cpu2 /\
    screen cpu2 = screen cpu /\
    aget (v cpu2) 0xF = Some (b2i flag) /\
    (flag = true <->
     exists row col,
       0 <= row < OPCODE_N opcode /\ 0 <= col < 8 /\
       pixel_bit (memb cpu (i cpu + row)) col = 1 /\
       Z.land (cell (screen cpu)
                    (pixel_pos (reg cpu (OPCODE_X opcode))
                               (reg cpu (OPCODE_Y opcode)) row col)) 1 = 0).
Proof.
  intros Hwf HX HY Hin. pose proof Hwf as (Hm & _ & Hv & Hs).
  set (ps := sprite_pixels cpu opcode).
  set (fs1 := plot ps (0, screen cpu)).
  set (fs2 := plot ps (0, snd fs1)).
  assert (Hl1 : length (snd fs1) = 2048%nat)
    by (unfold fs1; rewrite plot_length; exact Hs).
  assert (Hnd : NoDup (natpos <$> ps)) by apply sprite_pixels_NoDup.
  exists (drawn cpu fs1), (drawn cpu fs2), (existsb (hits (snd fs1)) ps).
  split; [apply nibble_D_plot; assumption|].
  split.
  { rewrite nibble_D_plot.
    - rewrite drawn_sprite_pixels by assumption. rewrite drawn_drawn.
      reflexivity.
    - apply drawn_wf; assumption.
    - exact HX.
    - exact HY.
    - exact Hin. }
  split.
  { change (screen (drawn cpu fs2)) with (snd fs2). unfold fs2, fs1.
    apply plot_twice_screen; [exact Hnd|].
    intros pb Hpb. apply sprite_pixels_range in Hpb. lia. }
  split.
  { rewrite drawn_flag by exact Hv. unfold fs2.
    rewrite plot_flag.
    - reflexivity.
    - left; reflexivity.
    - apply sprite_pixels_bits.
    - exact Hnd. }
  assert (Hhit : forall pb, pb ∈ ps ->
            hits (snd fs1) pb
            = (snd pb =? 1) && (Z.land (cell (screen cpu) (fst pb)) 1 =? 0)).
  { intros [p b] Hpb. cbn [fst snd].
    pose proof (sprite_pixels_range _ _ _ Hpb) as Hr. cbn [fst] in Hr.
    pose proof (sprite_pixels_bits _ _ _ Hpb) as Hb. cbn [snd] in Hb.
    destruct (lookup_lt_is_Some_2 (screen cpu) (Z.to_nat p) ltac:(lia))
      as [c Hc].
    unfold hits. cbn [fst snd].
    rewrite (cell_lookup (snd fs1) p (Z.lxor c b)); [|lia|].
    - rewrite (cell_lookup (screen cpu) p c) by (lia || assumption).
      apply hits_after_xor. exact Hb.
    - unfold fs1. apply (plot_lookup_hit ps _ p b c Hnd Hpb); [lia|exact Hc]. }
  rewrite existsb_exists. split.
  - intros (pb & Hpb & Hh). apply list_elem_of_In in Hpb.
    rewrite (Hhit pb Hpb) in Hh. apply andb_true_iff in Hh as [Hb Hc].
    apply Z.eqb_eq in Hb. apply Z.eqb_eq in Hc.
    apply sprite_pixels_elem in Hpb as (row & col & Hrow & Hcol & ->).
    exists row, col. cbn [fst snd] in *. tauto.
  - intros (row & col & Hrow & Hcol & Hb & Hc).
    set (pb := (pixel_pos (reg cpu (OPCODE_X opcode))
                          (reg cpu (OPCODE_Y opcode)) row col,
                pixel_bit (memb cpu (i cpu + row)) col)).
    assert (Hpb : pb ∈ ps) by (apply sprite_pixels_elem; eauto).
    exists pb. split; [apply list_elem_of_In; exact Hpb|].
    rewrite (Hhit pb Hpb). unfold pb. cbn [fst snd].
    rewrite Hb, Hc. reflexivity.
Qed.

Lemma draw_twice_restores_witness :
  let cpu := set_i (boot []) 0x50 in
  exists cpu1 cpu2 (flag : bool),
    nibble_D cpu 0xD015 = Some cpu1 /\
    nibble_D cpu1 0xD015 = Some cpu2 /\
    screen cpu2 = screen cpu /\
    aget (v cpu2) 0xF = Some (b2i flag) /\
    (flag = true <->
     exists row col,
       0 <= row < OPCODE_N 0xD015 /\ 0 <= col < 8 /\
       pixel_bit (memb cpu (i cpu + row)) col = 1 /\
       Z.land (cell (screen cpu)
                    (pixel_pos (reg cpu (OPCODE_X 0xD015))
                               (reg cpu (OPCODE_Y 0xD015)) row col)) 1 = 0).
Proof.
  intro cpu. apply (draw_twice_restores cpu 0xD015).
  - repeat split.
  - vm_compute. discriminate.
  - vm_compute. discriminate.
  - unfold sprite_indices. apply offsets_in_memory. right.
    change (i cpu) with 0x50. change (OPCODE_N 0xD015) with 5. lia.
Defined.

(** C8 as stated fails on its collision clause: on a blank screen the glyph
    at 0x50 is drawn at (0,0) without collision, and drawing it a second
    time restores the blank screen but sets registers[0xF] to 1. *)
Lemma second_draw_collision_counterexample :
  let cpu := set_i (boot []) 0x50 in
  exists cpu1 cpu2,
    nibble_D cpu 0xD015 = Some cpu1 /\ aget (v cpu1) 0xF = Some 0 /\
    nibble_D cpu1 0xD015 = Some cpu2 /\ screen cpu2 = screen cpu /\
    aget (v cpu2) 0xF = Some 1.
Proof.
  cbv zeta. eexists. eexists.
  split; [vm_compute; reflexivity|]. split; [reflexivity|].
  split; [vm_compute; reflexivity|]. split; reflexivity.
Qed.

(** With the flag register as X coordinate the draw moves while it runs:
    the sprite byte 0xC0 drawn twice over a lit pixel at (0,0) leaves three
    lit pixels instead of one. *)
Example draw_twice_flag_coordinate :
  let cpu := set_screen (set_i (boot [0xC0]) 0x200)
                        (<[0%nat := 1]> (replicate 2048 0)) in
  option_map (fun c => take 4 (screen c))
    (cpu1 ← nibble_D cpu 0xDF01; nibble_D cpu1 0xDF01)
  = Some [1; 1; 1; 0]
  /\ take 4 (screen cpu) = [1; 0; 0; 0].
Proof. vm_compute. split; reflexivity. Qed.

(** * Further properties of the code *)

(** ** Hexadecimal digits *)

(** A boolean check that holds on a whole interval holds at each of its
    points. *)
Lemma forallb_seqZ (f : Z -> bool) (a n z : Z) :
  forallb f (seqZ a n) = true -> a <= z < a + n -> f z = true.
Proof.
  intros H Hz. rewrite forallb_forall in H. apply H.
  apply list_elem_of_In, elem_of_seqZ. exact Hz.
Qed.

(** X1: on any character value, [hex_to_bin] with a signed [char] returns
    the digit's value for '0'-'9', 'A'-'F' and 'a'-'f' (case does not
    matter) and -1 for every other character; with an unsigned [char] the
    -1 comes back as 255. *)
Theorem hex_to_bin_value (hex : Z) :
  -128 <= hex <= 255 ->
  hex_to_bin true hex = hex_value hex /\
  hex_to_bin false hex = hex_value hex mod 256 /\
  (hex_to_bin true hex = -1 \/ 0 <= hex_to_bin true hex <= 15).
Proof.
  intros Hr.
  pose (f := fun z =>
          (hex_to_bin true z =? hex_value z) &&
          (hex_to_bin false z =? hex_value z mod 256) &&
          ((hex_to_bin true z =? -1) ||
           ((0 <=? hex_to_bin true z) && (hex_to_bin true z <=? 15)))).
  assert (H : f hex = true).
  { apply (forallb_seqZ f (-128) 384); [vm_compute; reflexivity|lia]. }
  unfold f in H.
  apply andb_true_iff in H as [H H3]. apply andb_true_iff in H as [H1 H2].
  apply Z.eqb_eq in H1. apply Z.eqb_eq in H2.
  split; [exact H1|]. split; [exact H2|].
  apply orb_true_iff in H3 as [H3|H3].
  - left. apply Z.eqb_eq. exact H3.
  - right. apply andb_true_iff in H3 as [Ha Hb].
    apply Z.leb_le in Ha. apply Z.leb_le in Hb. lia.
Qed.

Lemma hex_to_bin_value_witness :
  hex_to_bin true 102 = hex_value 102 /\
  hex_to_bin false 102 = hex_value 102 mod 256 /\
  (hex_to_bin true 102 = -1 \/ 0 <= hex_to_bin true 102 <= 15).
Proof. apply (hex_to_bin_value 102). lia. Defined.

(** ** The hex loader *)

Lemma hex_to_bin_checked (hex : Z) :
  is_char hex ->
  hex_to_bin true hex = hex_value hex /\
  hex_to_bin false hex = hex_value hex mod 256.
Proof.
  intros Hr. unfold is_char in Hr.
  pose (f := fun z => (hex_to_bin true z =? hex_value z) &&
                      (hex_to_bin false z =? hex_value z mod 256)).
  assert (H : f hex = true).
  { apply (forallb_seqZ f (-128) 384); [vm_compute; reflexivity|lia]. }
  unfold f in H. apply andb_true_iff in H as [H1 H2].
  apply Z.eqb_eq in H1. apply Z.eqb_eq in H2. tauto.
Qed.

Lemma hex_value_range (hex : Z) : hex_value hex = -1 \/ 0 <= hex_value hex <= 15.
Proof.
  unfold hex_value.
  destruct (Z.leb_spec 48 hex), (Z.leb_spec hex 57); simpl; try lia;
    destruct (Z.leb_spec 65 hex), (Z.leb_spec hex 70); simpl; try lia;
    destruct (Z.leb_spec 97 hex), (Z.leb_spec hex 102); simpl; lia.
Qed.

Lemma nibbles_join (h l : Z) :
  0 <= h <= 15 -> 0 <= l <= 15 -> Z.lor (Z.shiftl h 4) l = 16 * h + l.
Proof.
  intros Hh Hl.
  pose (f := fun z => Z.lor (Z.shiftl (z / 16) 4) (z mod 16) =? z).
  assert (H : f (16 * h + l) = true).
  { apply (forallb_seqZ f 0 256); [vm_compute; reflexivity|lia]. }
  unfold f in H. apply Z.eqb_eq in H.
  replace ((16 * h + l) / 16) with h in H
    by (apply Z.div_unique with (r := l); lia).
  replace ((16 * h + l) mod 16) with l in H
    by (apply Z.mod_unique with (q := h); lia).
  exact H.
Qed.

(** Induction over a list read two elements at a time. *)
Lemma pairs_ind (P : list Z -> Prop) :
  P [] -> (forall x, P [x]) ->
  (forall hi lo rest, P rest -> P (hi :: lo :: rest)) ->
  forall l, P l.
Proof.
  intros H0 H1 H2 l.
  assert (H : P l /\ forall x, P (x :: l)).
  { induction l as [|a l [IHa IHb]]; [split; [exact H0|exact H1]|].
    split; [apply IHb|]. intros x. apply H2. exact IHa. }
  apply H.
Qed.

Lemma set_mem_same (cpu : machine_t) : set_mem cpu (mem cpu) = cpu.
Proof. destruct cpu. reflexivity. Qed.

(** What one in-bounds memory write does. *)
Lemma write_mem_in_range (cpu : machine_t) (n x : Z) :
  0 <= n < Z.of_nat (length (mem cpu)) ->
  write_mem cpu n x
  = Some (set_mem cpu (<[Z.to_nat n := to_byte x]> (mem cpu))).
Proof. intros Hn. unfold write_mem. rewrite aset_in_range by exact Hn. reflexivity. Qed.

Lemma aget_insert_ne (a : list Z) (n m x : Z) :
  0 <= n -> n <> m -> aget (<[Z.to_nat n := x]> a) m = aget a m.
Proof.
  intros Hn Hne. unfold aget. destruct (Z.leb_spec 0 m); [|reflexivity].
  apply list_lookup_insert_ne. lia.
Qed.

Lemma load_hex_loop_bounds (signed : bool) (hexfile : list Z) :
  forall mempos machine,
    0x200 <= mempos <= 0xFFF -> length (mem machine) = 4096%nat ->
    exists status machine',
      load_hex_loop signed hexfile mempos machine = Some (status, machine') /\
      (status = 0 \/ status = 1) /\
      length (mem machine') = 4096%nat /\
      machine' = set_mem machine (mem machine') /\
      forall a, ~ (mempos <= a <= 0xFFF) ->
                aget (mem machine') a = aget (mem machine) a.
Proof.
  induction hexfile as [|x|hi lo rest IH] using pairs_ind;
    intros mempos machine Hpos Hlen.
  - exists 0, machine. rewrite set_mem_same. simpl. tauto.
  - exists 0, machine. rewrite set_mem_same. simpl. tauto.
  - cbn [load_hex_loop].
    destruct ((hex_to_bin signed hi =? -1) || (hex_to_bin signed lo =? -1)).
    { exists 1, machine. rewrite set_mem_same. tauto. }
    rewrite write_mem_in_range by lia. cbn [mbind option_bind].
    set (m1 := set_mem machine _).
    assert (Hlen1 : length (mem m1) = 4096%nat)
      by (unfold m1; cbn [mem set_mem]; rewrite length_insert; exact Hlen).
    assert (Hout : forall a, ~ (mempos <= a <= 0xFFF) ->
                     aget (mem m1) a = aget (mem machine) a).
    { intros a Ha. unfold m1. cbn [mem set_mem].
      apply aget_insert_ne; lia. }
    destruct (Z.gtb_spec (mempos + 1) 0xFFF) as [Hend|Hmore].
    + exists 0, m1. split; [reflexivity|]. split; [tauto|].
      split; [exact Hlen1|]. split; [reflexivity|exact Hout].
    + destruct (IH (mempos + 1) m1 ltac:(lia) Hlen1)
        as (status & m2 & -> & Hst & Hlen2 & Heq & Hout2).
      exists status, m2. split; [reflexivity|]. split; [exact Hst|].
      split; [exact Hlen2|]. split; [rewrite Heq at 1; reflexivity|].
      intros a Ha. rewrite Hout2 by lia. apply Hout. exact Ha.
Qed.

(** X2: whatever the file holds, [load_hex] ends with status 0 or 1, never
    indexes memory out of bounds, and writes nothing but memory bytes 0x200
    to 0xFFF: the font, the registers and the rest of the machine are as
    before. *)
Theorem load_hex_writes_program_area (signed : bool) (hexfile : list Z)
  (machine : machine_t) :
  length (mem machine) = 4096%nat ->
  exists status machine',
    load_hex signed hexfile machine = Some (status, machine') /\
    (status = 0 \/ status = 1) /\
    length (mem machine') = 4096%nat /\
    machine' = set_mem machine (mem machine') /\
    forall a, ~ (0x200 <= a <= 0xFFF) ->
              aget (mem machine') a = aget (mem machine) a.
Proof.
  intros Hlen. apply load_hex_loop_bounds; [lia|exact Hlen].
Qed.

Lemma load_hex_writes_program_area_witness :
  exists status machine',
    load_hex true [65; 98; 122] (fst init_machine) = Some (status, machine') /\
    (status = 0 \/ status = 1) /\
    length (mem machine') = 4096%nat /\
    machine' = set_mem (fst init_machine) (mem machine') /\
    forall a, ~ (0x200 <= a <= 0xFFF) ->
              aget (mem machine') a = aget (mem (fst init_machine)) a.
Proof.
  apply (load_hex_writes_program_area true [65; 98; 122] (fst init_machine)).
  reflexivity.
Defined.

Lemma hex_pairs_chars (hi lo : Z) (rest : list Z) :
  Forall is_char (hi :: lo :: rest) ->
  is_char hi /\ is_char lo /\ Forall is_char rest.
Proof.
  intros H. inversion H as [|? ? Hhi H1]; subst.
  inversion H1 as [|? ? Hlo H2]; subst. tauto.
Qed.

Lemma pair_byte_stored (hi lo : Z) :
  is_char hi -> is_char lo -> pair_valid (hi, lo) ->
  hex_to_bin true hi <> -1 /\ hex_to_bin true lo <> -1 /\
  to_byte (Z.lor (Z.shiftl (hex_to_bin true hi) 4) (hex_to_bin true lo))
  = pair_byte (hi, lo).
Proof.
  intros Hhi Hlo [Vhi Vlo]. cbn [fst snd] in *.
  destruct (hex_to_bin_checked hi Hhi) as [-> _].
  destruct (hex_to_bin_checked lo Hlo) as [-> _].
  split; [exact Vhi|]. split; [exact Vlo|].
  destruct (hex_value_range hi) as [?|Rh]; [contradiction|].
  destruct (hex_value_range lo) as [?|Rl]; [contradiction|].
  rewrite nibbles_join by assumption. unfold pair_byte, to_byte. cbn [fst snd].
  apply Z.mod_small. lia.
Qed.

Lemma load_hex_loop_decodes (hexfile : list Z) :
  forall mempos machine,
    Forall is_char hexfile -> Forall pair_valid (hex_pairs hexfile) ->
    0x200 <= mempos ->
    mempos + Z.of_nat (length (hex_pairs hexfile)) <= 0x1000 ->
    length (mem machine) = 4096%nat ->
    load_hex_loop true hexfile mempos machine
    = Some (0, set_mem machine
                 (take (Z.to_nat mempos) (mem machine) ++ hex_bytes hexfile
                  ++ drop (Z.to_nat mempos + length (hex_bytes hexfile))
                          (mem machine))).
Proof.
  induction hexfile as [|x|hi lo rest IH] using pairs_ind;
    intros mempos machine Hch Hval Hpos Hfit Hlen.
  - cbn. rewrite Nat.add_0_r, take_drop, set_mem_same. reflexivity.
  - cbn. rewrite Nat.add_0_r, take_drop, set_mem_same. reflexivity.
  - apply hex_pairs_chars in Hch as (Chi & Clo & Crest).
    cbn [hex_pairs] in Hval, Hfit. inversion Hval as [|? ? Vp Vrest]; subst.
    destruct (pair_byte_stored hi lo Chi Clo Vp) as (Nhi & Nlo & Hbyte).
    cbn [length] in Hfit. cbn [load_hex_loop].
    destruct (Z.eqb_spec (hex_to_bin true hi) (-1)); [contradiction|].
    destruct (Z.eqb_spec (hex_to_bin true lo) (-1)); [contradiction|].
    cbn [orb]. rewrite write_mem_in_range by lia. cbn [mbind option_bind].
    rewrite Hbyte. set (p := Z.to_nat mempos). set (b := pair_byte (hi, lo)).
    assert (Hp : (p < length (mem machine))%nat) by lia.
    unfold hex_bytes. cbn [hex_pairs fmap list_fmap length].
    fold (hex_bytes rest). fold b.
    destruct (Z.gtb_spec (mempos + 1) 0xFFF) as [Hend|Hmore].
    + assert (Hnil : hex_pairs rest = [])
        by (destruct (hex_pairs rest); [reflexivity|cbn [length] in Hfit; lia]).
      unfold hex_bytes. rewrite Hnil. cbn [fmap list_fmap length app].
      do 3 f_equal. rewrite insert_take_drop by exact Hp.
      replace (p + 1)%nat with (S p) by lia. reflexivity.
    + rewrite IH; try assumption; try lia.
      2: { cbn [mem set_mem]. rewrite length_insert. exact Hlen. }
      cbn [mem set_mem]. do 2 f_equal.
      change (set_mem (set_mem machine ?a) ?b) with (set_mem machine b).
      f_equal.
      replace (Z.to_nat (mempos + 1)) with (S p) by lia.
      rewrite (take_S_r _ p b) by (apply list_lookup_insert_eq; exact Hp).
      rewrite take_insert_ge by lia.
      rewrite drop_insert_lt by lia.
      rewrite <- app_assoc. cbn [app].
      replace (p + S (length (hex_bytes rest)))%nat
        with (S p + length (hex_bytes rest))%nat by lia.
      reflexivity.
Qed.

(** X3: on a platform with signed [char], a hex file made of valid digit
    pairs, at most 3584 of them, is loaded exactly as [load_rom] loads the
    bytes the pairs denote (high digit first); a last odd character is
    ignored. *)
Theorem load_hex_decodes (hexfile : list Z) (machine : machine_t) :
  length (mem machine) = 4096%nat ->
  Forall is_char hexfile ->
  Forall pair_valid (hex_pairs hexfile) ->
  Z.of_nat (length (hex_pairs hexfile)) <= 3584 ->
  load_hex true hexfile machine = Some (load_rom (hex_bytes hexfile) machine).
Proof.
  intros Hlen Hch Hval Hfit. unfold load_hex, load_rom, with_program.
  rewrite load_hex_loop_decodes by (assumption || lia).
  unfold hex_bytes at 3. rewrite length_fmap.
  destruct (Z.gtb_spec (Z.of_nat (length (hex_pairs hexfile))) 3584); [lia|].
  reflexivity.
Qed.

Lemma load_hex_decodes_witness :
  load_hex true [54; 97; 48; 55; 120] (fst init_machine)
  = Some (load_rom [0x6A; 0x07] (fst init_machine)).
Proof.
  apply (load_hex_decodes [54; 97; 48; 55; 120] (fst init_machine)).
  - reflexivity.
  - repeat (apply List.Forall_cons; [unfold is_char; lia|]). apply List.Forall_nil.
  - repeat (apply List.Forall_cons; [split; vm_compute; discriminate|]).
    apply List.Forall_nil.
  - simpl. lia.
Defined.

Lemma load_hex_loop_status (hexfile : list Z) :
  forall mempos machine status machine',
    Forall is_char hexfile -> 0x200 <= mempos <= 0xFFF ->
    load_hex_loop true hexfile mempos machine = Some (status, machine') ->
    (status = 0 <->
     Forall pair_valid (take (Z.to_nat (0x1000 - mempos)) (hex_pairs hexfile))).
Proof.
  induction hexfile as [|x|hi lo rest IH] using pairs_ind;
    intros mempos machine status machine' Hch Hpos Hrun.
  - cbn in Hrun. inversion Hrun. cbn [hex_pairs]. rewrite take_nil.
    split; [constructor|reflexivity].
  - cbn in Hrun. inversion Hrun. cbn [hex_pairs]. rewrite take_nil.
    split; [constructor|reflexivity].
  - apply hex_pairs_chars in Hch as (Chi & Clo & Crest).
    destruct (hex_to_bin_checked hi Chi) as [Ehi _].
    destruct (hex_to_bin_checked lo Clo) as [Elo _].
    replace (Z.to_nat (0x1000 - mempos))
      with (S (Z.to_nat (0x1000 - (mempos + 1)))) by lia.
    cbn [hex_pairs take]. cbn [load_hex_loop] in Hrun.
    rewrite Ehi, Elo in Hrun.
    destruct (Z.eqb_spec (hex_value hi) (-1)) as [Bhi|Vhi].
    { cbn [orb] in Hrun. inversion Hrun. split; [discriminate|].
      intros HF. inversion HF as [|? ? [V _] _]. contradiction. }
    destruct (Z.eqb_spec (hex_value lo) (-1)) as [Blo|Vlo].
    { cbn [orb] in Hrun. inversion Hrun. split; [discriminate|].
      intros HF. inversion HF as [|? ? [_ V] _]. contradiction. }
    cbn [orb] in Hrun.
    destruct (write_mem machine mempos _) as [m1|]; [|discriminate].
    cbn [mbind option_bind] in Hrun.
    assert (Vp : pair_valid (hi, lo)) by (split; assumption).
    destruct (Z.gtb_spec (mempos + 1) 0xFFF) as [Hend|Hmore].
    + inversion Hrun. subst.
      replace (Z.to_nat (0x1000 - (mempos + 1))) with 0%nat by lia.
      rewrite take_0. split; [intros _|reflexivity].
      apply List.Forall_cons; [exact Vp|constructor].
    + rewrite (IH (mempos + 1) m1 status machine' Crest ltac:(lia) Hrun).
      split; [intros HF; apply List.Forall_cons; assumption|].
      intros HF. inversion HF. assumption.
Qed.

Lemma load_hex_loop_unsigned (hexfile : list Z) :
  forall mempos machine status machine',
    Forall is_char hexfile ->
    load_hex_loop false hexfile mempos machine = Some (status, machine') ->
    status = 0.
Proof.
  induction hexfile as [|x|hi lo rest IH] using pairs_ind;
    intros mempos machine status machine' Hch Hrun.
  - cbn in Hrun. inversion Hrun. reflexivity.
  - cbn in Hrun. inversion Hrun. reflexivity.
  - apply hex_pairs_chars in Hch as (Chi & Clo & Crest).
    destruct (hex_to_bin_checked hi Chi) as [_ Ehi].
    destruct (hex_to_bin_checked lo Clo) as [_ Elo].
    cbn [load_hex_loop] in Hrun. rewrite Ehi, Elo in Hrun.
    pose proof (Z.mod_pos_bound (hex_value hi) 256 ltac:(lia)).
    pose proof (Z.mod_pos_bound (hex_value lo) 256 ltac:(lia)).
    destruct (Z.eqb_spec (hex_value hi mod 256) (-1)); [lia|].
    destruct (Z.eqb_spec (hex_value lo mod 256) (-1)); [lia|].
    cbn [orb] in Hrun.
    destruct (write_mem machine mempos _) as [m1|]; [|discriminate].
    cbn [mbind option_bind] in Hrun.
    destruct (mempos + 1 >? 0xFFF).
    + inversion Hrun. reflexivity.
    + eapply IH; eauto.
Qed.

(** X4: with a signed [char], [load_hex] returns status 0 exactly when the
    character pairs it gets to read, the first 3584 at most, are all pairs
    of hexadecimal digits, and status 1 as soon as one is not; with an
    unsigned [char] the -1 of [hex_to_bin] is never recognised and the
    status is always 0. *)
Theorem load_hex_status (hexfile : list Z) (machine : machine_t) :
  Forall is_char hexfile ->
  (forall status machine',
     load_hex true hexfile machine = Some (status, machine') ->
     (status = 0 <-> Forall pair_valid (take 3584 (hex_pairs hexfile)))) /\
  (forall status machine',
     load_hex false hexfile machine = Some (status, machine') ->
     status = 0).
Proof.
  intros Hch. split.
  - intros status machine' Hrun.
    apply (load_hex_loop_status hexfile 0x200 machine status machine' Hch
             ltac:(lia) Hrun).
  - intros status machine' Hrun.
    apply (load_hex_loop_unsigned hexfile 0x200 machine status machine' Hch
             Hrun).
Qed.

Lemma load_hex_status_witness :
  (1 = 0 <-> Forall pair_valid (take 3584 (hex_pairs [54; 103]))) /\
  exists status machine',
    load_hex false [54; 103] (fst init_machine) = Some (status, machine') /\
    status = 0.
Proof.
  assert (Hch : Forall is_char [54; 103]).
  { repeat (apply List.Forall_cons; [unfold is_char; lia|]).
    apply List.Forall_nil. }
  destruct (load_hex_status [54; 103] (fst init_machine) Hch) as [A B].
  split.
  - apply (A 1 (fst init_machine)). reflexivity.
  - destruct (load_hex false [54; 103] (fst init_machine))
      as [[status machine']|] eqn:E; [|vm_compute in E; discriminate].
    exists status, machine'. split; [reflexivity|].
    apply (B status machine'). reflexivity.
Defined.

(** ** The ROM loader *)

(** X5: [load_rom] refuses a file of more than 3584 bytes and leaves the
    machine alone; otherwise it returns status 0 with the file's bytes at
    0x200 onwards, every other memory byte and the rest of the machine as
    before, and memory still 4096 bytes long. *)
Theorem load_rom_program_area (file : list Z) (machine : machine_t) :
  length (mem machine) = 4096%nat ->
  (Z.of_nat (length file) > 3584 -> load_rom file machine = (1, machine)) /\
  (Z.of_nat (length file) <= 3584 ->
   exists machine',
     load_rom file machine = (0, machine') /\
     length (mem machine') = 4096%nat /\
     machine' = set_mem machine (mem machine') /\
     (forall k, (k < length file)%nat ->
        aget (mem machine') (0x200 + Z.of_nat k) = file !! k) /\
     (forall a, ~ (0x200 <= a < 0x200 + Z.of_nat (length file)) ->
        aget (mem machine') a = aget (mem machine) a)).
Proof.
  intros Hlen. unfold load_rom. split.
  - intros Hbig.
    destruct (Z.gtb_spec (Z.of_nat (length file)) 3584); [reflexivity|lia].
  - intros Hfit.
    destruct (Z.gtb_spec (Z.of_nat (length file)) 3584); [lia|].
    eexists. split; [reflexivity|].
    unfold with_program. cbn [mem set_mem].
    assert (Ht : length (take 512 (mem machine)) = 512%nat)
      by (apply length_take_le; lia).
    split; [|split; [reflexivity|split]].
    + rewrite !length_app, Ht, length_drop. lia.
    + intros k Hk. unfold aget.
      destruct (Z.leb_spec 0 (0x200 + Z.of_nat k)); [|lia].
      replace (Z.to_nat (0x200 + Z.of_nat k)) with (512 + k)%nat by lia.
      rewrite lookup_app_r by lia. rewrite Ht.
      replace (512 + k - 512)%nat with k by lia.
      apply lookup_app_l. exact Hk.
    + intros a Ha. unfold aget. destruct (Z.leb_spec 0 a); [|reflexivity].
      destruct (Z_lt_dec a 0x200) as [Hlow|Hhigh].
      * rewrite lookup_app_l by lia. apply lookup_take_lt. lia.
      * rewrite lookup_app_r by lia. rewrite Ht.
        rewrite lookup_app_r by lia. rewrite lookup_drop.
        f_equal. lia.
Qed.

Lemma load_rom_program_area_witness :
  load_rom (replicate 3585 0) (fst init_machine) = (1, fst init_machine) /\
  exists machine',
    load_rom [0x12; 0x00] (fst init_machine) = (0, machine') /\
    length (mem machine') = 4096%nat /\
    machine' = set_mem (fst init_machine) (mem machine') /\
    (forall k, (k < length [0x12; 0x00])%nat ->
       aget (mem machine') (0x200 + Z.of_nat k) = [0x12; 0x00] !! k) /\
    (forall a, ~ (0x200 <= a < 0x200 + Z.of_nat (length [0x12; 0x00])) ->
       aget (mem machine') a = aget (mem (fst init_machine)) a).
Proof.
  split.
  - apply (load_rom_program_area (replicate 3585 0) (fst init_machine)
             eq_refl).
    rewrite length_replicate. lia.
  - apply (load_rom_program_area [0x12; 0x00] (fst init_machine) eq_refl).
    simpl. lia.
Defined.

(** ** The ALU family beyond addition *)

(** The shape shared by SUB and SUBN: flag write, then the registers are
    read again and the destination written. *)
Lemma flag_then_binop (cpu : machine_t) (x y flag : Z) (f : Z -> Z -> Z)
  (a b : Z) :
  length (v cpu) = 16%nat -> 0 <= x <= 15 -> 0 <= y <= 15 -> x <> 15 ->
  aget (v cpu) x = Some a -> aget (v cpu) y = Some b ->
  exists cpu',
    (cpu1 ← write_v cpu 0xF flag;
     vx1 ← aget (v cpu1) x; vy1 ← aget (v cpu1) y;
     write_v cpu1 x (f vx1 vy1)) = Some cpu' /\
    aget (v cpu') 0xF = Some (to_byte flag) /\
    (y <> 15 -> aget (v cpu') x = Some (to_byte (f a b))) /\
    (forall n, n <> x -> n <> 15 -> aget (v cpu') n = aget (v cpu) n) /\
    cpu' = set_v cpu (v cpu').
Proof.
  intros Hl Hx Hy HxF Ha Hb.
  destruct (write_v_defined cpu 0xF flag Hl ltac:(lia)) as [cpu1 H1].
  rewrite H1. cbn [mbind option_bind].
  assert (Hl1 : length (v cpu1) = 16%nat)
    by (rewrite (write_v_length _ _ _ _ H1); exact Hl).
  assert (Ha1 : aget (v cpu1) x = Some a)
    by (rewrite (write_v_read_ne _ _ _ _ _ H1) by congruence; exact Ha).
  rewrite Ha1. cbn [mbind option_bind].
  destruct (reg_read cpu1 y Hl1 Hy) as [b1 Hb1].
  rewrite Hb1. cbn [mbind option_bind].
  destruct (write_v_defined cpu1 x (f a b1) Hl1 Hx) as [cpu2 H2].
  exists cpu2. split; [exact H2|]. split; [|split; [|split]].
  - rewrite (write_v_read_ne _ _ _ _ _ H2) by congruence.
    apply (write_v_read_eq _ _ _ _ H1).
  - intros HyF.
    rewrite (write_v_read_ne _ _ _ _ _ H1) in Hb1 by congruence.
    assert (b1 = b) by congruence. subst b1.
    apply (write_v_read_eq _ _ _ _ H2).
  - intros n Hnx HnF.
    rewrite (write_v_read_ne _ _ _ _ _ H2) by congruence.
    apply (write_v_read_ne _ _ _ _ _ H1). congruence.
  - unfold write_v in H1, H2.
    destruct (aset (v cpu) 15 (to_byte flag)) as [l1|]; [|discriminate].
    cbn [mbind option_bind] in H1. inversion H1. subst cpu1.
    cbn [v set_v] in H2.
    destruct (aset l1 x (to_byte (f a b1))) as [l2|]; [|discriminate].
    cbn [mbind option_bind] in H2. inversion H2. reflexivity.
Qed.

(** The shape shared by SHR and SHL. *)
Lemma flag_then_unop (cpu : machine_t) (x flag : Z) (f : Z -> Z) (a : Z) :
  length (v cpu) = 16%nat -> 0 <= x <= 15 -> x <> 15 ->
  aget (v cpu) x = Some a ->
  exists cpu',
    (cpu1 ← write_v cpu 0xF flag;
     vx1 ← aget (v cpu1) x;
     write_v cpu1 x (f vx1)) = Some cpu' /\
    aget (v cpu') 0xF = Some (to_byte flag) /\
    aget (v cpu') x = Some (to_byte (f a)) /\
    (forall n, n <> x -> n <> 15 -> aget (v cpu') n = aget (v cpu) n) /\
    cpu' = set_v cpu (v cpu').
Proof.
  intros Hl Hx HxF Ha.
  destruct (flag_then_binop cpu x x flag (fun p _ => f p) a a
              Hl Hx Hx HxF Ha Ha) as (cpu' & Hrun & HF & HX & Hn & Heq).
  exists cpu'. split; [|split; [exact HF|split; [apply HX; exact HxF|tauto]]].
  revert Hrun.
  destruct (write_v cpu 15 flag) as [cpu1|]; [|discriminate].
  cbn [mbind option_bind].
  destruct (aget (v cpu1) x) as [vx1|]; [|discriminate].
  cbn [mbind option_bind]. trivial.
Qed.

(** X6: for a destination register X other than 0xF, 8XY5 (SUB) leaves in
    register 0xF the flag "a > b" of the operands as they were (so 0 when
    they are equal) and, when Y is not 0xF either, (a-b) mod 256 in
    register X; 8XY7 (SUBN) does the same with the operands exchanged.  No
    other register and nothing else in the machine changes. *)
Theorem sub_sets_flag_and_difference (cpu : machine_t) (opcode a b : Z) :
  length (v cpu) = 16%nat ->
  aget (v cpu) (OPCODE_X opcode) = Some a ->
  aget (v cpu) (OPCODE_Y opcode) = Some b ->
  OPCODE_X opcode <> 0xF ->
  OPCODE_N opcode = 5 \/ OPCODE_N opcode = 7 ->
  exists cpu',
    nibble_8 cpu opcode = Some cpu' /\
    aget (v cpu') 0xF
    = Some (b2i (if OPCODE_N opcode =? 5 then a >? b else b >? a)) /\
    (OPCODE_Y opcode <> 0xF ->
     aget (v cpu') (OPCODE_X opcode)
     = Some ((if OPCODE_N opcode =? 5 then a - b else b - a) mod 256)) /\
    (forall n, n <> OPCODE_X opcode -> n <> 0xF ->
               aget (v cpu') n = aget (v cpu) n) /\
    cpu' = set_v cpu (v cpu').
Proof.
  intros Hl Ha Hb HXF HN.
  pose proof (OPCODE_X_range opcode) as HX.
  pose proof (OPCODE_Y_range opcode) as HY.
  unfold nibble_8. destruct HN as [-> | ->]; cbn [Z.eqb Pos.eqb];
    rewrite Ha, Hb; cbn [mbind option_bind].
  - destruct (flag_then_binop cpu _ _ (b2i (a >? b)) Z.sub a b
                Hl HX HY HXF Ha Hb) as (cpu' & Hrun & HF & Hx & Hn & Heq).
    exists cpu'. rewrite to_byte_b2i in HF. tauto.
  - destruct (flag_then_binop cpu _ _ (b2i (b >? a)) (fun p q => q - p) a b
                Hl HX HY HXF Ha Hb) as (cpu' & Hrun & HF & Hx & Hn & Heq).
    exists cpu'. rewrite to_byte_b2i in HF. tauto.
Qed.

Lemma sub_sets_flag_and_difference_witness :
  exists cpu',
    nibble_8 (with_regs [7; 7] (boot [])) 0x8015 = Some cpu' /\
    aget (v cpu') 0xF = Some 0 /\ aget (v cpu') 0 = Some 0.
Proof.
  destruct (sub_sets_flag_and_difference (with_regs [7; 7] (boot [])) 0x8015
              7 7 eq_refl eq_refl eq_refl ltac:(discriminate)
              ltac:(left; reflexivity))
    as (cpu' & H1 & H2 & H3 & _).
  exists cpu'. split; [exact H1|]. split; [exact H2|].
  apply H3. discriminate.
Defined.

Lemma shift_bytes (a : Z) :
  is_byte a ->
  to_byte (Z.land a 1) = a mod 2 /\
  to_byte (Z.shiftr a 1) = a / 2 /\
  b2i (negb (Z.land a 0x80 =? 0)) = a / 128 /\
  to_byte (Z.shiftl a 1) = (2 * a) mod 256.
Proof.
  intros Ha. unfold is_byte in Ha.
  pose (f := fun z => (to_byte (Z.land z 1) =? z mod 2) &&
                      (to_byte (Z.shiftr z 1) =? z / 2) &&
                      (b2i (negb (Z.land z 0x80 =? 0)) =? z / 128) &&
                      (to_byte (Z.shiftl z 1) =? (2 * z) mod 256)).
  assert (H : f a = true).
  { apply (forallb_seqZ f 0 256); [vm_compute; reflexivity|lia]. }
  unfold f in H. rewrite !andb_true_iff, !Z.eqb_eq in H. tauto.
Qed.

(** X7: for a register X other than 0xF holding the byte a, 8XY6 (SHR)
    leaves bit 0 of a in register 0xF and a/2 in register X, and 8XYE (SHL)
    leaves bit 7 of a in register 0xF and (2a) mod 256 in register X.
    Register Y plays no part, and no other register changes. *)
Theorem shift_sets_flag_and_result (cpu : machine_t) (opcode a : Z) :
  length (v cpu) = 16%nat ->
  aget (v cpu) (OPCODE_X opcode) = Some a ->
  is_byte a ->
  OPCODE_X opcode <> 0xF ->
  OPCODE_N opcode = 6 \/ OPCODE_N opcode = 0xE ->
  exists cpu',
    nibble_8 cpu opcode = Some cpu' /\
    aget (v cpu') 0xF
    = Some (if OPCODE_N opcode =? 6 then a mod 2 else a / 128) /\
    aget (v cpu') (OPCODE_X opcode)
    = Some (if OPCODE_N opcode =? 6 then a / 2 else (2 * a) mod 256) /\
    (forall n, n <> OPCODE_X opcode -> n <> 0xF ->
               aget (v cpu') n = aget (v cpu) n) /\
    cpu' = set_v cpu (v cpu').
Proof.
  intros Hl Ha Hbyte HXF HN.
  pose proof (OPCODE_X_range opcode) as HX.
  destruct (shift_bytes a Hbyte) as (B0 & Bshr & B7 & Bshl).
  unfold nibble_8. destruct HN as [-> | ->]; cbn [Z.eqb Pos.eqb];
    rewrite Ha; cbn [mbind option_bind].
  - destruct (flag_then_unop cpu _ (Z.land a 1) (fun p => Z.shiftr p 1) a
                Hl HX HXF Ha) as (cpu' & Hrun & HF & Hx & Hn & Heq).
    exists cpu'. rewrite B0 in HF. rewrite Bshr in Hx. tauto.
  - destruct (flag_then_unop cpu _ (b2i (negb (Z.land a 0x80 =? 0)))
                (fun p => Z.shiftl p 1) a
                Hl HX HXF Ha) as (cpu' & Hrun & HF & Hx & Hn & Heq).
    exists cpu'. rewrite to_byte_b2i, B7 in HF. rewrite Bshl in Hx. tauto.
Qed.

Lemma shift_sets_flag_and_result_witness :
  exists cpu',
    nibble_8 (with_regs [0x81] (boot [])) 0x801E = Some cpu' /\
    aget (v cpu') 0xF = Some 1 /\ aget (v cpu') 0 = Some 2.
Proof.
  destruct (shift_sets_flag_and_result (with_regs [0x81] (boot [])) 0x801E
              0x81 eq_refl eq_refl ltac:(unfold is_byte; lia)
              ltac:(discriminate) ltac:(right; reflexivity))
    as (cpu' & H1 & H2 & H3 & _).
  exists cpu'. split; [exact H1|]. split; [exact H2|exact H3].
Defined.

(** ** Operations that set no flag *)

Lemma byte_land_0xFF (a : Z) : is_byte a -> Z.land a 0xFF = a.
Proof.
  intros Ha. unfold is_byte in Ha. rewrite land_0xFF. apply Z.mod_small. lia.
Qed.

Lemma land_lxor_distr (a b c : Z) :
  Z.land (Z.lxor a b) c = Z.lxor (Z.land a c) (Z.land b c).
Proof.
  apply Z.bits_inj'. intros n Hn.
  rewrite Z.land_spec, !Z.lxor_spec, !Z.land_spec.
  destruct (Z.testbit a n), (Z.testbit b n), (Z.testbit c n); reflexivity.
Qed.

Lemma logic_bytes (a b : Z) :
  is_byte a -> is_byte b ->
  to_byte (Z.lor a b) = Z.lor a b /\ to_byte (Z.land a b) = Z.land a b /\
  to_byte (Z.lxor a b) = Z.lxor a b.
Proof.
  intros Ha Hb. unfold to_byte. rewrite <- !land_0xFF.
  rewrite Z.land_lor_distr_l, land_lxor_distr, <- Z.land_assoc.
  rewrite !byte_land_0xFF by assumption. tauto.
Qed.

Lemma write_v_only (cpu : machine_t) (n x : Z) :
  length (v cpu) = 16%nat -> 0 <= n <= 15 ->
  exists cpu',
    write_v cpu n x = Some cpu' /\
    aget (v cpu') n = Some (to_byte x) /\
    (forall m, m <> n -> aget (v cpu') m = aget (v cpu) m) /\
    cpu' = set_v cpu (v cpu').
Proof.
  intros Hl Hn. destruct (write_v_defined cpu n x Hl Hn) as [cpu' H].
  exists cpu'. split; [exact H|]. split; [apply (write_v_read_eq _ _ _ _ H)|].
  split.
  - intros m Hm. apply (write_v_read_ne _ _ _ _ _ H). congruence.
  - unfold write_v in H.
    destruct (aset (v cpu) n (to_byte x)) as [l|]; [|discriminate].
    inversion H. reflexivity.
Qed.

(** X8: load immediate (6XKK), add immediate (7XKK) and the register moves
    and logic operations 8XY0-8XY3 write one byte into register X: KK,
    (a+KK) mod 256, b, a OR b, a AND b, a XOR b.  They change no other
    register, so an overflowing 7XKK sets no carry and the logic operations
    leave register 0xF alone, and nothing else in the machine changes. *)
Theorem register_only_operations (cpu : machine_t) (opcode a b : Z) :
  length (v cpu) = 16%nat ->
  aget (v cpu) (OPCODE_X opcode) = Some a ->
  aget (v cpu) (OPCODE_Y opcode) = Some b ->
  is_byte a -> is_byte b ->
  forall (h : machine_t -> Z -> option machine_t) (r : Z),
    (h = nibble_6 /\ r = OPCODE_KK opcode) \/
    (h = nibble_7 /\ r = (a + OPCODE_KK opcode) mod 256) \/
    (h = nibble_8 /\ OPCODE_N opcode = 0 /\ r = b) \/
    (h = nibble_8 /\ OPCODE_N opcode = 1 /\ r = Z.lor a b) \/
    (h = nibble_8 /\ OPCODE_N opcode = 2 /\ r = Z.land a b) \/
    (h = nibble_8 /\ OPCODE_N opcode = 3 /\ r = Z.lxor a b) ->
    exists cpu',
      h cpu opcode = Some cpu' /\
      aget (v cpu') (OPCODE_X opcode) = Some r /\
      (forall n, n <> OPCODE_X opcode -> aget (v cpu') n = aget (v cpu) n) /\
      cpu' = set_v cpu (v cpu').
Proof.
  intros Hl Ha Hb Ba Bb h r Hcase.
  pose proof (OPCODE_X_range opcode) as HX.
  destruct (logic_bytes a b Ba Bb) as (Lor & Land & Lxor).
  assert (Hkk : to_byte (OPCODE_KK opcode) = OPCODE_KK opcode).
  { unfold OPCODE_KK, to_byte. rewrite land_0xFF. apply Z.mod_mod. lia. }
  assert (Hb' : to_byte b = b) by (apply Z.mod_small; unfold is_byte in Bb; lia).
  assert (Hw : forall x,
            exists cpu',
              write_v cpu (OPCODE_X opcode) x = Some cpu' /\
              aget (v cpu') (OPCODE_X opcode) = Some (to_byte x) /\
              (forall n, n <> OPCODE_X opcode ->
                         aget (v cpu') n = aget (v cpu) n) /\
              cpu' = set_v cpu (v cpu'))
    by (intros x; apply write_v_only; assumption).
  destruct Hcase as [[-> ->]|[[-> ->]|[(-> & HN & ->)|[(-> & HN & ->)|
                    [(-> & HN & ->)|(-> & HN & ->)]]]]].
  - unfold nibble_6.
    destruct (Hw (OPCODE_KK opcode)) as (cpu' & H1 & H2 & H3 & H4).
    exists cpu'. rewrite Hkk in H2. tauto.
  - unfold nibble_7. rewrite Ha. cbn [mbind option_bind]. apply Hw.
  - unfold nibble_8. rewrite HN, Hb. cbn [Z.eqb mbind option_bind].
    destruct (Hw b) as (cpu' & H1 & H2 & H3 & H4).
    exists cpu'. rewrite Hb' in H2. tauto.
  - unfold nibble_8. rewrite HN, Ha, Hb. cbn [Z.eqb Pos.eqb mbind option_bind].
    destruct (Hw (Z.lor a b)) as (cpu' & H1 & H2 & H3 & H4).
    exists cpu'. rewrite Lor in H2. tauto.
  - unfold nibble_8. rewrite HN, Ha, Hb. cbn [Z.eqb Pos.eqb mbind option_bind].
    destruct (Hw (Z.land a b)) as (cpu' & H1 & H2 & H3 & H4).
    exists cpu'. rewrite Land in H2. tauto.
  - unfold nibble_8. rewrite HN, Ha, Hb. cbn [Z.eqb Pos.eqb mbind option_bind].
    destruct (Hw (Z.lxor a b)) as (cpu' & H1 & H2 & H3 & H4).
    exists cpu'. rewrite Lxor in H2. tauto.
Qed.

Lemma register_only_operations_witness :
  exists cpu',
    nibble_7 (with_regs [250] (boot [])) 0x7010 = Some cpu' /\
    aget (v cpu') 0 = Some 10 /\
    aget (v cpu') 0xF = aget (v (with_regs [250] (boot []))) 0xF.
Proof.
  destruct (register_only_operations (with_regs [250] (boot [])) 0x7010
              250 0 eq_refl eq_refl eq_refl
              ltac:(unfold is_byte; lia) ltac:(unfold is_byte; lia)
              nibble_7 10 ltac:(right; left; split; reflexivity))
    as (cpu' & H1 & H2 & H3 & _).
  exists cpu'. split; [exact H1|]. split; [exact H2|].
  apply H3. discriminate.
Defined.

(** ** Undefined sub-opcodes *)

Lemma undefined_handler (rnd : Z) (opcode : Z) :
  is_undefined opcode = true ->
  exists h, nibbles rnd !! Z.to_nat (OPCODE_P opcode) = Some h /\
    forall cpu, length (v cpu) = 16%nat -> h cpu opcode = Some cpu.
Proof.
  unfold is_undefined. cbv zeta. intros H.
  pose proof (OPCODE_X_range opcode) as HX.
  destruct (Z.eqb_spec (OPCODE_P opcode) 0) as [E0|N0].
  { rewrite ?E0 in H. rewrite E0. cbn [andb orb Z.eqb Pos.eqb] in H.
    exists nibble_0. split; [reflexivity|]. intros cpu _. unfold nibble_0.
    destruct (opcode =? 0x00E0); [discriminate|].
    destruct (opcode =? 0x00EE); [discriminate|]. reflexivity. }
  destruct (Z.eqb_spec (OPCODE_P opcode) 8) as [E8|N8].
  { rewrite ?E8 in H. rewrite E8. cbn [andb orb Z.eqb Pos.eqb] in H.
    exists nibble_8. split; [reflexivity|]. intros cpu _. unfold nibble_8.
    destruct (Z.ltb_spec 7 (OPCODE_N opcode)) as [Hn|Hn];
      [|cbn [andb orb] in H; discriminate].
    destruct (Z.eqb_spec (OPCODE_N opcode) 0xE) as [HE|HE];
      [cbn [andb orb negb] in H; discriminate|].
    repeat match goal with
           | |- context [OPCODE_N opcode =? ?k] =>
               destruct (Z.eqb_spec (OPCODE_N opcode) k); [lia|]
           end.
    reflexivity. }
  destruct (Z.eqb_spec (OPCODE_P opcode) 0xE) as [EE|NE].
  { rewrite ?EE in H. rewrite EE. cbn [andb orb Z.eqb Pos.eqb] in H.
    exists nibble_E. split; [reflexivity|]. intros cpu Hl. unfold nibble_E.
    destruct (reg_read cpu _ Hl HX) as [key ->]. cbn [mbind option_bind].
    destruct (OPCODE_KK opcode =? 0x9E); [discriminate|].
    destruct (OPCODE_KK opcode =? 0xA1); [discriminate|]. reflexivity. }
  destruct (Z.eqb_spec (OPCODE_P opcode) 0xF) as [EF|NF];
    [|cbn [andb orb] in H; discriminate].
  rewrite ?EF in H. rewrite EF. cbn [andb orb Z.eqb Pos.eqb existsb] in H.
  exists nibble_F. split; [reflexivity|]. intros cpu _. unfold nibble_F.
  repeat match goal with
         | |- context [if OPCODE_KK opcode =? ?k then _ else _] =>
             destruct (OPCODE_KK opcode =? k);
             [cbn [orb negb] in H; discriminate|cbn [orb] in H]
         end.
  reflexivity.
Qed.

(** X9: in the Running state, a Step that fetches an opcode of family 0, 8,
    E or F whose low byte or nibble selects no operation executes nothing:
    the machine is as before except that the program counter has advanced
    by 2 (modulo 0x1000). *)
Theorem undefined_opcode_only_advances (rnd : Z) (cpu : machine_t)
  (opcode : Z) :
  wf_machine cpu ->
  wait_key cpu = -1 ->
  fetch cpu = Some opcode ->
  is_undefined opcode = true ->
  step_machine rnd cpu = Some (set_pc cpu ((pc cpu + 2) mod 0x1000)).
Proof.
  intros (_ & _ & Hv & _) Hw Hf Hu.
  unfold step_machine. rewrite Hw. cbn [Z.eqb Pos.eqb negb].
  unfold fetch_execute. rewrite Hf. cbn [mbind option_bind].
  destruct (undefined_handler rnd opcode Hu) as (h & -> & Hh).
  cbn [mbind option_bind]. rewrite Hh by exact Hv.
  rewrite land_0xFFF. reflexivity.
Qed.

Lemma undefined_opcode_only_advances_witness :
  step_machine 0 (boot [0x80; 0x1F]) = Some (set_pc (boot [0x80; 0x1F]) 0x202)
  /\ step_machine 0 (boot [0xF3; 0x99])
     = Some (set_pc (boot [0xF3; 0x99]) 0x202).
Proof.
  split.
  - apply (undefined_opcode_only_advances 0 (boot [0x80; 0x1F]) 0x801F);
      [repeat split|reflexivity..].
  - apply (undefined_opcode_only_advances 0 (boot [0xF3; 0x99]) 0xF399);
      [repeat split|reflexivity..].
Defined.

(** ** Subroutine call and return *)

(** X10: with fewer than 16 active frames, 2NNN saves the program counter
    in the slot the stack pointer names and in no other slot, raises the
    stack pointer, jumps to NNN and changes nothing else; a 00EE executed
    next comes back: program counter and stack pointer are those before the
    call, and nothing differs from the machine before the call but the
    content of that one stack slot. *)
Theorem call_then_ret_returns (cpu : machine_t) (opcode : Z) :
  length (stack cpu) = 16%nat ->
  0 <= sp cpu < 16 ->
  exists cpu1,
    nibble_2 cpu opcode = Some cpu1 /\
    pc cpu1 = OPCODE_NNN opcode /\ sp cpu1 = sp cpu + 1 /\
    cpu1 = set_pc (set_sp (set_stack cpu (stack cpu1)) (sp cpu + 1))
                  (OPCODE_NNN opcode) /\
    aget (stack cpu1) (sp cpu) = Some (pc cpu) /\
    (forall k, k <> sp cpu -> aget (stack cpu1) k = aget (stack cpu) k) /\
    length (stack cpu1) = 16%nat /\
    nibble_0 cpu1 0x00EE = Some (set_stack cpu (stack cpu1)).
Proof.
  intros Hl Hsp. unfold nibble_2.
  destruct (Z.ltb_spec (sp cpu) 16); [|lia].
  destruct (aset (stack cpu) (sp cpu) (pc cpu)) as [stack'|] eqn:E.
  2: { apply aset_None_iff in E. lia. }
  cbn [mbind option_bind]. eexists. split; [reflexivity|].
  cbn [pc sp stack set_pc set_sp set_stack].
  pose proof (aget_aset_eq _ _ _ _ E) as Hget.
  split; [reflexivity|]. split; [reflexivity|]. split; [reflexivity|].
  split; [exact Hget|].
  split; [intros k Hk; apply (aget_aset_ne _ _ _ _ _ E); congruence|].
  split; [rewrite (aset_length _ _ _ _ E); exact Hl|].
  unfold nibble_0. cbn [Z.eqb Pos.eqb sp set_pc set_sp set_stack stack].
  destruct (Z.gtb_spec (sp cpu + 1) 0); [|lia].
  replace (sp cpu + 1 - 1) with (sp cpu) by lia.
  rewrite Hget. reflexivity.
Qed.

Lemma call_then_ret_returns_witness :
  exists cpu1,
    nibble_2 (boot []) 0x2345 = Some cpu1 /\
    pc cpu1 = OPCODE_NNN 0x2345 /\ sp cpu1 = sp (boot []) + 1 /\
    aget (stack cpu1) (sp (boot [])) = Some (pc (boot [])) /\
    (forall k, k <> sp (boot []) ->
               aget (stack cpu1) k = aget (stack (boot [])) k) /\
    nibble_0 cpu1 0x00EE = Some (set_stack (boot []) (stack cpu1)).
Proof.
  destruct (call_then_ret_returns (boot []) 0x2345)
    as (cpu1 & H1 & H2 & H3 & _ & H5 & H6 & _ & H8);
    [reflexivity|change (sp (boot [])) with 0; lia|].
  exists cpu1. repeat split; assumption.
Defined.

(** ** Key skips *)

(** X11: EX9E and EXA1 poll the key numbered by the low nibble of register
    X.  With the key-poll capability present exactly one of the two skips:
    EX9E when the key is reported down, EXA1 when it is not.  With the
    capability absent neither of them skips. *)
Theorem key_skips (cpu : machine_t) (opcode vx : Z) :
  aget (v cpu) (OPCODE_X opcode) = Some vx ->
  OPCODE_KK opcode = 0x9E \/ OPCODE_KK opcode = 0xA1 ->
  (keydown cpu = None -> nibble_E cpu opcode = Some cpu) /\
  (forall poll, keydown cpu = Some poll ->
     nibble_E cpu opcode =
       Some (if xorb (poll (Z.land vx 0xF) =? 0) (OPCODE_KK opcode =? 0xA1)
             then cpu else skip cpu)).
Proof.
  intros Hx Hkk. unfold nibble_E. rewrite Hx. cbn [mbind option_bind].
  split.
  - intros ->. destruct Hkk as [-> | ->]; reflexivity.
  - intros poll ->. destruct Hkk as [-> | ->]; cbn [Z.eqb Pos.eqb];
      destruct (poll (Z.land vx 0xF) =? 0); reflexivity.
Qed.

Lemma key_skips_witness :
  nibble_E (boot []) 0xE0A1 = Some (boot []) /\
  nibble_E (set_keydown (boot []) (Some (only_key 0))) 0xE09E
  = Some (skip (set_keydown (boot []) (Some (only_key 0)))).
Proof.
  split.
  - apply (proj1 (key_skips (boot []) 0xE0A1 0 eq_refl
                    ltac:(right; reflexivity))).
    reflexivity.
  - apply (proj2 (key_skips (set_keydown (boot []) (Some (only_key 0)))
                    0xE09E 0 eq_refl ltac:(left; reflexivity))
             (only_key 0) eq_refl).
Defined.

(** ** Random numbers *)

Lemma masked_twice (r k m : Z) :
  Z.land (Z.land (Z.land r (Z.land k m)) m) (Z.land k m)
  = Z.land (Z.land r (Z.land k m)) m.
Proof.
  apply Z.bits_inj'. intros n Hn. rewrite !Z.land_spec.
  destruct (Z.testbit r n), (Z.testbit k n), (Z.testbit m n); reflexivity.
Qed.

(** X12: CXKK stores a byte every set bit of which is a set bit of KK,
    whatever [rand()] returns; no other register changes. *)
Theorem random_byte_is_masked (rnd : Z) (cpu : machine_t) (opcode : Z) :
  length (v cpu) = 16%nat ->
  exists cpu' r,
    nibble_C rnd cpu opcode = Some cpu' /\
    aget (v cpu') (OPCODE_X opcode) = Some r /\
    is_byte r /\ Z.land r (OPCODE_KK opcode) = r /\
    (forall n, n <> OPCODE_X opcode -> aget (v cpu') n = aget (v cpu) n) /\
    cpu' = set_v cpu (v cpu').
Proof.
  intros Hl. unfold nibble_C.
  destruct (write_v_only cpu (OPCODE_X opcode)
              (Z.land rnd (OPCODE_KK opcode)) Hl (OPCODE_X_range opcode))
    as (cpu' & H1 & H2 & H3 & H4).
  exists cpu', (to_byte (Z.land rnd (OPCODE_KK opcode))).
  split; [exact H1|]. split; [exact H2|]. split; [|split; [|tauto]].
  - unfold is_byte, to_byte.
    pose proof (Z.mod_pos_bound (Z.land rnd (OPCODE_KK opcode)) 256). lia.
  - unfold to_byte, OPCODE_KK. rewrite <- !land_0xFF. apply masked_twice.
Qed.

Lemma random_byte_is_masked_witness :
  exists cpu' r,
    nibble_C 0x1234 (boot []) 0xC30F = Some cpu' /\
    aget (v cpu') (OPCODE_X 0xC30F) = Some r /\
    is_byte r /\ Z.land r (OPCODE_KK 0xC30F) = r /\
    (forall n, n <> OPCODE_X 0xC30F ->
               aget (v cpu') n = aget (v (boot [])) n) /\
    cpu' = set_v (boot []) (v cpu').
Proof. apply (random_byte_is_masked 0x1234 (boot []) 0xC30F). reflexivity. Defined.

(** ** Memory writes through the address register *)

Lemma aget_insert_eq (a : list Z) (n x : Z) :
  0 <= n < Z.of_nat (length a) -> aget (<[Z.to_nat n := x]> a) n = Some x.
Proof.
  intros Hn. unfold aget. destruct (Z.leb_spec 0 n); [|lia].
  apply list_lookup_insert_eq. lia.
Qed.

Lemma bcd_arith (a : Z) :
  is_byte a ->
  to_byte (a / 100) = a / 100 /\ to_byte ((a / 10) mod 10) = (a / 10) mod 10 /\
  to_byte (a mod 10) = a mod 10 /\
  0 <= a / 100 <= 2 /\ 0 <= (a / 10) mod 10 <= 9 /\ 0 <= a mod 10 <= 9 /\
  100 * (a / 100) + 10 * ((a / 10) mod 10) + a mod 10 = a.
Proof.
  intros Ha. unfold is_byte in Ha.
  pose (f := fun z =>
          (to_byte (z / 100) =? z / 100) &&
          (to_byte ((z / 10) mod 10) =? (z / 10) mod 10) &&
          (to_byte (z mod 10) =? z mod 10) &&
          (z / 100 <=? 2) &&
          (100 * (z / 100) + 10 * ((z / 10) mod 10) + z mod 10 =? z)).
  assert (H : f a = true).
  { apply (forallb_seqZ f 0 256); [vm_compute; reflexivity|lia]. }
  unfold f in H. rewrite !andb_true_iff, !Z.eqb_eq, Z.leb_le in H.
  pose proof (Z.mod_pos_bound (a / 10) 10 ltac:(lia)).
  pose proof (Z.mod_pos_bound a 10 ltac:(lia)).
  assert (0 <= a / 100) by (apply Z.div_pos; lia).
  repeat split; tauto || lia.
Qed.

(** X13: with I, I+1 and I+2 inside memory, FX33 writes the three decimal
    digits of the byte in register X, most significant first, to those
    three bytes: 100*memory[I] + 10*memory[I+1] + memory[I+2] is the
    register's value and each digit is at most 9.  No other memory byte, no
    register and nothing else changes. *)
Theorem bcd_stores_decimal_digits (cpu : machine_t) (opcode a : Z) :
  wf_machine cpu ->
  OPCODE_KK opcode = 0x33 ->
  aget (v cpu) (OPCODE_X opcode) = Some a ->
  is_byte a ->
  0 <= i cpu -> i cpu + 2 <= 0xFFF ->
  exists cpu' h t u,
    nibble_F cpu opcode = Some cpu' /\
    aget (mem cpu') (i cpu) = Some h /\
    aget (mem cpu') (i cpu + 1) = Some t /\
    aget (mem cpu') (i cpu + 2) = Some u /\
    0 <= h <= 9 /\ 0 <= t <= 9 /\ 0 <= u <= 9 /\
    100 * h + 10 * t + u = a /\
    (forall n, ~ (i cpu <= n <= i cpu + 2) ->
               aget (mem cpu') n = aget (mem cpu) n) /\
    cpu' = set_mem cpu (mem cpu').
Proof.
  intros (Hm & _ & Hv & _) Hkk Hx Ha Hi0 Hi2.
  destruct (bcd_arith a Ha) as (Eh & Et & Eu & Rh & Rt & Ru & Hsum).
  unfold nibble_F. rewrite Hkk. cbn [Z.eqb Pos.eqb].
  rewrite Hx. cbn [mbind option_bind].
  rewrite write_mem_in_range by lia.
  cbn [mbind option_bind v i mem set_mem]. rewrite Hx.
  cbn [mbind option_bind].
  rewrite write_mem_in_range
    by (cbn [mem set_mem]; rewrite length_insert; lia).
  cbn [mbind option_bind v i mem set_mem]. rewrite Hx.
  cbn [mbind option_bind].
  rewrite write_mem_in_range
    by (cbn [mem set_mem]; rewrite !length_insert; lia).
  cbn [mem set_mem]. rewrite Eh, Et, Eu.
  eexists. exists (a / 100), ((a / 10) mod 10), (a mod 10).
  split; [reflexivity|]. cbn [mem set_mem].
  split; [apply aget_insert_eq; rewrite !length_insert; lia|].
  split.
  { rewrite aget_insert_ne by lia.
    apply aget_insert_eq. rewrite length_insert. lia. }
  split.
  { rewrite !aget_insert_ne by lia. apply aget_insert_eq. lia. }
  split; [lia|]. split; [exact Rt|]. split; [exact Ru|].
  split; [exact Hsum|]. split; [|reflexivity].
  intros n Hn. rewrite !aget_insert_ne by lia. reflexivity.
Qed.

Lemma bcd_stores_decimal_digits_witness :
  exists cpu' h t u,
    nibble_F (set_i (with_regs [254] (boot [])) 0x300) 0xF033 = Some cpu' /\
    aget (mem cpu') 0x300 = Some h /\ aget (mem cpu') 0x301 = Some t /\
    aget (mem cpu') 0x302 = Some u /\ 100 * h + 10 * t + u = 254.
Proof.
  destruct (bcd_stores_decimal_digits
              (set_i (with_regs [254] (boot [])) 0x300) 0xF033 254)
    as (cpu' & h & t & u & H1 & H2 & H3 & H4 & _ & _ & _ & H5 & _).
  - repeat split.
  - reflexivity.
  - reflexivity.
  - unfold is_byte. lia.
  - cbn [i set_i]. lia.
  - cbn [i set_i]. lia.
  - exists cpu', h, t, u. cbn [i set_i] in H2, H3, H4. tauto.
Defined.

(** ** Bulk register transfers *)

Lemma store_loop (ks : list Z) :
  forall cpu,
    (forall k, k ∈ ks -> 0 <= k <= 15 /\ in_memory (i cpu + k)) ->
    length (v cpu) = 16%nat -> length (mem cpu) = 4096%nat -> NoDup ks ->
    exists cpu',
      for_each ks store_reg cpu = Some cpu' /\
      length (mem cpu') = 4096%nat /\
      cpu' = set_mem cpu (mem cpu') /\
      (forall a, (forall k, k ∈ ks -> a <> i cpu + k) ->
                 aget (mem cpu') a = aget (mem cpu) a) /\
      (forall k, k ∈ ks ->
                 aget (mem cpu') (i cpu + k) = Some (to_byte (reg cpu k))).
Proof.
  induction ks as [|k ks IH]; intros cpu Hks Hv Hm Hnd.
  - exists cpu. cbn [for_each]. rewrite set_mem_same.
    split; [reflexivity|]. split; [exact Hm|]. split; [reflexivity|].
    split; [reflexivity|]. intros k Hk. inversion Hk.
  - apply NoDup_cons in Hnd as [Hfresh Hnd].
    destruct (Hks k ltac:(left; reflexivity)) as [Hk Hin].
    unfold in_memory in Hin.
    set (cpu1 := set_mem cpu (<[Z.to_nat (i cpu + k) := to_byte (reg cpu k)]>
                                (mem cpu))).
    assert (Hstep : store_reg k cpu = Some cpu1).
    { unfold store_reg. rewrite (reg_value cpu k Hv Hk).
      cbn [mbind option_bind]. apply write_mem_in_range. lia. }
    cbn [for_each]. rewrite Hstep. cbn [mbind option_bind].
    destruct (IH cpu1) as (cpu' & Hrun & Hlen & Heq & Hout & Hst).
    + intros k' Hk'. apply Hks. right. exact Hk'.
    + exact Hv.
    + unfold cpu1. cbn [mem set_mem]. rewrite length_insert. exact Hm.
    + exact Hnd.
    + exists cpu'. split; [exact Hrun|]. split; [exact Hlen|].
      split; [rewrite Heq at 1; reflexivity|]. split.
      * intros a Ha. rewrite Hout.
        -- unfold cpu1. cbn [mem set_mem]. apply aget_insert_ne; [lia|].
           intros E. apply (Ha k); [left; reflexivity|congruence].
        -- intros k' Hk'. apply Ha. right. exact Hk'.
      * intros k' Hk'. apply elem_of_cons in Hk' as [->|Hk'].
        -- rewrite Hout.
           ++ unfold cpu1. cbn [mem set_mem]. apply aget_insert_eq. lia.
           ++ intros k' Hk' E. apply Hfresh.
              assert (k = k') by (change (i cpu1) with (i cpu) in E; lia).
              subst. exact Hk'.
        -- apply (Hst k' Hk').
Qed.

Lemma load_loop (ks : list Z) :
  forall cpu,
    (forall k, k ∈ ks -> 0 <= k <= 15 /\ in_memory (i cpu + k)) ->
    length (v cpu) = 16%nat -> length (mem cpu) = 4096%nat -> NoDup ks ->
    exists cpu',
      for_each ks load_reg cpu = Some cpu' /\
      length (v cpu') = 16%nat /\
      cpu' = set_v cpu (v cpu') /\
      (forall n, n ∉ ks -> aget (v cpu') n = aget (v cpu) n) /\
      (forall k, k ∈ ks ->
                 aget (v cpu') k = Some (to_byte (memb cpu (i cpu + k)))).
Proof.
  induction ks as [|k ks IH]; intros cpu Hks Hv Hm Hnd.
  - exists cpu. cbn [for_each].
    assert (Hsame : set_v cpu (v cpu) = cpu) by (destruct cpu; reflexivity).
    rewrite Hsame.
    split; [reflexivity|]. split; [exact Hv|]. split; [reflexivity|].
    split; [reflexivity|]. intros k Hk. inversion Hk.
  - apply NoDup_cons in Hnd as [Hfresh Hnd].
    destruct (Hks k ltac:(left; reflexivity)) as [Hk Hin].
    unfold in_memory in Hin.
    assert (Hb : aget (mem cpu) (i cpu + k) = Some (memb cpu (i cpu + k))).
    { unfold memb.
      destruct (aget_in_range (mem cpu) (i cpu + k) ltac:(lia)) as [b ->].
      reflexivity. }
    set (cpu1 := set_v cpu (<[Z.to_nat k := to_byte (memb cpu (i cpu + k))]>
                              (v cpu))).
    assert (Hstep : load_reg k cpu = Some cpu1).
    { unfold load_reg. rewrite Hb. cbn [mbind option_bind].
      apply write_v_in_range; assumption. }
    cbn [for_each]. rewrite Hstep. cbn [mbind option_bind].
    destruct (IH cpu1) as (cpu' & Hrun & Hlen & Heq & Hout & Hst).
    + intros k' Hk'. apply Hks. right. exact Hk'.
    + unfold cpu1. cbn [v set_v]. rewrite length_insert. exact Hv.
    + exact Hm.
    + exact Hnd.
    + exists cpu'. split; [exact Hrun|]. split; [exact Hlen|].
      split; [rewrite Heq at 1; reflexivity|]. split.
      * intros n Hn. apply not_elem_of_cons in Hn as [Hne Hn].
        rewrite (Hout n Hn). unfold cpu1. cbn [v set_v].
        apply aget_insert_ne; [lia|congruence].
      * intros k' Hk'. apply elem_of_cons in Hk' as [->|Hk'].
        -- rewrite (Hout k Hfresh). unfold cpu1. cbn [v set_v].
           apply aget_insert_eq. lia.
        -- apply (Hst k' Hk').
Qed.

Lemma byte_reg (cpu : machine_t) (k x : Z) :
  byte_regs cpu -> aget (v cpu) k = Some x -> to_byte x = x.
Proof.
  intros Hb Hx. unfold aget in Hx. destruct (0 <=? k); [|discriminate].
  pose proof (Forall_lookup_1 _ _ _ _ Hb Hx) as Hbyte.
  unfold is_byte in Hbyte. apply Z.mod_small. lia.
Qed.

(** X14: with I..I+X inside memory and bytes in the registers, FX55 copies
    registers 0..X to memory[I..I+X] and changes no other memory byte and
    no register; it leaves I where it was.  If the registers are then
    overwritten with anything, FX65 with the same X brings registers 0..X
    back to the values stored and leaves the registers above X as they
    are. *)
Theorem store_then_load_round_trip (cpu : machine_t) (store load : Z) :
  wf_machine cpu -> byte_regs cpu ->
  OPCODE_KK store = 0x55 -> OPCODE_KK load = 0x65 ->
  OPCODE_X load = OPCODE_X store ->
  0 <= i cpu -> i cpu + OPCODE_X store <= 0xFFF ->
  exists cpu1,
    nibble_F cpu store = Some cpu1 /\
    cpu1 = set_mem cpu (mem cpu1) /\
    (forall k, 0 <= k <= OPCODE_X store ->
               aget (mem cpu1) (i cpu + k) = aget (v cpu) k) /\
    (forall a, ~ (i cpu <= a <= i cpu + OPCODE_X store) ->
               aget (mem cpu1) a = aget (mem cpu) a) /\
    forall regs, length regs = 16%nat ->
      exists cpu2,
        nibble_F (set_v cpu1 regs) load = Some cpu2 /\
        cpu2 = set_v cpu1 (v cpu2) /\
        (forall k, 0 <= k <= OPCODE_X store ->
                   aget (v cpu2) k = aget (v cpu) k) /\
        (forall k, OPCODE_X store < k -> aget (v cpu2) k = aget regs k).
Proof.
  intros (Hm & _ & Hv & _) Hbytes Hs Hl HX Hi0 HiX.
  pose proof (OPCODE_X_range store) as HXr.
  assert (Hks : forall k, k ∈ seqZ 0 (OPCODE_X store + 1) ->
                  0 <= k <= 15 /\ in_memory (i cpu + k)).
  { intros k Hk. apply elem_of_seqZ in Hk. unfold in_memory. lia. }
  destruct (store_loop _ cpu Hks Hv Hm (NoDup_seqZ _ _))
    as (cpu1 & Hrun & Hlen & Heq & Hout & Hst).
  assert (Hstored : forall k, 0 <= k <= OPCODE_X store ->
                      aget (mem cpu1) (i cpu + k) = aget (v cpu) k).
  { intros k Hk. rewrite Hst by (apply elem_of_seqZ; lia).
    rewrite (reg_value cpu k Hv ltac:(lia)). f_equal.
    apply (byte_reg cpu k); [exact Hbytes|].
    apply reg_value; [exact Hv|lia]. }
  exists cpu1. unfold nibble_F at 1. rewrite Hs. cbn [Z.eqb Pos.eqb].
  split; [exact Hrun|]. split; [exact Heq|]. split; [exact Hstored|].
  split.
  { intros a Ha. apply Hout. intros k Hk. apply elem_of_seqZ in Hk. lia. }
  intros regs Hregs.
  set (cpu1' := set_v cpu1 regs).
  assert (Hi1 : i cpu1' = i cpu) by (unfold cpu1'; rewrite Heq; reflexivity).
  assert (Hks' : forall k, k ∈ seqZ 0 (OPCODE_X store + 1) ->
                  0 <= k <= 15 /\ in_memory (i cpu1' + k))
    by (rewrite Hi1; exact Hks).
  destruct (load_loop _ cpu1' Hks' Hregs Hlen (NoDup_seqZ _ _))
    as (cpu2 & Hrun2 & _ & Heq2 & Hout2 & Hld).
  exists cpu2. unfold nibble_F. rewrite Hl, HX. cbn [Z.eqb Pos.eqb].
  split; [exact Hrun2|]. split.
  { rewrite Heq2 at 1. reflexivity. }
  split.
  - intros k Hk. rewrite Hld by (apply elem_of_seqZ; lia).
    rewrite Hi1. unfold memb. change (mem cpu1') with (mem cpu1).
    rewrite (Hstored k Hk), (reg_value cpu k Hv ltac:(lia)).
    cbn [default]. f_equal.
    apply (byte_reg cpu k); [exact Hbytes|].
    apply reg_value; [exact Hv|lia].
  - intros k Hk. rewrite Hout2; [reflexivity|].
    intros Hin. apply elem_of_seqZ in Hin. lia.
Qed.

Lemma store_then_load_round_trip_witness :
  exists cpu1,
    nibble_F (set_i (with_regs [3; 5] (boot [])) 0x300) 0xF155 = Some cpu1 /\
    aget (mem cpu1) 0x301 = Some 5 /\
    exists cpu2,
      nibble_F (set_v cpu1 (replicate 16 9)) 0xF165 = Some cpu2 /\
      aget (v cpu2) 1 = Some 5 /\ aget (v cpu2) 2 = Some 9.
Proof.
  destruct (store_then_load_round_trip
              (set_i (with_regs [3; 5] (boot [])) 0x300) 0xF155 0xF165)
    as (cpu1 & H1 & _ & H2 & _ & H3).
  - repeat split.
  - unfold byte_regs. apply Forall_forall. intros x Hx.
    vm_compute in Hx. unfold is_byte.
    repeat (apply elem_of_cons in Hx as [->|Hx]; [lia|]). inversion Hx.
  - reflexivity.
  - reflexivity.
  - reflexivity.
  - cbn [i set_i]. lia.
  - cbn [i set_i]. change (OPCODE_X 0xF155) with 1. lia.
  - exists cpu1. split; [exact H1|]. split.
    + apply (H2 1). change (OPCODE_X 0xF155) with 1. lia.
    + destruct (H3 (replicate 16 9) eq_refl) as (cpu2 & G1 & _ & G2 & G3).
      exists cpu2. split; [exact G1|]. split.
      * apply (G2 1). change (OPCODE_X 0xF155) with 1. lia.
      * apply (G3 2). change (OPCODE_X 0xF155) with 1. lia.
Defined.

(** ** The font *)

Lemma boot_font (rom : list Z) : font_intact (boot rom).
Proof.
  intros k Hk. unfold boot, with_program, aget. cbn [mem set_mem].
  destruct (Z.leb_spec 0 (0x50 + k)); [|lia].
  replace (Z.to_nat (0x50 + k)) with (80 + Z.to_nat k)%nat by lia.
  assert (Ht : length (take 512 (mem (fst init_machine))) = 512%nat)
    by reflexivity.
  rewrite lookup_app_l by (rewrite Ht; lia).
  rewrite lookup_take_lt by lia.
  unfold init_machine. cbn [fst mem].
  rewrite lookup_app_r by (rewrite length_replicate; lia).
  rewrite length_replicate.
  replace (80 + Z.to_nat k - 80)%nat with (Z.to_nat k) by lia.
  apply lookup_app_l. change (length hexcodes) with 80%nat. lia.
Qed.

(** X15: FX29 sets I to 0x50 plus five times the low nibble of register X
    and changes nothing else; as long as the font table is where
    initialisation put it, which holds for a machine booted with any
    program, the five bytes at I are the rows of that digit's glyph. *)
Theorem glyph_address_finds_glyph (cpu : machine_t) (opcode vx : Z) :
  (forall rom, font_intact (boot rom)) /\
  (OPCODE_KK opcode = 0x29 ->
   aget (v cpu) (OPCODE_X opcode) = Some vx ->
   font_intact cpu ->
   exists cpu',
     nibble_F cpu opcode = Some cpu' /\
     i cpu' = 0x50 + 5 * (vx mod 16) /\
     cpu' = set_i cpu (i cpu') /\
     forall r, 0 <= r < 5 ->
       aget (mem cpu') (i cpu' + r)
       = hexcodes !! Z.to_nat (5 * (vx mod 16) + r)).
Proof.
  split; [exact boot_font|].
  intros Hkk Hx Hfont. unfold nibble_F. rewrite Hkk. cbn [Z.eqb Pos.eqb].
  rewrite Hx. cbn [mbind option_bind]. rewrite land_0xF.
  eexists. split; [reflexivity|]. cbn [i mem set_i].
  split; [lia|]. split; [reflexivity|].
  intros r Hr. pose proof (Z.mod_pos_bound vx 16 ltac:(lia)).
  replace (0x50 + vx mod 16 * 5 + r) with (0x50 + (5 * (vx mod 16) + r))
    by lia.
  apply Hfont. lia.
Qed.

Lemma glyph_address_finds_glyph_witness :
  exists cpu',
    nibble_F (with_regs [0x1A] (boot [])) 0xF029 = Some cpu' /\
    i cpu' = 0x50 + 5 * (0x1A mod 16) /\
    aget (mem cpu') (i cpu') = Some 0xF0 /\
    aget (mem cpu') (i cpu' + 4) = Some 0x90.
Proof.
  destruct (proj2 (glyph_address_finds_glyph (with_regs [0x1A] (boot []))
                     0xF029 0x1A) eq_refl eq_refl)
    as (cpu' & H1 & H2 & _ & H3).
  - exact (proj1 (glyph_address_finds_glyph (boot []) 0 0) []).
  - exists cpu'. split; [exact H1|]. split; [exact H2|]. split.
    + replace (i cpu') with (i cpu' + 0) by lia. apply (H3 0). lia.
    + apply (H3 4). lia.
Defined.

(** ** The timers *)

Lemma tick_effect (cpu : machine_t) :
  fst (tick cpu)
  = set_st (set_dt cpu (if dt cpu >? 0 then dt cpu - 1 else dt cpu))
           (if st cpu >? 0 then st cpu - 1 else st cpu) /\
  snd (tick cpu)
  = if st cpu >? 0
    then if speaker cpu then (if st cpu - 1 =? 0 then [0] else [1]) else []
    else [].
Proof.
  destruct cpu as [m p s sp0 v0 i0 d t scr w kd spk]. unfold tick. fields.
  destruct (d >? 0); fields; destruct (t >? 0); fields;
    destruct (t - 1 =? 0); destruct spk; split; reflexivity.
Qed.

Lemma ticks_add (n1 : nat) :
  forall n2 cpu,
    ticks (n1 + n2) cpu
    = (fst (ticks n2 (fst (ticks n1 cpu))),
       snd (ticks n1 cpu) ++ snd (ticks n2 (fst (ticks n1 cpu)))).
Proof.
  induction n1 as [|n1 IH]; intros n2 cpu.
  - cbn [Nat.add ticks fst snd app]. destruct (ticks n2 cpu); reflexivity.
  - cbn [Nat.add ticks]. destruct (tick cpu) as [cpu1 out1].
    rewrite IH. destruct (ticks n1 cpu1) as [cpu2 out2]. cbn [fst snd].
    rewrite app_assoc. reflexivity.
Qed.

Lemma tick_count_spec (g : Z) :
  g <= 16 * Z.of_nat (tick_count g) + 16 /\
  (tick_count g = 0%nat \/ 16 * Z.of_nat (tick_count g) < g).
Proof.
  unfold tick_count. rewrite period_is_16.
  pose proof (Z.div_mod (g - 1) 16 ltac:(lia)) as Hd.
  pose proof (Z.mod_pos_bound (g - 1) 16 ltac:(lia)) as Hm.
  destruct (Z.le_gt_cases ((g - 1) / 16) 0) as [Hq|Hq].
  - replace (Z.to_nat ((g - 1) / 16)) with 0%nat by lia. lia.
  - rewrite Z2Nat.id by lia. lia.
Qed.

(** The ticks of one call, by the accumulator as the addition left it. *)
Lemma update_time_count_any (cpu : machine_t) (global_delta delta : Z) :
  update_time cpu global_delta delta
  = (fst (ticks (tick_count (to_int (global_delta + delta))) cpu),
     to_int (global_delta + delta)
     - 16 * Z.of_nat (tick_count (to_int (global_delta + delta))),
     snd (ticks (tick_count (to_int (global_delta + delta))) cpu)).
Proof.
  destruct (tick_count_spec (to_int (global_delta + delta))) as [Hhi Hlo].
  apply update_time_loop; assumption.
Qed.

(** The same where the addition stays within the [int] range. *)
Lemma update_time_count (cpu : machine_t) (global_delta delta : Z) :
  is_int (global_delta + delta) ->
  update_time cpu global_delta delta
  = (fst (ticks (tick_count (global_delta + delta)) cpu),
     global_delta + delta
     - 16 * Z.of_nat (tick_count (global_delta + delta)),
     snd (ticks (tick_count (global_delta + delta)) cpu)).
Proof.
  intros Hint. rewrite update_time_count_any, (to_int_id _ Hint).
  reflexivity.
Qed.

Lemma tick_count_add (g d : Z) :
  0 <= d ->
  tick_count (g + d)
  = (tick_count g + tick_count (g - 16 * Z.of_nat (tick_count g) + d))%nat.
Proof.
  intros Hd. unfold tick_count. rewrite period_is_16.
  destruct (Z.le_gt_cases ((g - 1) / 16) 0) as [Hq|Hq].
  - replace (Z.to_nat ((g - 1) / 16)) with 0%nat by lia.
    cbn [Nat.add]. do 2 f_equal. lia.
  - rewrite Z2Nat.id by lia.
    replace (g - 16 * ((g - 1) / 16) + d - 1)
      with (g + d - 1 + - ((g - 1) / 16) * 16) by lia.
    rewrite Z.div_add by lia.
    assert ((g - 1) / 16 <= (g + d - 1) / 16)
      by (apply Z.div_le_mono; lia).
    lia.
Qed.

(** X16: as long as the accumulated time stays within the [int] range, a
    Timer-tick call leaves at most one period (16 ms) in the accumulator,
    and no elapsed time is lost between calls: handing the time over in two
    calls, the second with a non-negative amount, leaves the same machine,
    the same accumulator and the same sequence of speaker calls as one call
    with the sum. *)
Theorem update_time_splits (cpu : machine_t) (global_delta d1 d2 : Z) :
  is_int (global_delta + d1) -> is_int (global_delta + d1 + d2) ->
  0 <= d2 ->
  snd (fst (update_time cpu global_delta d1)) <= 1000 / 60 /\
  update_time cpu global_delta (d1 + d2)
  = (let '(cpu1, g1, out1) := update_time cpu global_delta d1 in
     let '(cpu2, g2, out2) := update_time cpu1 g1 d2 in
     (cpu2, g2, out1 ++ out2)).
Proof.
  intros Hi1 Hi2 Hd2. rewrite (update_time_count cpu global_delta d1 Hi1).
  cbn [fst snd].
  destruct (tick_count_spec (global_delta + d1)) as [Hhi Hlo]. split.
  - rewrite period_is_16. lia.
  - replace (global_delta + (d1 + d2)) with (global_delta + d1 + d2) in *
      by lia.
    rewrite (update_time_count cpu global_delta (d1 + d2))
      by (replace (global_delta + (d1 + d2)) with (global_delta + d1 + d2)
            by lia; exact Hi2).
    replace (global_delta + (d1 + d2)) with (global_delta + d1 + d2) by lia.
    rewrite update_time_count by (unfold is_int in *; lia).
    rewrite (tick_count_add (global_delta + d1) d2 Hd2).
    set (n1 := tick_count (global_delta + d1)).
    set (n2 := tick_count _).
    rewrite ticks_add. cbn [fst snd]. do 2 f_equal. lia.
Qed.

Lemma update_time_splits_witness :
  update_time (set_st (boot []) 3) 5 (20 + 30)
  = (let '(cpu1, g1, out1) := update_time (set_st (boot []) 3) 5 20 in
     let '(cpu2, g2, out2) := update_time cpu1 g1 30 in
     (cpu2, g2, out1 ++ out2)).
Proof.
  apply (update_time_splits (set_st (boot []) 3) 5 20 30);
    unfold is_int; lia.
Defined.

Lemma ticks_dt (n : nat) :
  forall cpu, 0 <= dt cpu ->
    dt (fst (ticks n cpu)) = Z.max 0 (dt cpu - Z.of_nat n).
Proof.
  induction n as [|n IH]; intros cpu Hd.
  - cbn [ticks fst]. lia.
  - cbn [ticks]. pose proof (tick_effect cpu) as [Hf _].
    destruct (tick cpu) as [cpu1 out1]. cbn [fst] in Hf.
    assert (Hd1 : dt cpu1 = Z.max 0 (dt cpu - 1)).
    { rewrite Hf. clear Hf IH. destruct cpu. cbn [dt] in Hd. fields.
      destruct (Z.gtb_spec dt0 0); lia. }
    specialize (IH cpu1 ltac:(lia)).
    destruct (ticks n cpu1) as [cpu2 out2]. cbn [fst] in *. lia.
Qed.

Lemma ticks_keep (n : nat) :
  forall cpu, v (fst (ticks n cpu)) = v cpu /\
              speaker (fst (ticks n cpu)) = speaker cpu.
Proof.
  induction n as [|n IH]; intros cpu.
  - split; reflexivity.
  - cbn [ticks]. pose proof (tick_effect cpu) as [Hf _].
    destruct (tick cpu) as [cpu1 out1]. cbn [fst] in Hf.
    specialize (IH cpu1). destruct (ticks n cpu1) as [cpu2 out2].
    cbn [fst] in *. rewrite Hf in IH. destruct cpu. exact IH.
Qed.

(** X17: a delay timer set from a register with FX15 and read back with
    FX07 after a Timer-tick call whose accumulated time stays within the
    [int] range has gone down by the number of ticks that call performed,
    stopping at 0. *)
Theorem delay_timer_round_trip
  (cpu : machine_t) (set get a global_delta delta : Z) :
  length (v cpu) = 16%nat ->
  OPCODE_KK set = 0x15 -> OPCODE_KK get = 0x07 ->
  aget (v cpu) (OPCODE_X set) = Some a -> is_byte a ->
  is_int (global_delta + delta) ->
  exists cpu1 cpu3,
    nibble_F cpu set = Some cpu1 /\
    nibble_F (fst (fst (update_time cpu1 global_delta delta))) get
    = Some cpu3 /\
    aget (v cpu3) (OPCODE_X get)
    = Some (Z.max 0 (a - Z.of_nat (tick_count (global_delta + delta)))).
Proof.
  intros Hlen Hset Hget Ha [Ha0 Ha1] Hint.
  exists (set_dt cpu a). unfold nibble_F at 1. rewrite Hset.
  cbn [Z.eqb Pos.eqb]. rewrite Ha. cbn [mbind option_bind].
  rewrite update_time_count by exact Hint. cbn [fst].
  set (n := tick_count _).
  pose proof (ticks_dt n (set_dt cpu a)) as Hdt.
  pose proof (ticks_keep n (set_dt cpu a)) as [Hv _].
  assert (Hd0 : dt (set_dt cpu a) = a) by (destruct cpu; reflexivity).
  assert (Hv0 : v (set_dt cpu a) = v cpu) by (destruct cpu; reflexivity).
  rewrite Hd0 in Hdt. specialize (Hdt Ha0). rewrite Hv0 in Hv.
  set (cpu2 := fst (ticks n (set_dt cpu a))) in *.
  unfold nibble_F. rewrite Hget. cbn [Z.eqb Pos.eqb].
  pose proof (OPCODE_X_range get) as Hx.
  destruct (write_v_defined cpu2 (OPCODE_X get) (dt cpu2)) as [cpu3 Hw];
    [rewrite Hv; exact Hlen|lia|].
  exists cpu3. split; [reflexivity|]. split; [exact Hw|].
  rewrite (write_v_read_eq _ _ _ _ Hw). rewrite Hdt. f_equal.
  unfold to_byte. apply Z.mod_small. lia.
Qed.

Lemma delay_timer_round_trip_witness :
  exists cpu1 cpu3,
    nibble_F (with_regs [0; 200] (boot [])) 0xF115 = Some cpu1 /\
    nibble_F (fst (fst (update_time cpu1 0 1000))) 0xF207 = Some cpu3 /\
    aget (v cpu3) 2 = Some 138.
Proof.
  apply (delay_timer_round_trip (with_regs [0; 200] (boot []))
           0xF115 0xF207 200 0 1000);
    [reflexivity|reflexivity|reflexivity|reflexivity|unfold is_byte; lia
    |unfold is_int; lia].
Defined.

Lemma ticks_speaker_log (n : nat) :
  forall cpu,
    snd (ticks n cpu)
    = if speaker cpu
      then replicate (Nat.min n (Z.to_nat (st cpu - 1))) 1
           ++ (if (0 <? st cpu) && (st cpu <=? Z.of_nat n) then [0] else [])
      else [].
Proof.
  induction n as [|n IH]; intros cpu.
  - cbn [ticks snd Nat.min replicate app].
    destruct (speaker cpu); [|reflexivity].
    destruct (Z.ltb_spec 0 (st cpu)); [|reflexivity].
    destruct (Z.leb_spec (st cpu) (Z.of_nat 0)); [lia|reflexivity].
  - cbn [ticks]. pose proof (tick_effect cpu) as [Hf Ho].
    destruct (tick cpu) as [cpu1 out1]. cbn [fst snd] in Hf, Ho.
    specialize (IH cpu1). destruct (ticks n cpu1) as [cpu2 out2].
    cbn [snd] in *. rewrite IH, Ho, Hf. clear IH Ho Hf.
    destruct cpu as [m p s sp0 v0 i0 d t scr w kd spk]. fields.
    destruct spk; [|destruct (t >? 0); reflexivity].
    destruct (Z.gtb_spec t 0) as [Ht|Ht].
    + destruct (Z.eqb_spec (t - 1) 0) as [E|E].
      * replace t with 1 by lia. cbn [Z.sub Z.add Z.opp Z.pos_sub Z.to_nat].
        rewrite Nat.min_0_r. cbn [replicate app Z.ltb Z.compare andb].
        destruct (Z.leb_spec 1 (Z.of_nat (S n))); [reflexivity|lia].
      * replace (Nat.min (S n) (Z.to_nat (t - 1)))
          with (S (Nat.min n (Z.to_nat (t - 1 - 1)))) by lia.
        cbn [replicate app]. do 2 f_equal.
        destruct (Z.ltb_spec 0 (t - 1)); [|lia].
        destruct (Z.ltb_spec 0 t); [|lia]. cbn [andb].
        destruct (Z.leb_spec (t - 1) (Z.of_nat n));
          destruct (Z.leb_spec t (Z.of_nat (S n))); try lia; reflexivity.
    + replace (Z.to_nat (t - 1)) with 0%nat by lia.
      rewrite !Nat.min_0_r. destruct (Z.ltb_spec 0 t); [lia|reflexivity].
Qed.

(** X18: the speaker calls of one Timer-tick call whose accumulated time
    stays within the [int] range.  With the speaker capability present and
    the sound timer at s, a call that performs n ticks calls the speaker
    with 1 on each tick that leaves the timer positive, min(n, s-1) times,
    and then with 0 once, if the timer reaches zero during the call
    (0 < s <= n); with the timer at 0 or the capability absent it makes no
    call. *)
Theorem speaker_calls (cpu : machine_t) (global_delta delta : Z) :
  is_int (global_delta + delta) ->
  snd (update_time cpu global_delta delta)
  = if speaker cpu
    then replicate (Nat.min (tick_count (global_delta + delta))
                            (Z.to_nat (st cpu - 1))) 1
         ++ (if (0 <? st cpu)
                && (st cpu <=? Z.of_nat (tick_count (global_delta + delta)))
             then [0] else [])
    else [].
Proof.
  intros Hint. rewrite update_time_count by exact Hint. cbn [snd].
  apply ticks_speaker_log.
Qed.

Lemma speaker_calls_witness :
  snd (update_time (install None true (set_st (boot []) 3)) 0 100)
  = [1; 1; 0].
Proof.
  rewrite (speaker_calls (install None true (set_st (boot []) 3)) 0 100)
    by (unfold is_int; lia).
  reflexivity.
Defined.

(** ** The ranges of the field types *)

Lemma is_byte_to_byte (x : Z) : is_byte (to_byte x).
Proof.
  unfold is_byte, to_byte. pose proof (Z.mod_pos_bound x 256). lia.
Qed.

Lemma aset_len (a l : list Z) (n x : Z) (k : nat) :
  aset a n x = Some l -> length a = k -> length l = k.
Proof. intros H <-. eapply aset_length; eauto. Qed.

Lemma aset_Forall (P : Z -> Prop) (a l : list Z) (n x : Z) :
  aset a n x = Some l -> P x -> Forall P a -> Forall P l.
Proof.
  intros H Hx Ha. apply aset_Some_inv in H as [_ ->].
  apply Forall_insert; assumption.
Qed.

Lemma aget_Forall (P : Z -> Prop) (a : list Z) (n x : Z) :
  aget a n = Some x -> Forall P a -> P x.
Proof.
  unfold aget. destruct (0 <=? n); [|discriminate].
  intros H Ha. eapply Forall_lookup_1; eauto.
Qed.

Lemma aset_bytes (a l : list Z) (n x : Z) :
  aset a n (to_byte x) = Some l -> Forall is_byte a -> Forall is_byte l.
Proof. intros H. eapply aset_Forall; [exact H|apply is_byte_to_byte]. Qed.

Lemma aget_byte (a : list Z) (n x : Z) :
  aget a n = Some x -> Forall is_byte a -> is_byte x.
Proof. apply aget_Forall. Qed.

Lemma is_bit_lxor (c : Z) (b : bool) : is_bit c -> is_bit (Z.lxor c (b2i b)).
Proof.
  intros [-> | ->]; destruct b; cbn; unfold is_bit; auto.
Qed.

Lemma to_word_range (x : Z) : 0 <= to_word x <= 0xFFFF.
Proof. unfold to_word. pose proof (Z.mod_pos_bound x 65536). lia. Qed.

Lemma word_of_address (x : Z) : 0 <= x <= 0xFFF -> 0 <= x <= 0xFFFF.
Proof. lia. Qed.

Lemma register_index (opcode : Z) : -1 <= OPCODE_X opcode <= 15.
Proof. pose proof (OPCODE_X_range opcode). lia. Qed.

Create HintDb ranges.
#[local] Hint Resolve is_byte_to_byte aset_len aset_bytes aget_byte
  to_word_range word_of_address OPCODE_NNN_range glyph_address_range
  register_index : ranges.

(** Splits [data_inv] of the state a handler returns into its clauses and
    closes them from the clauses of the starting state. *)
Ltac data_close Hinv :=
  unfold data_inv, wf_machine in *;
  cbn [mem stack v i dt st screen wait_key] in *;
  destruct Hinv as ((L1 & L2 & L3 & L4) & Hm & Hv & Hd & Ht & Hi & Hs & Hw);
  refine (conj (conj _ (conj _ (conj _ _)))
            (conj _ (conj _ (conj _ (conj _ (conj _ (conj _ _)))))));
  eauto 8 with ranges.

Lemma write_v_data (cpu cpu' : machine_t) (n x : Z) :
  data_inv cpu -> write_v cpu n x = Some cpu' -> data_inv cpu'.
Proof.
  intros Hinv. destruct cpu. fields. handler_paths. data_close Hinv.
Qed.

Lemma write_mem_data (cpu cpu' : machine_t) (n x : Z) :
  data_inv cpu -> write_mem cpu n x = Some cpu' -> data_inv cpu'.
Proof.
  intros Hinv. destruct cpu. fields. handler_paths. data_close Hinv.
Qed.

Lemma draw_pixel_data (x y sprite row col : Z) (cpu cpu' : machine_t) :
  data_inv cpu -> draw_pixel x y sprite row col cpu = Some cpu' ->
  data_inv cpu'.
Proof.
  intros Hinv. destruct cpu. unfold draw_pixel. fields. handler_paths.
  data_close Hinv.
  eapply aset_Forall; [eassumption| |assumption].
  apply is_bit_lxor. eapply aget_Forall; eassumption.
Qed.

Lemma nibble_D_data (cpu cpu' : machine_t) (opcode : Z) :
  data_inv cpu -> nibble_D cpu opcode = Some cpu' -> data_inv cpu'.
Proof.
  intros Hinv. unfold nibble_D.
  destruct (write_v cpu 15 0) as [cpu0|] eqn:E0; [|discriminate].
  cbn [mbind option_bind]. apply (write_v_data _ _ _ _ Hinv) in E0.
  apply (for_each_invariant data_inv); [|exact E0].
  intros row s s' Hs. unfold draw_row.
  destruct (aget (mem s) (i s + row)) as [sprite|]; [|discriminate].
  cbn [mbind option_bind].
  apply (for_each_invariant data_inv); [|exact Hs].
  intros col. apply draw_pixel_data.
Qed.

Lemma store_reg_data (reg : Z) (cpu cpu' : machine_t) :
  data_inv cpu -> store_reg reg cpu = Some cpu' -> data_inv cpu'.
Proof.
  intros Hinv. unfold store_reg.
  destruct (aget (v cpu) reg); [|discriminate]. cbn [mbind option_bind].
  apply write_mem_data. exact Hinv.
Qed.

Lemma load_reg_data (reg : Z) (cpu cpu' : machine_t) :
  data_inv cpu -> load_reg reg cpu = Some cpu' -> data_inv cpu'.
Proof.
  intros Hinv. unfold load_reg.
  destruct (aget (mem cpu) (i cpu + reg)); [|discriminate].
  cbn [mbind option_bind]. apply write_v_data. exact Hinv.
Qed.

Lemma nibble_F_data (cpu cpu' : machine_t) (opcode : Z) :
  data_inv cpu -> nibble_F cpu opcode = Some cpu' -> data_inv cpu'.
Proof.
  intros Hinv. unfold nibble_F.
  destruct (Z.eqb_spec (OPCODE_KK opcode) 0x55) as [E55|N55].
  { rewrite E55. cbn [Z.eqb Pos.eqb].
    apply (for_each_invariant data_inv); [|exact Hinv].
    intros k s s' Hs. apply store_reg_data. exact Hs. }
  destruct (Z.eqb_spec (OPCODE_KK opcode) 0x65) as [E65|N65].
  { rewrite E65. cbn [Z.eqb Pos.eqb].
    apply (for_each_invariant data_inv); [|exact Hinv].
    intros k s s' Hs. apply load_reg_data. exact Hs. }
  destruct cpu. fields. handler_paths; data_close Hinv.
Qed.

Lemma nibble_0_data (cpu cpu' : machine_t) (opcode : Z) :
  data_inv cpu -> nibble_0 cpu opcode = Some cpu' -> data_inv cpu'.
Proof.
  intros Hinv. unfold nibble_0.
  assert (Lz : length (replicate 2048 0) = 2048%nat)
    by apply length_replicate.
  assert (Hz : Forall is_bit (replicate 2048 0))
    by (apply Forall_replicate; left; reflexivity).
  set (z := replicate 2048 0) in *. clearbody z.
  destruct cpu as [m p s q r a d t c w kd b]. fields.
  handler_paths; data_close Hinv.
Qed.

Lemma handler_preserves_data_inv (rnd : Z) (n : nat)
  (h : machine_t -> Z -> option machine_t) (cpu cpu' : machine_t)
  (opcode : Z) :
  nibbles rnd !! n = Some h ->
  data_inv cpu -> h cpu opcode = Some cpu' -> data_inv cpu'.
Proof.
  intros Hn Hinv.
  destruct n as [|n];
    [inversion Hn; subst h; apply nibble_0_data; exact Hinv|].
  do 12 (destruct n as [|n];
         [inversion Hn; subst h; destruct cpu;
          unfold nibble_1, nibble_2, nibble_3, nibble_4, nibble_5,
            nibble_6, nibble_7, nibble_8, nibble_9, nibble_A, nibble_B,
            nibble_C;
          fields; handler_paths; data_close Hinv|]).
  destruct n as [|n];
    [inversion Hn; subst h; apply nibble_D_data; exact Hinv|].
  destruct n as [|n].
  { inversion Hn; subst h.
    destruct cpu as [m p s q r a d t c k [poll|] b]; unfold nibble_E;
      fields; handler_paths; data_close Hinv. }
  destruct n as [|n]; [|discriminate].
  inversion Hn; subst h. apply nibble_F_data. exact Hinv.
Qed.

Lemma set_pc_data (cpu : machine_t) (x : Z) :
  data_inv cpu -> data_inv (set_pc cpu x).
Proof. intros Hinv. destruct cpu. fields. data_close Hinv. Qed.

Lemma poll_keys_data (poll : Z -> Z) (keys : list Z) (cpu cpu' : machine_t) :
  data_inv cpu -> poll_keys poll keys cpu = Some cpu' -> data_inv cpu'.
Proof.
  intros Hinv. induction keys as [|k keys IH]; cbn [poll_keys].
  - intros [= <-]. exact Hinv.
  - destruct (negb (poll k =? 0)); [|exact IH].
    destruct (write_v cpu (wait_key cpu) k) as [cpu1|] eqn:E1;
      cbn [mbind option_bind]; [|discriminate].
    intros [= <-]. apply (write_v_data _ _ _ _ Hinv) in E1.
    destruct cpu1. fields. data_close E1; lia.
Qed.

Lemma fetch_execute_data (rnd : Z) (cpu cpu' : machine_t) :
  data_inv cpu -> fetch_execute rnd cpu = Some cpu' -> data_inv cpu'.
Proof.
  intros Hinv. unfold fetch_execute.
  destruct (fetch cpu) as [opcode|]; [|discriminate]. cbn [mbind option_bind].
  destruct (nibbles rnd !! Z.to_nat (OPCODE_P opcode)) as [h|] eqn:Eh;
    [|discriminate].
  cbn [mbind option_bind].
  apply (handler_preserves_data_inv rnd _ h _ _ _ Eh).
  apply set_pc_data. exact Hinv.
Qed.

(** One Step call keeps both invariants. *)
Lemma step_machine_invariants (rnd : Z) (cpu cpu' : machine_t) :
  ctl_inv cpu /\ data_inv cpu -> step_machine rnd cpu = Some cpu' ->
  ctl_inv cpu' /\ data_inv cpu'.
Proof.
  intros [Hc Hd].
  assert (Hfe : forall c c', ctl_inv c /\ data_inv c ->
                  fetch_execute rnd c = Some c' -> ctl_inv c' /\ data_inv c').
  { intros c c' [Hc0 Hd0] H. split;
      [eapply fetch_execute_inv|eapply fetch_execute_data]; eauto. }
  unfold step_machine.
  destruct (negb (wait_key cpu =? -1)); [|apply Hfe; auto].
  destruct (keydown cpu) as [poll|]; [|apply Hfe; auto].
  destruct (poll_keys poll (seqZ 0 16) cpu) as [cpu1|] eqn:E1;
    [|discriminate].
  cbn [mbind option_bind].
  assert (H1 : ctl_inv cpu1 /\ data_inv cpu1).
  { split; [|eapply poll_keys_data; eauto].
    apply poll_keys_ctl in E1. eapply ctl_inv_same; eauto. }
  destruct (negb (wait_key cpu1 =? -1)); [|apply Hfe; exact H1].
  intros [= <-]. exact H1.
Qed.

Lemma ticks_data (n : nat) :
  forall cpu, data_inv cpu -> data_inv (fst (ticks n cpu)).
Proof.
  induction n as [|n IH]; intros cpu Hinv; [exact Hinv|].
  cbn [ticks]. pose proof (tick_effect cpu) as [Hf _].
  destruct (tick cpu) as [cpu1 out1]. cbn [fst] in Hf.
  specialize (IH cpu1). destruct (ticks n cpu1) as [cpu2 out2].
  cbn [fst] in *. apply IH. rewrite Hf. clear IH Hf.
  destruct cpu as [m p s q r a d t c w kd b]. fields. data_close Hinv.
  - unfold is_byte in *. destruct (Z.gtb_spec d 0); lia.
  - unfold is_byte in *. destruct (Z.gtb_spec t 0); lia.
Qed.

(** One Timer-tick call keeps both invariants. *)
Lemma update_time_invariants (cpu : machine_t) (global_delta delta : Z) :
  ctl_inv cpu /\ data_inv cpu ->
  ctl_inv (fst (fst (update_time cpu global_delta delta))) /\
  data_inv (fst (fst (update_time cpu global_delta delta))).
Proof.
  intros [Hc Hd]. split.
  - eapply ctl_inv_same; [apply update_time_ctl|exact Hc].
  - rewrite update_time_count_any. cbn [fst]. apply ticks_data. exact Hd.
Qed.

Lemma hexcodes_bytes : Forall is_byte hexcodes.
Proof.
  apply List.Forall_forall. intros x Hx.
  assert (Hb : forallb (fun z => (0 <=? z) && (z <=? 255)) hexcodes = true)
    by (vm_compute; reflexivity).
  rewrite forallb_forall in Hb. specialize (Hb x Hx). unfold is_byte. lia.
Qed.

Lemma power_on_invariants (rom : list Z) (poll : option (Z -> Z))
  (spk : bool) :
  Forall is_byte rom -> (length rom <= 3584)%nat ->
  ctl_inv (power_on rom poll spk) /\ data_inv (power_on rom poll spk).
Proof.
  intros Hrom Hlen.
  assert (Hzero : forall n, Forall is_byte (replicate n 0))
    by (intros n; apply Forall_replicate; unfold is_byte; lia).
  assert (Hmem : Forall is_byte (mem (fst init_machine))).
  { unfold init_machine. cbn [fst mem].
    repeat apply Forall_app_2; auto using hexcodes_bytes. }
  assert (Lmem : length (mem (fst init_machine)) = 4096%nat) by reflexivity.
  unfold power_on, with_program, install, set_mem.
  cbn [mem pc stack sp v i dt st screen wait_key keydown speaker].
  set (m0 := mem (fst init_machine)) in *. clearbody m0.
  unfold init_machine. cbn [fst pc stack sp v i dt st screen wait_key].
  split.
  - unfold ctl_inv. cbn [pc sp stack]. split; [lia|]. split; [lia|].
    intros k ret Hk. lia.
  - unfold data_inv, wf_machine.
    cbn [mem stack v i dt st screen wait_key].
    rewrite !length_app, length_take, length_drop, !length_replicate, Lmem.
    refine (conj (conj _ (conj _ (conj _ _)))
              (conj _ (conj _ (conj _ (conj _ (conj _ (conj _ _)))))));
      try reflexivity; try (unfold is_byte; lia); auto.
    + repeat apply Forall_app_2; auto using Forall_take, Forall_drop.
    + apply Forall_replicate. left. reflexivity.
Qed.

Lemma run_invariants (es : list event) :
  forall s s', ctl_inv (fst s) /\ data_inv (fst s) -> run es s = Some s' ->
    ctl_inv (fst s') /\ data_inv (fst s').
Proof.
  induction es as [|e es IH]; intros s s' Hs; cbn [run].
  - intros [= <-]. exact Hs.
  - destruct (run_event e s) as [s1|] eqn:E1; [|discriminate].
    cbn [mbind option_bind]. apply IH.
    destruct e as [rnd|delta]; cbn [run_event] in E1.
    + destruct (step_machine rnd (fst s)) as [cpu1|] eqn:E2; [|discriminate].
      cbn [mbind option_bind] in E1. injection E1 as <-. cbn [fst].
      eapply step_machine_invariants; eauto.
    + pose proof (update_time_invariants (fst s) (snd s) delta Hs) as Hu.
      destruct (update_time (fst s) (snd s) delta) as [[cpu1 g1] out].
      injection E1 as <-. exact Hu.
Qed.

(** X19: the field ranges hold in every state the emulator reaches.  From
    power-on with a program of at most 3584 bytes, after any sequence of
    Step and Timer-tick calls that the code defines, memory cells, registers
    and timers are bytes, the arrays have their sizes, the address register
    is a 16-bit value, every framebuffer cell is 0 or 1, the wait state is
    -1 or a register number, the program counter is in [0, 0xFFF], the
    stack pointer in [0, 16] and every active stack entry in [0, 0xFFF]. *)
Theorem reachable_states_in_range (rom : list Z) (poll : option (Z -> Z))
  (spk : bool) (es : list event) (s : machine_t * Z) :
  Forall is_byte rom -> (length rom <= 3584)%nat ->
  run es (power_on rom poll spk, 0) = Some s ->
  ctl_inv (fst s) /\ data_inv (fst s).
Proof.
  intros Hrom Hlen. apply run_invariants. cbn [fst].
  apply power_on_invariants; assumption.
Qed.

Lemma reachable_states_in_range_witness :
  exists s,
    run [Step 0; Tick 40; Step 7; Step 0]
        (power_on [0x22; 0x06; 0x00; 0xE0; 0x00; 0x00; 0xC1; 0xFF; 0x00; 0xEE]
                  (Some (fun _ => 0)) true, 0) = Some s /\
    ctl_inv (fst s) /\ data_inv (fst s).
Proof.
  destruct (run [Step 0; Tick 40; Step 7; Step 0]
              (power_on [0x22; 0x06; 0x00; 0xE0; 0x00; 0x00; 0xC1; 0xFF;
                         0x00; 0xEE] (Some (fun _ => 0)) true, 0))
    as [s|] eqn:E; [|vm_compute in E; discriminate].
  exists s. split; [reflexivity|].
  apply (reachable_states_in_range
           [0x22; 0x06; 0x00; 0xE0; 0x00; 0x00; 0xC1; 0xFF; 0x00; 0xEE]
           (Some (fun _ => 0)) true [Step 0; Tick 40; Step 7; Step 0] s).
  - repeat constructor; unfold is_byte; lia.
  - cbn [length]. lia.
  - exact E.
Defined.

(** ** One sprite draw *)

Lemma cell_defined (scr : list Z) (p : Z) :
  0 <= p < Z.of_nat (length scr) -> scr !! Z.to_nat p = Some (cell scr p).
Proof.
  intros Hp.
  destruct (lookup_lt_is_Some_2 scr (Z.to_nat p)) as [c Hc]; [lia|].
  rewrite (cell_lookup scr p c) by (lia || exact Hc). exact Hc.
Qed.

(** The updates of one sprite, applied to a screen: every addressed cell is
    XORed with its sprite bit, the other cells stay, and the flag is set
    when one of the updates meets a lit cell. *)
Lemma plot_sprite (cpu : machine_t) (opcode : Z) (scr : list Z) :
  length scr = 2048%nat ->
  (forall row col, 0 <= row < OPCODE_N opcode -> 0 <= col < 8 ->
     cell (snd (plot (sprite_pixels cpu opcode) (0, scr)))
          (pixel_pos (reg cpu (OPCODE_X opcode)) (reg cpu (OPCODE_Y opcode))
                     row col)
     = Z.lxor (cell scr (pixel_pos (reg cpu (OPCODE_X opcode))
                                   (reg cpu (OPCODE_Y opcode)) row col))
              (pixel_bit (memb cpu (i cpu + row)) col)) /\
  (forall p,
     (forall row col, 0 <= row < OPCODE_N opcode -> 0 <= col < 8 ->
        p <> pixel_pos (reg cpu (OPCODE_X opcode)) (reg cpu (OPCODE_Y opcode))
                       row col) ->
     aget (snd (plot (sprite_pixels cpu opcode) (0, scr))) p = aget scr p) /\
  fst (plot (sprite_pixels cpu opcode) (0, scr))
  = b2i (existsb (hits scr) (sprite_pixels cpu opcode)).
Proof.
  intros Hs. set (ps := sprite_pixels cpu opcode).
  assert (Hnd : NoDup (natpos <$> ps)) by apply sprite_pixels_NoDup.
  split; [|split].
  - intros row col Hrow Hcol.
    set (p := pixel_pos _ _ row col).
    set (b := pixel_bit _ col).
    assert (Hp : 0 <= p < 2048) by apply pixel_pos_range.
    assert (Hin : (p, b) ∈ ps).
    { apply sprite_pixels_elem. exists row, col. auto. }
    apply cell_lookup; [lia|].
    apply (plot_lookup_hit ps (0, scr) p b); [exact Hnd|exact Hin|lia|].
    cbn [snd]. apply cell_defined. lia.
  - intros p Hp. unfold aget. destruct (Z.leb_spec 0 p) as [H0|H0];
      [|reflexivity].
    apply (plot_lookup_other ps (Z.to_nat p) (0, scr)).
    intros Hin. apply list_elem_of_fmap in Hin as (pb & Heq & Hpb).
    pose proof (sprite_pixels_range _ _ _ Hpb) as Hr.
    apply sprite_pixels_elem in Hpb as (row & col & Hrow & Hcol & ->).
    unfold natpos in Heq. cbn [fst] in Heq, Hr.
    apply (Hp row col Hrow Hcol). lia.
  - rewrite plot_flag; [reflexivity|left; reflexivity| |exact Hnd].
    intros pb. apply sprite_pixels_bits.
Qed.

Lemma drawn_frame (cpu : machine_t) (fs : Z * list Z) :
  drawn cpu fs
  = set_screen (set_v cpu (v (drawn cpu fs))) (screen (drawn cpu fs)).
Proof. destruct cpu. reflexivity. Qed.

(** X20: what one DXYN does.  For coordinate registers other than 0xF and a
    sprite within memory, the draw is defined; every cell addressed by a
    sprite bit (row r, column c, at the wrapped position) is XORed with that
    bit, every other cell is left alone; register 0xF becomes 1 when some
    sprite bit meets a lit cell of the screen as it was before the draw and
    0 otherwise; the other registers and all other fields are unchanged. *)
Theorem draw_xors_sprite (cpu : machine_t) (opcode : Z) :
  wf_machine cpu ->
  OPCODE_X opcode <> 0xF -> OPCODE_Y opcode <> 0xF ->
  Forall in_memory (sprite_indices cpu opcode) ->
  exists cpu' (flag : bool),
    nibble_D cpu opcode = Some cpu' /\
    (forall row col, 0 <= row < OPCODE_N opcode -> 0 <= col < 8 ->
       cell (screen cpu')
            (pixel_pos (reg cpu (OPCODE_X opcode)) (reg cpu (OPCODE_Y opcode))
                       row col)
       = Z.lxor (cell (screen cpu)
                      (pixel_pos (reg cpu (OPCODE_X opcode))
                                 (reg cpu (OPCODE_Y opcode)) row col))
                (pixel_bit (memb cpu (i cpu + row)) col)) /\
    (forall p,
       (forall row col, 0 <= row < OPCODE_N opcode -> 0 <= col < 8 ->
          p <> pixel_pos (reg cpu (OPCODE_X opcode))
                         (reg cpu (OPCODE_Y opcode)) row col) ->
       aget (screen cpu') p = aget (screen cpu) p) /\
    aget (v cpu') 0xF = Some (b2i flag) /\
    (flag = true <->
     exists row col,
       0 <= row < OPCODE_N opcode /\ 0 <= col < 8 /\
       hits (screen cpu)
            (pixel_pos (reg cpu (OPCODE_X opcode)) (reg cpu (OPCODE_Y opcode))
                       row col,
             pixel_bit (memb cpu (i cpu + row)) col) = true) /\
    (forall n, n <> 0xF -> aget (v cpu') n = aget (v cpu) n) /\
    cpu' = set_screen (set_v cpu (v cpu')) (screen cpu').
Proof.
  intros Hwf HX HY Hin. pose proof Hwf as (Hm & _ & Hv & Hs).
  destruct (plot_sprite cpu opcode (screen cpu) Hs) as (Hhit & Hother & Hflag).
  set (ps := sprite_pixels cpu opcode) in *.
  exists (drawn cpu (plot ps (0, screen cpu))), (existsb (hits (screen cpu)) ps).
  split; [apply nibble_D_plot; assumption|].
  split; [exact Hhit|]. split; [exact Hother|].
  split; [rewrite drawn_flag by exact Hv; rewrite Hflag; reflexivity|].
  split.
  - rewrite existsb_exists. split.
    + intros (pb & Hpb & Hh). apply list_elem_of_In in Hpb.
      apply sprite_pixels_elem in Hpb as (row & col & Hrow & Hcol & ->).
      exists row, col. auto.
    + intros (row & col & Hrow & Hcol & Hh). eexists. split; [|exact Hh].
      apply list_elem_of_In. apply sprite_pixels_elem. exists row, col. auto.
  - split; [|apply drawn_frame].
    intros n Hn. apply drawn_regs; assumption.
Qed.

Lemma draw_xors_sprite_witness :
  exists cpu' (flag : bool),
    nibble_D (set_i (boot []) 0x50) 0xD015 = Some cpu' /\
    aget (v cpu') 0xF = Some (b2i flag) /\
    cpu' = set_screen (set_v (set_i (boot []) 0x50) (v cpu')) (screen cpu').
Proof.
  destruct (draw_xors_sprite (set_i (boot []) 0x50) 0xD015)
    as (cpu' & flag & H1 & _ & _ & H2 & _ & _ & H3).
  - repeat split.
  - vm_compute. discriminate.
  - vm_compute. discriminate.
  - apply offsets_in_memory. right. vm_compute. split; discriminate.
  - exists cpu', flag. auto.
Defined.

Lemma cell_cleared (n : nat) (p : Z) : cell (replicate n 0) p = 0.
Proof.
  unfold cell, aget. destruct (0 <=? p); [|reflexivity].
  destruct (replicate n 0 !! Z.to_nat p) as [c|] eqn:E; [|reflexivity].
  apply lookup_replicate in E as [-> _]. reflexivity.
Qed.

Lemma no_hits_cleared (n : nat) (ps : list (Z * Z)) :
  existsb (hits (replicate n 0)) ps = false.
Proof.
  induction ps as [|pb ps IH]; [reflexivity|].
  cbn [existsb]. rewrite IH. unfold hits. rewrite cell_cleared.
  reflexivity.
Qed.

Lemma cleared_sprite_pixels (cpu : machine_t) (scr : list Z) (opcode : Z) :
  sprite_pixels (set_screen cpu scr) opcode = sprite_pixels cpu opcode.
Proof. destruct cpu. reflexivity. Qed.

(** X21: 00E0 followed by DXYN shows exactly the sprite.  After the clear,
    a draw with coordinate registers other than 0xF and a sprite within
    memory leaves register 0xF at 0, every addressed cell equal to its
    sprite bit and every other cell of the screen 0. *)
Theorem draw_on_cleared_screen (cpu : machine_t) (opcode : Z) :
  wf_machine cpu ->
  OPCODE_X opcode <> 0xF -> OPCODE_Y opcode <> 0xF ->
  Forall in_memory (sprite_indices cpu opcode) ->
  exists cpu0 cpu',
    nibble_0 cpu 0x00E0 = Some cpu0 /\
    nibble_D cpu0 opcode = Some cpu' /\
    aget (v cpu') 0xF = Some 0 /\
    (forall row col, 0 <= row < OPCODE_N opcode -> 0 <= col < 8 ->
       cell (screen cpu')
            (pixel_pos (reg cpu (OPCODE_X opcode)) (reg cpu (OPCODE_Y opcode))
                       row col)
       = pixel_bit (memb cpu (i cpu + row)) col) /\
    (forall p,
       (forall row col, 0 <= row < OPCODE_N opcode -> 0 <= col < 8 ->
          p <> pixel_pos (reg cpu (OPCODE_X opcode))
                         (reg cpu (OPCODE_Y opcode)) row col) ->
       cell (screen cpu') p = 0).
Proof.
  intros Hwf HX HY Hin. pose proof Hwf as (Hm & Hst & Hv & Hs).
  assert (Lz : length (replicate 2048 0) = 2048%nat)
    by apply length_replicate.
  pose proof (cell_cleared 2048) as Hz.
  pose proof (no_hits_cleared 2048 (sprite_pixels cpu opcode)) as Hno.
  change (nibble_0 cpu 224)
    with (Some (set_screen cpu (replicate 2048 0))).
  set (z := replicate 2048 0) in *. clearbody z.
  set (cpu0 := set_screen cpu z).
  assert (Hwf0 : wf_machine cpu0)
    by (destruct cpu; repeat split; assumption).
  assert (Hin0 : Forall in_memory (sprite_indices cpu0 opcode))
    by (destruct cpu; exact Hin).
  destruct (plot_sprite cpu opcode z Lz) as (Hhit & Hother & Hflag).
  exists cpu0, (drawn cpu0 (plot (sprite_pixels cpu0 opcode) (0, screen cpu0))).
  split; [reflexivity|].
  split; [apply nibble_D_plot; assumption|].
  assert (Hscr : screen cpu0 = z) by (destruct cpu; reflexivity).
  assert (Hv0 : length (v cpu0) = 16%nat) by (destruct cpu; exact Hv).
  assert (Hps : sprite_pixels cpu0 opcode = sprite_pixels cpu opcode)
    by apply cleared_sprite_pixels.
  rewrite Hps, Hscr.
  split; [rewrite drawn_flag by exact Hv0; rewrite Hflag, Hno; reflexivity|].
  assert (Hd : forall fs, screen (drawn cpu0 fs) = snd fs)
    by (intros fs; destruct cpu; reflexivity).
  rewrite Hd. split.
  - intros row col Hrow Hcol. rewrite (Hhit row col Hrow Hcol), Hz.
    apply Z.lxor_0_l.
  - intros p Hp. unfold cell. rewrite (Hother p Hp). exact (Hz p).
Qed.

Lemma draw_on_cleared_screen_witness :
  exists cpu0 cpu',
    nibble_0 (set_i (boot []) 0x50) 0x00E0 = Some cpu0 /\
    nibble_D cpu0 0xD015 = Some cpu' /\
    aget (v cpu') 0xF = Some 0.
Proof.
  destruct (draw_on_cleared_screen (set_i (boot []) 0x50) 0xD015)
    as (cpu0 & cpu' & H1 & H2 & H3 & _).
  - repeat split.
  - vm_compute. discriminate.
  - vm_compute. discriminate.
  - apply offsets_in_memory. right. vm_compute. split; discriminate.
  - exists cpu0, cpu'. auto.
Defined.

(** ** Fetch and dispatch *)

Lemma bytes_join (h l : Z) :
  0 <= l <= 255 -> Z.lor (Z.shiftl h 8) l = 256 * h + l.
Proof.
  intros Hl. rewrite <- Z.add_nocarry_lor.
  - rewrite Z.shiftl_mul_pow2 by lia. lia.
  - apply Z.bits_inj'. intros n Hn. rewrite Z.land_spec, Z.bits_0.
    destruct (Z.lt_ge_cases n 8) as [Hlt|Hge].
    + rewrite Z.shiftl_spec_low by lia. reflexivity.
    + replace l with (l mod 2 ^ 8) by (apply Z.mod_small; lia).
      rewrite Z.mod_pow2_bits_high by lia. apply andb_false_r.
Qed.

Lemma opcode_fields (hi lo : Z) :
  is_byte hi -> is_byte lo ->
  16 * OPCODE_P (256 * hi + lo) + OPCODE_X (256 * hi + lo) = hi /\
  16 * OPCODE_Y (256 * hi + lo) + OPCODE_N (256 * hi + lo) = lo /\
  OPCODE_KK (256 * hi + lo) = lo /\
  0 <= OPCODE_P (256 * hi + lo) <= 15.
Proof.
  unfold is_byte. intros Hhi Hlo.
  unfold OPCODE_P, OPCODE_X, OPCODE_Y, OPCODE_N, OPCODE_KK.
  rewrite !land_0xF, land_0xFF, !Z.shiftr_div_pow2 by lia.
  change (2 ^ 12) with 4096. change (2 ^ 8) with 256. change (2 ^ 4) with 16.
  Z.div_mod_to_equations. lia.
Qed.

(** X22: the opcode fetch.  With byte memory cells and the program counter
    in [0, 0xFFF], the fetch is defined except at 0xFFF, where the second
    byte lies beyond memory; the opcode is the byte at the program counter
    times 256 plus the next byte, its family and X nibbles are the two
    halves of the first byte, its Y and N nibbles the two halves of the
    second, KK is the second byte, and the handler table has an entry for
    its family. *)
Theorem fetch_decodes (rnd : Z) (cpu : machine_t) :
  length (mem cpu) = 4096%nat -> Forall is_byte (mem cpu) ->
  0 <= pc cpu <= 0xFFF ->
  (fetch cpu = None <-> pc cpu = 0xFFF) /\
  (pc cpu = 0xFFF -> wait_key cpu = -1 -> step_machine rnd cpu = None) /\
  forall opcode, fetch cpu = Some opcode ->
    opcode = 256 * memb cpu (pc cpu) + memb cpu (pc cpu + 1) /\
    16 * OPCODE_P opcode + OPCODE_X opcode = memb cpu (pc cpu) /\
    16 * OPCODE_Y opcode + OPCODE_N opcode = memb cpu (pc cpu + 1) /\
    OPCODE_KK opcode = memb cpu (pc cpu + 1) /\
    is_Some (nibbles rnd !! Z.to_nat (OPCODE_P opcode)).
Proof.
  intros Hlen Hbytes Hpc.
  destruct (aget_in_range (mem cpu) (pc cpu)) as [hi Hhi]; [lia|].
  assert (Hnone : fetch cpu = None <-> pc cpu = 0xFFF).
  { unfold fetch. rewrite Hhi. cbn [mbind option_bind]. split.
    - intros H. destruct (Z.eq_dec (pc cpu) 0xFFF) as [E|E]; [exact E|].
      destruct (aget_in_range (mem cpu) (pc cpu + 1)) as [lo Hlo]; [lia|].
      rewrite Hlo in H. discriminate.
    - intros E.
      assert (Hlo : aget (mem cpu) (pc cpu + 1) = None)
        by (apply aget_None_iff; lia).
      rewrite Hlo. reflexivity. }
  split; [exact Hnone|]. split.
  - intros E Hw. unfold step_machine. rewrite Hw. cbn [Z.eqb Pos.eqb negb].
    unfold fetch_execute. rewrite (proj2 Hnone E). reflexivity.
  - intros opcode. unfold fetch, memb. rewrite Hhi. cbn [mbind option_bind].
    destruct (aget (mem cpu) (pc cpu + 1)) as [lo|] eqn:Hlo; [|discriminate].
    cbn [mbind option_bind default]. intros [= <-].
    pose proof (aget_byte _ _ _ Hhi Hbytes) as Bhi.
    pose proof (aget_byte _ _ _ Hlo Hbytes) as Blo.
    rewrite bytes_join by exact Blo.
    replace (to_word (256 * hi + lo)) with (256 * hi + lo)
      by (unfold to_word, is_byte in *; symmetry; apply Z.mod_small; lia).
    destruct (opcode_fields hi lo Bhi Blo) as (H1 & H2 & H3 & H4).
    repeat split; try assumption.
    apply lookup_lt_is_Some_2. change (length (nibbles rnd)) with 16%nat.
    lia.
Qed.

Lemma bytes_checked (l : list Z) :
  forallb (fun z => (0 <=? z) && (z <=? 255)) l = true -> Forall is_byte l.
Proof.
  intros Hb. apply List.Forall_forall. intros x Hx.
  rewrite forallb_forall in Hb. specialize (Hb x Hx). unfold is_byte. lia.
Qed.

Lemma fetch_decodes_witness :
  fetch (set_pc (boot []) 0xFFF) = None /\
  forall opcode, fetch (boot [0x6A; 0x2C]) = Some opcode ->
    opcode = 256 * 0x6A + 0x2C /\ OPCODE_KK opcode = 0x2C.
Proof.
  split.
  - apply (fetch_decodes 0 (set_pc (boot []) 0xFFF));
      [reflexivity| |vm_compute; split; discriminate|reflexivity].
    apply bytes_checked. vm_compute. reflexivity.
  - intros opcode H.
    destruct (fetch_decodes 0 (boot [0x6A; 0x2C])) as (_ & _ & Hd);
      [reflexivity| |vm_compute; split; discriminate|].
    + apply bytes_checked. vm_compute. reflexivity.
    + destruct (Hd opcode H) as (H1 & _ & _ & H4 & _). split; assumption.
Defined.
